(** * bert-self-attention-regularization: the NER preprocessor and the SQuAD driver

    A shallow embedding of
    - [ner/data/preprocess.py]: the token/label alignment preprocessor, and
    - [squad/run_squad.py]: the question-answering fine-tuning driver,
    together with the properties their description states about them.

    The transformer library, the deep-learning framework and the operating
    system are outside the repository.  The preprocessor sees its tokenizer
    as a function; the driver sees the outside as a [world] that answers
    its probes, and the calls it makes are recorded in a trace. *)

From Stdlib Require Import ZArith List String Ascii Bool Lia.
From Stdlib Require Import DecimalString DecimalPos DecimalZ.
Import ListNotations.

Local Open Scope Z_scope.

(* ===================================================================== *)
(** * Part I: [ner/data/preprocess.py]                                    *)
(* ===================================================================== *)

Module Preprocess.

(** A Python [str] is a sequence of Unicode code points. *)
Definition char := N.
Definition str := list char.

(** The code points [str.rstrip()] and [str.split()] treat as whitespace
    when called without an argument (CPython's [Py_UNICODE_ISSPACE]). *)
Definition isspace (c : char) : bool :=
  ((9 <=? c) && (c <=? 13) || (28 <=? c) && (c <=? 32) ||
   (c =? 133) || (c =? 160) || (c =? 5760) ||
   (8192 <=? c) && (c <=? 8202) || (c =? 8232) || (c =? 8233) ||
   (c =? 8239) || (c =? 8287) || (c =? 12288))%N.

(** [s.rstrip()] *)
Fixpoint rstrip (s : str) : str :=
  match s with
  | [] => []
  | c :: r =>
      match rstrip r with
      | [] => if isspace c then [] else [c]
      | r' => c :: r'
      end
  end.

(** [s.split()]: the maximal runs of non-whitespace, [field] being the run
    that is open when the scan reaches [s]. *)
Fixpoint split_from (field : str) (s : str) : list str :=
  match s with
  | [] => match field with [] => [] | _ => [field] end
  | c :: r =>
      if isspace c
      then match field with
           | [] => split_from [] r
           | _ => field :: split_from [] r
           end
      else split_from (field ++ [c]) r
  end.

Definition split (s : str) : list str := split_from [] s.

(** [line[0]] and [line[-1]] on the list of fields.  Both raise
    [IndexError] on an empty list in Python; [split_rstrip_nonempty] below
    shows that the list is never empty where the program indexes it. *)
Definition first_field (fields : list str) : str := hd [] fields.
Definition last_field (fields : list str) : str := last fields [].

(** [print(token, label)] writes the two, separated by one space, as one
    line; [print("")] and [print(line)] for an empty [line] write an empty
    line.  Standard output is the list of the lines written. *)
Definition space : char := 32%N.
Definition print2 (token label : str) : str := token ++ space :: label.

Record state := mkState {
  subword_len_counter : Z;
  stdout : list str
}.

Definition initial : state := mkState 0 [].

Section WithTokenizer.

(** [tokenizer.tokenize], supplied by the transformer library, and
    [max_len = int(sys.argv[3])]. *)
Variable tokenize : str -> list str.
Variable max_len : Z.

Definition token_of (line : str) : str := first_field (split (rstrip line)).
Definition label_of (line : str) : str := last_field (split (rstrip line)).

Definition current_subwords_len (line : str) : Z :=
  Z.of_nat (List.length (tokenize (token_of line))).

(** The body of [for line in f_p], lines 15 to 39. *)
Definition body (st : state) (line0 : str) : state :=
  let line := rstrip line0 in
  match line with
  | [] =>
      (* end of example *)
      mkState 0 (stdout st ++ [line])
  | _ =>
      let fields := split line in
      let token := first_field fields in
      let label := last_field fields in
      let current := Z.of_nat (List.length (tokenize token)) in
      if current =? 0 then st
      else if subword_len_counter st + current >? max_len
      then mkState 0 (stdout st ++ [[]; print2 token label])
      else mkState (subword_len_counter st + current)
                   (stdout st ++ [print2 token label])
  end.

(** The loop over the lines the file iterator yields. *)
Fixpoint for_lines (f_p : list str) (st : state) : state :=
  match f_p with
  | [] => st
  | line :: rest => for_lines rest (body st line)
  end.

Definition preprocess (f_p : list str) : state := for_lines f_p initial.

(** ** The iterator protocol, one step at a time

    A configuration holds the lines the iterator has not yielded yet and the
    program state; [next] is one turn of the loop and is [None] when the
    iterator is exhausted. *)
Record config := mkConfig { unread : list str; vars : state }.

Definition next (c : config) : option config :=
  match unread c with
  | [] => None
  | line :: rest => Some (mkConfig rest (body (vars c) line))
  end.

Fixpoint turns (n : nat) (c : config) : option config :=
  match n with
  | O => Some c
  | S n' => match next c with
            | None => None
            | Some c' => turns n' c'
            end
  end.

(** ** The description's reading: a left fold over one integer

    [next_counter] and [emitted] are functions of the counter and the line
    alone. *)
Definition blank (line : str) : bool :=
  match rstrip line with [] => true | _ => false end.

Definition splits (counter : Z) (line : str) : bool :=
  negb (blank line) && negb (current_subwords_len line =? 0)
  && (counter + current_subwords_len line >? max_len).

Definition kept (line : str) : bool :=
  negb (blank line) && negb (current_subwords_len line =? 0).

Definition next_counter (counter : Z) (line : str) : Z :=
  if blank line then 0
  else if current_subwords_len line =? 0 then counter
  else if counter + current_subwords_len line >? max_len then 0
  else counter + current_subwords_len line.

Definition emitted (counter : Z) (line : str) : list str :=
  if blank line then [[]]
  else if current_subwords_len line =? 0 then []
  else if counter + current_subwords_len line >? max_len
  then [[]; print2 (token_of line) (label_of line)]
  else [print2 (token_of line) (label_of line)].

(** What [print(token, label)] writes for a line, and the lines of the
    output that are not the empty separator lines. *)
Definition printed_pair (line : str) : str :=
  print2 (token_of line) (label_of line).

Definition nonempty (s : str) : bool :=
  match s with [] => false | _ => true end.

Definition pairs_written (out : list str) : list str := filter nonempty out.

Fixpoint output_from (counter : Z) (lines : list str) : list str :=
  match lines with
  | [] => []
  | line :: rest => emitted counter line ++ output_from (next_counter counter line) rest
  end.

End WithTokenizer.

(** A tokenizer for the examples: a token made of the control characters
    U+0080..U+009F only has no subwords, any other token is cut into pieces
    of at most three code points. *)
Definition is_c1_control (c : char) : bool := ((128 <=? c) && (c <=? 159))%N.

Fixpoint chunks3 (fuel : nat) (s : str) : list str :=
  match fuel, s with
  | _, [] => []
  | O, _ => [s]
  | S f, a :: b :: c :: r => [a; b; c] :: chunks3 f r
  | S _, _ => [s]
  end.

Definition toy_tokenize (token : str) : list str :=
  if forallb is_c1_control token then [] else chunks3 (List.length token) token.

Definition of_string (s : string) : str :=
  map N_of_ascii (list_ascii_of_string s).

(** A line as the file iterator yields it: the text and its newline. *)
Definition newline : char := 10%N.
Definition of_line (s : string) : str := of_string s ++ [newline].

Definition sample_lines : list str :=
  [of_line "EU B-ORG"; of_line "rejects  NNS O"; of_line "German B-MISC";
   of_line ""; of_line "call O"].

(** A line whose token is the single control character U+0096. *)
Definition control_line : str := [150; 32; 79; 10]%N.

End Preprocess.

(* ===================================================================== *)
(** * Part II: [squad/run_squad.py]                                       *)
(* ===================================================================== *)

Module Squad.

Local Open Scope string_scope.

(** ** Python built-ins on [str] that the driver uses

    A [str] of the driver (a path, an option value) is a [string]. *)

(** [s.split(sep)] for a one-character separator: empty fields are kept and
    the result is never empty. *)
Fixpoint split_on (sep : ascii) (s : string) : list string :=
  match s with
  | EmptyString => [EmptyString]
  | String c r =>
      if Ascii.eqb c sep then EmptyString :: split_on sep r
      else match split_on sep r with
           | [] => [String c EmptyString]
           | f :: fs => String c f :: fs
           end
  end.

Definition nonempty_str (s : string) : bool :=
  match s with EmptyString => false | _ => true end.

(** Truth value of an option that is [None] or a [str]. *)
Definition truthy (o : option string) : bool :=
  match o with None => false | Some s => nonempty_str s end.

(** [str(i)] and ["{}".format(i)] for an [int]. *)
Definition str_of_int (i : Z) : string := NilEmpty.string_of_int (Z.to_int i).

(** [s.lower()] on the code points below 256. *)
Definition lower_char (c : ascii) : ascii :=
  let n := N_of_ascii c in
  if ((65 <=? n) && (n <=? 90) || (192 <=? n) && (n <=? 222) && negb (n =? 215))%N
  then ascii_of_N (n + 32) else c.

Fixpoint lower (s : string) : string :=
  match s with
  | EmptyString => EmptyString
  | String c r => String (lower_char c) (lower r)
  end.

(** [x in [s1, ..., sn]] *)
Definition str_in (x : string) (l : list string) : bool := existsb (String.eqb x) l.

(** [int(s)] for a [str]: surrounding whitespace, an optional sign, decimal
    digits with single underscores between them; [None] is [ValueError].
    The whitespace [int] skips is that of C ([\t] to [\r] and the space),
    and U+0085 and U+00A0, which the conversion replaces by spaces first;
    U+001C to U+001F, whitespace for [str.isspace], are not skipped. *)
Definition isspace_ascii (c : ascii) : bool :=
  let n := N_of_ascii c in
  ((9 <=? n) && (n <=? 13) || (n =? 32) || (n =? 133) || (n =? 160))%N.

Definition digit_of (c : ascii) : option Z :=
  let n := N_of_ascii c in
  if ((48 <=? n) && (n <=? 57))%N then Some (Z.of_N n - 48) else None.

Fixpoint digits_value (acc : Z) (after_digit : bool) (s : list ascii) : option Z :=
  match s with
  | [] => if after_digit then Some acc else None
  | c :: r =>
      match digit_of c with
      | Some d => digits_value (10 * acc + d) true r
      | None =>
          if Ascii.eqb c "_" && after_digit then digits_value acc false r
          else None
      end
  end.

Fixpoint lstrip_ascii (s : list ascii) : list ascii :=
  match s with
  | c :: r => if isspace_ascii c then lstrip_ascii r else s
  | [] => []
  end.

Definition strip_ascii (s : list ascii) : list ascii :=
  rev (lstrip_ascii (rev (lstrip_ascii s))).

Definition py_int (s : string) : option Z :=
  match strip_ascii (list_ascii_of_string s) with
  | c :: r =>
      if Ascii.eqb c "-" then option_map Z.opp (digits_value 0 false r)
      else if Ascii.eqb c "+" then digits_value 0 false r
      else digits_value 0 false (c :: r)
  | [] => None
  end.

(** [os.path.join(a, b)] and [os.path.dirname(p)] of [posixpath]. *)
Definition starts_with_slash (s : string) : bool :=
  match s with String c _ => Ascii.eqb c "/" | EmptyString => false end.

Definition ends_with_slash (s : string) : bool :=
  match rev (list_ascii_of_string s) with
  | c :: _ => Ascii.eqb c "/"
  | [] => false
  end.

Definition path_join (a b : string) : string :=
  if starts_with_slash b then b
  else if negb (nonempty_str a) || ends_with_slash a then a ++ b
  else a ++ "/" ++ b.

Fixpoint drop_while {A} (p : A -> bool) (l : list A) : list A :=
  match l with
  | x :: r => if p x then drop_while p r else l
  | [] => []
  end.

Definition is_slash (c : ascii) : bool := Ascii.eqb c "/".

Definition dirname (p : string) : string :=
  let head := drop_while (fun c => negb (is_slash c)) (rev (list_ascii_of_string p)) in
  if forallb is_slash head then string_of_list_ascii (rev head)
  else string_of_list_ascii (rev (drop_while is_slash head)).

(** [sorted(l)] on a list of [str]. *)
Fixpoint insert_sorted (x : string) (l : list string) : list string :=
  match l with
  | [] => [x]
  | y :: r => if String.leb x y then x :: l else y :: insert_sorted x r
  end.

Definition sorted (l : list string) : list string :=
  fold_right insert_sorted [] l.

(** [l[i]] on a list, negative indices counting from the end. *)
Definition py_index {A} (l : list A) (i : Z) : option A :=
  let n := Z.of_nat (List.length l) in
  if (0 <=? i)%Z && (i <? n)%Z then nth_error l (Z.to_nat i)
  else if (- n <=? i)%Z && (i <? 0)%Z then nth_error l (Z.to_nat (n + i))
  else None.

(** A [dict] with [str] keys, in insertion order, and [d.update(e)]. *)
Fixpoint dict_set {V} (d : list (string * V)) (k : string) (v : V) : list (string * V) :=
  match d with
  | [] => [(k, v)]
  | (k', v') :: r => if String.eqb k' k then (k', v) :: r else (k', v') :: dict_set r k v
  end.

Definition dict_update {V} (d e : list (string * V)) : list (string * V) :=
  fold_left (fun d kv => dict_set d (fst kv) (snd kv)) e d.

(** ** Parsed arguments

    [arguments.get_parser] is not part of the sources; [args] holds the
    options the driver reads, with the types of the upstream example
    script: path-like options are [str] or [None], counts are [int].
    Options that are only handed on to the library (learning rate, weight
    decay, gradient clipping and the like) are left out. *)
Record args := mkArgs {
  model_type : string;
  model_name_or_path : string;
  output_dir : string;
  data_dir : option string;
  train_file : option string;
  predict_file : option string;
  config_name : option string;
  tokenizer_name : option string;
  cache_dir : option string;
  version_2_with_negative : bool;
  max_seq_length : Z;
  doc_stride : Z;
  max_query_length : Z;
  do_train : bool;
  do_eval : bool;
  evaluate_during_training : bool;
  do_lower_case : bool;
  per_gpu_train_batch_size : Z;
  per_gpu_eval_batch_size : Z;
  gradient_accumulation_steps : Z;
  num_train_epochs : Z;
  max_steps : Z;
  n_best_size : Z;
  max_answer_length : Z;
  verbose_logging : bool;
  lang_id : Z;
  logging_steps : Z;
  save_steps : Z;
  eval_all_checkpoints : bool;
  no_cuda : bool;
  overwrite_output_dir : bool;
  overwrite_cache : bool;
  seed : Z;
  local_rank : Z;
  fp16 : bool;
  server_ip : option string;
  server_port : option string;
  threads : Z;
  uncertainty_model : bool;
  (* set by [main] *)
  n_gpu : Z
}.

(** [args.n_gpu = n] and [args.model_type = t] *)
Definition set_n_gpu (a : args) (n : Z) : args :=
  mkArgs (model_type a) (model_name_or_path a) (output_dir a) (data_dir a)
    (train_file a) (predict_file a) (config_name a) (tokenizer_name a)
    (cache_dir a) (version_2_with_negative a) (max_seq_length a)
    (doc_stride a) (max_query_length a) (do_train a) (do_eval a)
    (evaluate_during_training a) (do_lower_case a)
    (per_gpu_train_batch_size a) (per_gpu_eval_batch_size a)
    (gradient_accumulation_steps a) (num_train_epochs a) (max_steps a)
    (n_best_size a) (max_answer_length a) (verbose_logging a) (lang_id a)
    (logging_steps a) (save_steps a) (eval_all_checkpoints a) (no_cuda a)
    (overwrite_output_dir a) (overwrite_cache a) (seed a) (local_rank a)
    (fp16 a) (server_ip a) (server_port a) (threads a) (uncertainty_model a)
    n.

Definition set_model_type (a : args) (t : string) : args :=
  mkArgs t (model_name_or_path a) (output_dir a) (data_dir a)
    (train_file a) (predict_file a) (config_name a) (tokenizer_name a)
    (cache_dir a) (version_2_with_negative a) (max_seq_length a)
    (doc_stride a) (max_query_length a) (do_train a) (do_eval a)
    (evaluate_during_training a) (do_lower_case a)
    (per_gpu_train_batch_size a) (per_gpu_eval_batch_size a)
    (gradient_accumulation_steps a) (num_train_epochs a) (max_steps a)
    (n_best_size a) (max_answer_length a) (verbose_logging a) (lang_id a)
    (logging_steps a) (save_steps a) (eval_all_checkpoints a) (no_cuda a)
    (overwrite_output_dir a) (overwrite_cache a) (seed a) (local_rank a)
    (fp16 a) (server_ip a) (server_port a) (threads a) (uncertainty_model a)
    (n_gpu a).

(** [args.local_rank in [-1, 0]] *)
Definition first_process (a : args) : bool :=
  ((local_rank a =? -1) || (local_rank a =? 0))%Z.

(** ** Exceptions

    One constructor per place where the driver's own statements raise;
    [class_of] is the Python class of the exception. *)
Inductive exn :=
| OutputDirNotEmpty (dir : string)   (* line 527 *)
| UnpackMismatch (n : nat)           (* line 381: [start_logits, end_logits = output] *)
| ApexMissing                        (* lines 124 and 622 *)
| TfdsMissing                        (* line 472 *)
| PtvsdMissing                       (* line 536 *)
| DivisionByZero (line : nat)        (* [//], [%] and [/] by zero *)
| EmptyPop                           (* line 451: [pop] from an empty list *)
| FeatureIndex (i : Z)               (* line 357: [features[...]] out of range *)
| OutputIndex (len : Z)              (* lines 216 to 220: [outputs[...]] out of range *)
| MissingKey (key : string)          (* lines 222 to 229: a key deleted at line 203 *)
| ListdirFailed (dir : string)       (* line 523: [os.listdir] on a path that is no directory *)
| BadArguments (line : nat).         (* lines 107 and 226: a call no library accepts *)

Inductive py_class :=
| ValueError | ImportError | ZeroDivisionError | IndexError | KeyError | OSError
| TypeError.

Definition class_of (e : exn) : py_class :=
  match e with
  | OutputDirNotEmpty _ => ValueError
  | UnpackMismatch _ => ValueError
  | ApexMissing => ImportError
  | TfdsMissing => ImportError
  | PtvsdMissing => ImportError
  | DivisionByZero _ => ZeroDivisionError
  | EmptyPop => IndexError
  | FeatureIndex _ => IndexError
  | OutputIndex _ => IndexError
  | MissingKey _ => KeyError
  | ListdirFailed _ => OSError
  | BadArguments _ => TypeError
  end.

(** ** The trace

    A [Call] is a call into the library, the framework or the operating
    system that the driver makes for its effect or its result; a [Probe] is
    a question whose answer the driver branches on, with the answer.
    Calls to [logger] and the progress bars, arithmetic on tensors and
    reads of their fields ([loss.mean()], [loss.item()], [to_list]) are not
    recorded. *)
Inductive answer :=
| ABool (b : bool)
| AInt (i : Z)
| AList (l : list string)
| AError.

Inductive event :=
| Call (fn : string) (arguments : list string)
| Probe (fn : string) (arguments : list string) (a : answer).

Definition trace := list event.

Definition is_call (e : event) : bool :=
  match e with Call _ _ => true | Probe _ _ _ => false end.

(** The calls of a trace, without the probes. *)
Definition calls (t : trace) : trace := filter is_call t.

(** ** Library values

    Objects of the library are opaque to the driver and are represented by
    handles. *)
Definition handle := N.
Definition examples := handle.
Definition dataset := handle.
Definition feature := handle.
Definition tensor := handle.
Definition logits := handle.
Definition predictions := handle.
Definition metric := handle.

(** [SquadResult(unique_id, start_logits, end_logits, ...)] *)
Record squad_result := mkSquadResult {
  unique_id : Z;
  start_logits : logits;
  end_logits : logits;
  start_top_index : option logits;
  end_top_index : option logits;
  cls_logits : option logits
}.

(** ** The world

    Everything outside the repository: the file system, the installed
    packages, the devices, and the library's functions.  Each answer may
    depend on the trace so far, which stands for the state of the outside
    at the time of the question.  Library calls are taken to return,
    but for the two whose arguments are of a type that the library refuses
    whatever the world is (lines 107 and 226); imports may fail. *)
Record world := mkWorld {
  os_path_exists : trace -> string -> bool;
  os_path_isfile : trace -> string -> bool;
  os_listdir : trace -> string -> option (list string);
  glob_glob : trace -> string -> list string;
  importable : trace -> string -> bool;
  cuda_is_available : trace -> bool;
  cuda_device_count : trace -> Z;
  dist_get_rank : trace -> Z;
  hasattr : trace -> string -> string -> bool;
  isinstance_DataParallel : trace -> bool;
  (* datasets *)
  torch_load_cached : trace -> string -> list feature * dataset * examples;
  tfds_examples : trace -> bool -> examples;
  get_dev_examples : trace -> bool -> option string -> option string -> examples;
  get_train_examples : trace -> bool -> option string -> option string -> examples;
  squad_convert_examples_to_features :
    trace -> examples -> Z -> Z -> Z -> bool -> Z -> list feature * dataset;
  len_dataset : dataset -> Z;
  len_train_dataloader : trace -> dataset -> Z -> nat;
  eval_batches : trace -> dataset -> Z -> list (list Z);
  (* the model *)
  model_forward : trace -> list tensor;
  to_list_row : tensor -> nat -> logits;
  feature_unique_id : feature -> Z;
  start_n_top : trace -> Z;
  end_n_top : trace -> Z;
  (* decoding and scoring *)
  compute_predictions_log_probs :
    trace -> examples -> list feature -> list squad_result -> Z -> Z ->
    string -> string -> option string -> Z -> Z -> bool -> bool -> predictions;
  compute_predictions_logits :
    trace -> examples -> list feature -> list squad_result -> Z -> Z -> bool ->
    string -> string -> option string -> bool -> bool -> predictions;
  squad_evaluate : trace -> examples -> predictions -> list (string * metric)
}.

(** ** The driver's monad: a trace that grows, and exceptions *)
Inductive result (A : Type) :=
| Ok (a : A)
| Raise (e : exn).
Arguments Ok {A} a.
Arguments Raise {A} e.

Definition M (A : Type) : Type := trace -> result A * trace.

Definition ret {A} (a : A) : M A := fun t => (Ok a, t).

Definition bind {A B} (m : M A) (f : A -> M B) : M B :=
  fun t => match m t with
           | (Ok a, t') => f a t'
           | (Raise e, t') => (Raise e, t')
           end.

Definition raise {A} (e : exn) : M A := fun t => (Raise e, t).

(** A call made for its effect. *)
Definition call (fn : string) (arguments : list string) : M unit :=
  fun t => (Ok tt, (t ++ [Call fn arguments])%list).

(** A call whose result is a library value: the world picks it at the
    current trace. *)
Definition call_for {A} (fn : string) (arguments : list string)
    (value : trace -> A) : M A :=
  fun t => (Ok (value t), (t ++ [Call fn arguments])%list).

(** An attribute of a library object, read where the trace stands. *)
Definition read {A} (value : trace -> A) : M A := fun t => (Ok (value t), t).

(** A question the driver branches on. *)
Definition probe {A} (fn : string) (arguments : list string)
    (value : trace -> A) (show : A -> answer) : M A :=
  fun t => (Ok (value t), (t ++ [Probe fn arguments (show (value t))])%list).

Declare Scope driver_scope.
Delimit Scope driver_scope with driver.
Notation "x <- m ;; k" := (bind m (fun x => k))
  (at level 61, m at next level, right associativity) : driver_scope.
Notation "' pat <- m ;; k" := (bind m (fun x => match x with pat => k end))
  (at level 61, pat pattern, m at next level, right associativity) : driver_scope.
Notation "m ;; k" := (bind m (fun _ => k))
  (at level 61, right associativity) : driver_scope.
Local Open Scope driver_scope.

(** [if c: m] *)
Definition when (c : bool) (m : M unit) : M unit := if c then m else ret tt.

Definition show_list_opt (o : option (list string)) : answer :=
  match o with Some l => AList l | None => AError end.

Definition show_opt (o : option string) : string :=
  match o with Some s => s | None => "None" end.

Definition show_bool (b : bool) : string := if b then "True" else "False".

Section Driver.

Variable W : world.

(** ** [set_seed], lines 62 to 67 *)
Definition set_seed (a : args) : M unit :=
  call "random.seed" [str_of_int (seed a)] ;;
  call "np.random.seed" [str_of_int (seed a)] ;;
  call "torch.manual_seed" [str_of_int (seed a)] ;;
  when (n_gpu a >? 0)%Z (call "torch.cuda.manual_seed_all" [str_of_int (seed a)]).

(** ** [load_and_cache_examples], lines 440 to 507 *)

(** [args.data_dir if args.data_dir else "."] *)
Definition input_dir (a : args) : string :=
  match data_dir a with
  | Some d => if nonempty_str d then d else "."
  | None => "."
  end.

(** Lines 447 to 454; [None] when [pop] finds the list empty. *)
Definition cached_features_file (a : args) (evaluate : bool) : option string :=
  match rev (filter nonempty_str (split_on "/" (model_name_or_path a))) with
  | [] => None
  | name :: _ =>
      Some (path_join (input_dir a)
              ("cached_" ++ (if evaluate then "dev" else "train") ++ "_"
               ++ name ++ "_" ++ str_of_int (max_seq_length a)))
  end.

(** The function returns [dataset, examples, features] when
    [output_examples] is set and [dataset] alone otherwise; the model
    returns the three and the caller takes what the source would have
    given it. *)
Definition load_and_cache_examples (a : args) (evaluate output_examples : bool)
  : M (dataset * examples * list feature) :=
  when (negb (first_process a) && negb evaluate)
       (call "torch.distributed.barrier" []) ;;
  match cached_features_file a evaluate with
  | None => raise EmptyPop
  | Some cached =>
      found <- probe "os.path.exists" [cached]
                 (fun t => os_path_exists W t cached) ABool ;;
      '(features, dataset, examples) <-
        (if found && negb (overwrite_cache a)
         then call_for "torch.load" [cached] (fun t => torch_load_cached W t cached)
         else
           examples <-
             (if negb (truthy (data_dir a))
                 && ((evaluate && negb (truthy (predict_file a)))
                     || (negb evaluate && negb (truthy (train_file a))))
              then
                ok <- probe "import" ["tensorflow_datasets"]
                        (fun t => importable W t "tensorflow_datasets") ABool ;;
                if ok
                then call "tfds.load" ["squad"] ;;
                     call "SquadV1Processor" [] ;;
                     call_for "processor.get_examples_from_dataset"
                       ["tfds_examples"; show_bool evaluate]
                       (fun t => tfds_examples W t evaluate)
                else raise TfdsMissing
              else
                call (if version_2_with_negative a
                      then "SquadV2Processor" else "SquadV1Processor") [] ;;
                if evaluate
                then call_for "processor.get_dev_examples"
                       [show_opt (data_dir a); show_opt (predict_file a)]
                       (fun t => get_dev_examples W t (version_2_with_negative a)
                                   (data_dir a) (predict_file a))
                else call_for "processor.get_train_examples"
                       [show_opt (data_dir a); show_opt (train_file a)]
                       (fun t => get_train_examples W t (version_2_with_negative a)
                                   (data_dir a) (train_file a))) ;;
           '(features, dataset) <-
             call_for "squad_convert_examples_to_features"
               ["examples"; "tokenizer"; str_of_int (max_seq_length a);
                str_of_int (doc_stride a); str_of_int (max_query_length a);
                show_bool (negb evaluate); "pt"; str_of_int (threads a)]
               (fun t => squad_convert_examples_to_features W t examples
                           (max_seq_length a) (doc_stride a) (max_query_length a)
                           (negb evaluate) (threads a)) ;;
           when (first_process a)
                (call "torch.save" ["features, dataset, examples"; cached]) ;;
           ret (features, dataset, examples)) ;;
      when ((local_rank a =? 0)%Z && negb evaluate)
           (call "torch.distributed.barrier" []) ;;
      ret (dataset, examples, features)
  end.

(** ** [evaluate], lines 304 to 437 *)

(** The keys of [inputs] for one evaluation batch, lines 333 to 351;
    [langs] tells whether the [langs] entry is added. *)
Definition eval_input_keys (a : args) (langs : bool) : list string :=
  let k0 := ["input_ids"; "attention_mask"; "token_type_ids"] in
  let k1 := if str_in (model_type a) ["xlm"; "roberta"; "distilbert"; "camembert"]
            then filter (fun k => negb (String.eqb k "token_type_ids")) k0
            else k0 in
  if str_in (model_type a) ["xlnet"; "xlm"]
  then ((k1 ++ ["cls_index"; "p_mask"]) ++ (if langs then ["langs"] else []))%list
  else k1.

(** [hasattr(model, "config") and hasattr(model.config, "lang2id")] *)
Definition has_lang2id : M bool :=
  hc <- probe "hasattr" ["model"; "config"]
          (fun t => hasattr W t "model" "config") ABool ;;
  if hc
  then probe "hasattr" ["model.config"; "lang2id"]
         (fun t => hasattr W t "model.config" "lang2id") ABool
  else ret false.

(** Lines 360 to 382 for the item [i] of a batch: [output] is
    [[to_list(output[i]) for output in outputs]], and the result is built
    by the library's constructor [SquadResult]. *)
Definition squad_result_of (id : Z) (output : list logits) : M squad_result :=
  match output with
  | s :: si :: e :: ei :: c :: _ =>
      (* len(output) >= 5 *)
      call "SquadResult"
        ["unique_id"; "start_logits"; "end_logits"; "start_top_index";
         "end_top_index"; "cls_logits"] ;;
      ret (mkSquadResult id s e (Some si) (Some ei) (Some c))
  | [s; e] =>
      call "SquadResult" ["unique_id"; "start_logits"; "end_logits"] ;;
      ret (mkSquadResult id s e None None None)
  | _ => raise (UnpackMismatch (List.length output))
  end.

(** [for i, feature_index in enumerate(feature_indices)], lines 355 to 384 *)
Fixpoint eval_items (features : list feature) (outputs : list tensor)
    (i : nat) (feature_indices : list Z) (all_results : list squad_result)
  : M (list squad_result) :=
  match feature_indices with
  | [] => ret all_results
  | feature_index :: rest =>
      match py_index features feature_index with
      | None => raise (FeatureIndex feature_index)
      | Some eval_feature =>
          let id := feature_unique_id W eval_feature in
          let output := map (fun o => to_list_row W o i) outputs in
          result <- squad_result_of id output ;;
          eval_items features outputs (S i) rest (all_results ++ [result])%list
      end
  end.

(** [for batch in tqdm(eval_dataloader)], lines 328 to 384; a batch is
    given by its [feature_indices]. *)
Fixpoint eval_loop (a : args) (features : list feature)
    (batches : list (list Z)) (all_results : list squad_result)
  : M (list squad_result) :=
  match batches with
  | [] => ret all_results
  | feature_indices :: rest =>
      call "model.eval" [] ;;
      call "batch.to" ["args.device"] ;;
      langs <- (if str_in (model_type a) ["xlnet"; "xlm"]
                then has_lang2id else ret false) ;;
      outputs <- call_for "model" (eval_input_keys a langs) (model_forward W) ;;
      all_results' <- eval_items features outputs 0 feature_indices all_results ;;
      eval_loop a features rest all_results'
  end.

Definition output_prediction_file (a : args) (prefix : string) : string :=
  path_join (output_dir a) ("predictions_" ++ prefix ++ ".json").
Definition output_nbest_file (a : args) (prefix : string) : string :=
  path_join (output_dir a) ("nbest_predictions_" ++ prefix ++ ".json").
Definition output_null_log_odds_file (a : args) (prefix : string) : option string :=
  if version_2_with_negative a
  then Some (path_join (output_dir a) ("null_odds_" ++ prefix ++ ".json"))
  else None.

(** Lines 398 to 433: the library's decoder for the model type. *)
Definition compute_predictions (a : args) (prefix : string)
    (examples : examples) (features : list feature)
    (all_results : list squad_result) : M predictions :=
  if str_in (model_type a) ["xlnet"; "xlm"]
  then
    (* model.config.start_n_top if hasattr(model, "config")
       else model.module.config.start_n_top, and the same for end_n_top *)
    probe "hasattr" ["model"; "config"]
      (fun t => hasattr W t "model" "config") ABool ;;
    start <- read (start_n_top W) ;;
    probe "hasattr" ["model"; "config"]
      (fun t => hasattr W t "model" "config") ABool ;;
    end_ <- read (end_n_top W) ;;
    call_for "compute_predictions_log_probs"
      ["examples"; "features"; "all_results"; str_of_int (n_best_size a);
       str_of_int (max_answer_length a); output_prediction_file a prefix;
       output_nbest_file a prefix; show_opt (output_null_log_odds_file a prefix);
       str_of_int start; str_of_int end_;
       show_bool (version_2_with_negative a); "tokenizer";
       show_bool (verbose_logging a)]
      (fun t => compute_predictions_log_probs W t examples features all_results
                  (n_best_size a) (max_answer_length a)
                  (output_prediction_file a prefix) (output_nbest_file a prefix)
                  (output_null_log_odds_file a prefix) start end_
                  (version_2_with_negative a) (verbose_logging a))
  else
    call_for "compute_predictions_logits"
      ["examples"; "features"; "all_results"; str_of_int (n_best_size a);
       str_of_int (max_answer_length a); show_bool (do_lower_case a);
       output_prediction_file a prefix; output_nbest_file a prefix;
       show_opt (output_null_log_odds_file a prefix);
       show_bool (verbose_logging a); show_bool (version_2_with_negative a);
       "args.null_score_diff_threshold"; "tokenizer"]
      (fun t => compute_predictions_logits W t examples features all_results
                  (n_best_size a) (max_answer_length a) (do_lower_case a)
                  (output_prediction_file a prefix) (output_nbest_file a prefix)
                  (output_null_log_odds_file a prefix) (verbose_logging a)
                  (version_2_with_negative a)).

(** The predictions [evaluate] obtains at the trace [t], as the library
    returns them for the model type. *)
Definition decoded (a : args) (prefix : string) (ex : examples)
    (fs : list feature) (rs : list squad_result) (t : trace) : predictions :=
  if str_in (model_type a) ["xlnet"; "xlm"]
  then
    let p := Probe "hasattr" ["model"; "config"] (ABool (hasattr W t "model" "config")) in
    let t1 := (t ++ [p])%list in
    let p' := Probe "hasattr" ["model"; "config"] (ABool (hasattr W t1 "model" "config")) in
    let t2 := (t1 ++ [p'])%list in
    compute_predictions_log_probs W t2 ex fs rs (n_best_size a) (max_answer_length a)
      (output_prediction_file a prefix) (output_nbest_file a prefix)
      (output_null_log_odds_file a prefix) (start_n_top W t1) (end_n_top W t2)
      (version_2_with_negative a) (verbose_logging a)
  else
    compute_predictions_logits W t ex fs rs (n_best_size a) (max_answer_length a)
      (do_lower_case a) (output_prediction_file a prefix) (output_nbest_file a prefix)
      (output_null_log_odds_file a prefix) (verbose_logging a)
      (version_2_with_negative a).

Definition eval_batch_size (a : args) : Z :=
  (per_gpu_eval_batch_size a * Z.max 1 (n_gpu a))%Z.

(** Lines 305 to 386: load the evaluation set and run the model over it. *)
Definition collect_results (a : args)
  : M (dataset * examples * list feature * list squad_result) :=
  '(dataset, examples, features) <- load_and_cache_examples a true true ;;
  there <- probe "os.path.exists" [output_dir a]
             (fun t => os_path_exists W t (output_dir a)) ABool ;;
  when (negb there && first_process a) (call "os.makedirs" [output_dir a]) ;;
  call "SequentialSampler" ["dataset"] ;;
  batches <- call_for "DataLoader"
               ["dataset"; "eval_sampler"; str_of_int (eval_batch_size a)]
               (fun t => eval_batches W t dataset (eval_batch_size a)) ;;
  (* multi-gpu evaluate *)
  (if (n_gpu a >? 1)%Z
   then wrapped <- probe "isinstance" ["model"; "torch.nn.DataParallel"]
                     (isinstance_DataParallel W) ABool ;;
        when (negb wrapped) (call "torch.nn.DataParallel" ["model"])
   else ret tt) ;;
  call "timeit.default_timer" [] ;;
  all_results <- eval_loop a features batches [] ;;
  call "timeit.default_timer" [] ;;
  ret (dataset, examples, features, all_results).

Definition evaluate (a : args) (prefix : string) : M (list (string * metric)) :=
  '(dataset, examples, features, all_results) <- collect_results a ;;
  (* line 387: evalTime / len(dataset) *)
  (if (len_dataset W dataset =? 0)%Z then raise (DivisionByZero 387) else ret tt) ;;
  (* Compute predictions *)
  predictions <- compute_predictions a prefix examples features all_results ;;
  (* Compute the F1 and exact scores. *)
  call_for "squad_evaluate" ["examples"; "predictions"]
    (fun t => squad_evaluate W t examples predictions).

(** ** [train], lines 77 to 301 *)

(** The counters of the training loop.  The loss sums are floating-point
    numbers that no branch looks at; they are not modelled. *)
Record counters := mkCounters {
  global_step : Z;
  steps_trained_in_current_epoch : Z
}.

(** [os.path.join(args.output_dir, "checkpoint-{}".format(global_step))] *)
Definition checkpoint_dir (a : args) (step : Z) : string :=
  path_join (output_dir a) ("checkpoint-" ++ str_of_int step).

(** What lines 280 to 288 write into the checkpoint directory [dir];
    [wrapped] is [hasattr(model, "module")]. *)
Definition checkpoint_writes (dir : string) (wrapped : bool) : trace :=
  [ Probe "hasattr" ["model"; "module"] (ABool wrapped);
    Call (if wrapped then "model.module.save_pretrained" else "model.save_pretrained") [dir];
    Call "tokenizer.save_pretrained" [dir];
    Call "torch.save" ["args"; path_join dir "training_args.bin"];
    Call "torch.save" ["optimizer.state_dict()"; path_join dir "optimizer.pt"];
    Call "torch.save" ["scheduler.state_dict()"; path_join dir "scheduler.pt"] ].

(** Lines 276 to 289. *)
Definition save_checkpoint (a : args) (step : Z) : M unit :=
  let dir := checkpoint_dir a step in
  there <- probe "os.path.exists" [dir] (fun t => os_path_exists W t dir) ABool ;;
  when (negb there) (call "os.makedirs" [dir]) ;;
  (* Take care of distributed/parallel training *)
  wrapped <- probe "hasattr" ["model"; "module"]
               (fun t => hasattr W t "model" "module") ABool ;;
  call (if wrapped then "model.module.save_pretrained" else "model.save_pretrained") [dir] ;;
  call "tokenizer.save_pretrained" [dir] ;;
  call "torch.save" ["args"; path_join dir "training_args.bin"] ;;
  call "torch.save" ["optimizer.state_dict()"; path_join dir "optimizer.pt"] ;;
  call "torch.save" ["scheduler.state_dict()"; path_join dir "scheduler.pt"].

(** The keys of [inputs] for one training batch, lines 194 to 212. *)
Definition train_input_keys (a : args) (langs : bool) : list string :=
  let k0 := ["input_ids"; "attention_mask"; "token_type_ids";
             "start_positions"; "end_positions"] in
  let k1 := if str_in (model_type a) ["xlm"; "roberta"; "distilbert"; "camembert"]
            then filter (fun k => negb (String.eqb k "token_type_ids")) k0
            else k0 in
  if str_in (model_type a) ["xlnet"; "xlm"]
  then ((k1 ++ ["cls_index"; "p_mask"])
        ++ (if version_2_with_negative a then ["is_impossible"] else [])
        ++ (if langs then ["langs"] else []))%list
  else k1.

(** Lines 217 to 234, entered when [uncertainty_model] is true: the
    statements index [outputs] up to [max(3, len(outputs)-1)] and read
    [inputs['token_type_ids']]; line 226 then hands [torch.stack] two
    tensors and [dim=0] where it takes a sequence of tensors and [dim], which
    is a [TypeError], so that the debugger of line 233 is never reached. *)
Definition uncertainty_block (keys : list string) (outputs : list tensor) : M unit :=
  if (List.length outputs <? 4)%nat
  then raise (OutputIndex (Z.of_nat (List.length outputs)))
  else if negb (str_in "token_type_ids" keys)
  then raise (MissingKey "token_type_ids")
  else raise (BadArguments 226).

(** [for key, value in results.items(): tb_writer.add_scalar(...)] *)
Fixpoint add_eval_scalars (results : list (string * metric)) (step : Z) : M unit :=
  match results with
  | [] => ret tt
  | (key, _) :: rest =>
      call "tb_writer.add_scalar" ["eval_" ++ key; "value"; str_of_int step] ;;
      add_eval_scalars rest step
  end.

(** Lines 263 to 272, with [step] the value of [global_step] after the
    update. *)
Definition log_metrics (a : args) (step : Z) : M unit :=
  if first_process a && (logging_steps a >? 0)%Z
     && (step mod logging_steps a =? 0)%Z
  then
    (* Only evaluate when single GPU otherwise metrics may not average well *)
    (if (local_rank a =? -1)%Z && evaluate_during_training a
     then results <- evaluate a "" ;; add_eval_scalars results step
     else ret tt) ;;
    call "scheduler.get_lr" [] ;;
    call "tb_writer.add_scalar" ["lr"; "scheduler.get_lr()[0]"; str_of_int step] ;;
    call "tb_writer.add_scalar"
      ["loss"; "(tr_loss - logging_loss) / args.logging_steps"; str_of_int step]
  else ret tt.

(** Lines 252 to 289: the optimizer update that closes an accumulation
    window, and what follows it. *)
Definition optimizer_update (a : args) (c : counters) : M counters :=
  call "torch.nn.utils.clip_grad_norm_"
    [if fp16 a then "amp.master_params(optimizer)" else "model.parameters()"] ;;
  call "optimizer.step" [] ;;
  call "scheduler.step" [] ;;
  call "model.zero_grad" [] ;;
  let step := (global_step c + 1)%Z in
  log_metrics a step ;;
  (* Save model checkpoint *)
  when (first_process a && (save_steps a >? 0)%Z && (step mod save_steps a =? 0)%Z)
       (save_checkpoint a step) ;;
  ret (mkCounters step (steps_trained_in_current_epoch c)).

(** Lines 191 to 289: one batch that is not skipped.  [uncertainty] is the
    truth value of [uncertainty_model] at line 217. *)
Definition train_batch (a : args) (uncertainty : bool) (step : Z) (c : counters)
  : M counters :=
  call "model.train" [] ;;
  call "batch.to" ["args.device"] ;;
  langs <- (if str_in (model_type a) ["xlnet"; "xlm"]
            then has_lang2id else ret false) ;;
  outputs <- call_for "model" (train_input_keys a langs) (model_forward W) ;;
  (* loss = outputs[0] *)
  match outputs with
  | [] => raise (OutputIndex 0)
  | _ :: _ =>
      (if uncertainty
       then uncertainty_block (train_input_keys a langs) outputs
       else ret tt) ;;
      (if fp16 a
       then call "amp.scale_loss" ["loss"; "optimizer"] ;;
            call "scaled_loss.backward" []
       else call "loss.backward" []) ;;
      if (gradient_accumulation_steps a =? 0)%Z then raise (DivisionByZero 252)
      else if ((step + 1) mod gradient_accumulation_steps a =? 0)%Z
      then optimizer_update a c
      else ret c
  end.

(** [args.max_steps > 0 and global_step > args.max_steps] *)
Definition past_max_steps (a : args) (c : counters) : bool :=
  ((max_steps a >? 0) && (global_step c >? max_steps a))%Z.

(** [for step, batch in enumerate(epoch_iterator)], lines 184 to 293 *)
Fixpoint epoch_loop (a : args) (uncertainty : bool) (steps : list Z) (c : counters)
  : M counters :=
  match steps with
  | [] => ret c
  | step :: rest =>
      (* Skip past any already trained steps if resuming training *)
      if (steps_trained_in_current_epoch c >? 0)%Z
      then epoch_loop a uncertainty rest
             (mkCounters (global_step c) (steps_trained_in_current_epoch c - 1))
      else
        c' <- train_batch a uncertainty step c ;;
        if past_max_steps a c' then ret c'
        else epoch_loop a uncertainty rest c'
  end.

(** [for _ in train_iterator], lines 182 to 296, for [epochs] epochs of
    [steps] batches. *)
Fixpoint epochs_loop (a : args) (uncertainty : bool) (epochs : nat)
    (steps : list Z) (c : counters) : M counters :=
  match epochs with
  | O => ret c
  | S epochs' =>
      c' <- epoch_loop a uncertainty steps c ;;
      if past_max_steps a c' then ret c'
      else epochs_loop a uncertainty epochs' steps c'
  end.

(** [0, 1, ..., n-1] *)
Definition range (n : nat) : list Z := map Z.of_nat (seq 0 n).

(** Lines 155 to 172: where the counters start.  [batches] is
    [len(train_dataloader)]. *)
Definition resume (a : args) (batches : Z) : M (counters * Z) :=
  there <- probe "os.path.exists" [model_name_or_path a]
             (fun t => os_path_exists W t (model_name_or_path a)) ABool ;;
  if there
  then
    let checkpoint_suffix :=
      hd "" (split_on "/" (last (split_on "-" (model_name_or_path a)) "")) in
    match py_int checkpoint_suffix with
    | Some step =>
        let gas := gradient_accumulation_steps a in
        if (gas =? 0)%Z || (batches / gas =? 0)%Z
        then raise (DivisionByZero 164)
        else ret (mkCounters step (step mod (batches / gas)),
                  (step / (batches / gas))%Z)
    | None =>
        (* except ValueError *)
        ret (mkCounters 1 0, 0%Z)
    end
  else ret (mkCounters 1 0, 0%Z).

Definition train_batch_size (a : args) : Z :=
  (per_gpu_train_batch_size a * Z.max 1 (n_gpu a))%Z.

(** Lines 79 to 180: everything before the loop.  The result holds
    [len(train_dataloader)], the number of epochs, the counters and
    [epochs_trained] as line 155 to 172 leave them, and the truth value of
    [uncertainty_model] after line 133. *)
Definition train_setup (a : args) (train_dataset : dataset) (uncertainty_model : bool)
  : M (nat * Z * counters * Z * bool) :=
  when (first_process a) (call "SummaryWriter" []) ;;
  call (if (local_rank a =? -1)%Z then "RandomSampler" else "DistributedSampler")
    ["train_dataset"] ;;
  n <- call_for "DataLoader"
         ["train_dataset"; "train_sampler"; str_of_int (train_batch_size a)]
         (fun t => len_train_dataloader W t train_dataset (train_batch_size a)) ;;
  let batches := Z.of_nat n in
  let gas := gradient_accumulation_steps a in
  '(t_total, epochs) <-
    (if (max_steps a >? 0)%Z
     then if (gas =? 0)%Z || (batches / gas =? 0)%Z
          then raise (DivisionByZero 88)
          else ret (max_steps a, (max_steps a / (batches / gas) + 1)%Z)
     else if (gas =? 0)%Z then raise (DivisionByZero 90)
          else ret ((batches / gas * num_train_epochs a)%Z, num_train_epochs a)) ;;
  (* Prepare optimizer and schedule (linear warmup and decay) *)
  call "AdamW" ["optimizer_grouped_parameters"] ;;
  call "get_linear_schedule_with_warmup" ["optimizer"; str_of_int t_total] ;;
  (* line 107 hands [torch.optim.Adam] the method [parameters] itself, not
     the parameters it returns: a [TypeError] *)
  (if uncertainty_model
   then call "torch.optim.Adam" ["uncertainty_model.parameters"] ;;
        raise (BadArguments 107)
   else ret tt) ;;
  (* Check if saved optimizer or scheduler states exist *)
  let optimizer_pt := path_join (model_name_or_path a) "optimizer.pt" in
  let scheduler_pt := path_join (model_name_or_path a) "scheduler.pt" in
  let uncertainty_pt := path_join (model_name_or_path a) "uncertainty_optimizer.pt" in
  saved <- (o <- probe "os.path.isfile" [optimizer_pt]
                   (fun t => os_path_isfile W t optimizer_pt) ABool ;;
            if o then probe "os.path.isfile" [scheduler_pt]
                        (fun t => os_path_isfile W t scheduler_pt) ABool
            else ret false) ;;
  when saved
    (call "torch.load" [optimizer_pt] ;;
     call "optimizer.load_state_dict" [] ;;
     call "torch.load" [scheduler_pt] ;;
     call "scheduler.load_state_dict" []) ;;
  (if uncertainty_model
   then u <- probe "os.path.isfile" [uncertainty_pt]
               (fun t => os_path_isfile W t uncertainty_pt) ABool ;;
        when u (call "torch.load" [uncertainty_pt] ;;
                call "uncertainty_model.load_state_dict" [])
   else ret tt) ;;
  (if fp16 a
   then ok <- probe "import" ["apex"] (fun t => importable W t "apex") ABool ;;
        if ok
        then call "amp.initialize" ["model"; "optimizer"] ;;
             when uncertainty_model
               (call "amp.initialize" ["uncertainty_model"; "uncertainty_optimizer"])
        else raise ApexMissing
   else ret tt) ;;
  (* multi-gpu training (should be after apex fp16 initialization) *)
  when (n_gpu a >? 1)%Z
    (call "torch.nn.DataParallel" ["model"] ;;
     call "torch.nn.DataParallel" ["uncertainty_model"]) ;;
  (* line 133 leaves a module object in [uncertainty_model], which is true *)
  let uncertainty := uncertainty_model || (n_gpu a >? 1)%Z in
  (* Distributed training (should be after apex fp16 initialization) *)
  when (negb (local_rank a =? -1)%Z)
    (call "torch.nn.parallel.DistributedDataParallel" ["model"; str_of_int (local_rank a)] ;;
     call "torch.distributed.get_world_size" []) ;;
  '(c0, epochs_trained) <- resume a batches ;;
  call "model.zero_grad" [] ;;
  (* Added here for reproductibility *)
  set_seed a ;;
  ret (n, epochs, c0, epochs_trained, uncertainty).

(** [train] returns [global_step, tr_loss / global_step]; the model returns
    [global_step]. *)
Definition train (a : args) (train_dataset : dataset) (uncertainty_model : bool)
  : M Z :=
  '(n, epochs, c0, epochs_trained, uncertainty) <-
     train_setup a train_dataset uncertainty_model ;;
  c <- epochs_loop a uncertainty (Z.to_nat (epochs - epochs_trained)) (range n) c0 ;;
  when (first_process a) (call "tb_writer.close" []) ;;
  (* tr_loss / global_step *)
  if (global_step c =? 0)%Z then raise (DivisionByZero 301)
  else ret (global_step c).

(** ** [main], lines 510 to 686 *)

(** Lines 521 to 531. *)
Definition check_output_dir (a : args) : M unit :=
  there <- probe "os.path.exists" [output_dir a]
             (fun t => os_path_exists W t (output_dir a)) ABool ;;
  if there
  then
    entries <- probe "os.listdir" [output_dir a]
                 (fun t => os_listdir W t (output_dir a)) show_list_opt ;;
    match entries with
    | None => raise (ListdirFailed (output_dir a))
    | Some [] => ret tt
    | Some (_ :: _) =>
        if do_train a && negb (overwrite_output_dir a)
        then raise (OutputDirNotEmpty (output_dir a))
        else ret tt
    end
  else ret tt.

(** Whether the test of lines 521 to 526 holds when [main] is started at
    the trace [t]: the directory exists, has an entry, and training is asked
    for without permission to overwrite. *)
Definition output_dir_in_use (a : args) (t : trace) : bool :=
  let t1 := (t ++ [Call "get_parser" ["MODEL_TYPES"; "ALL_MODELS"];
                   Call "parser.parse_args" []])%list in
  os_path_exists W t1 (output_dir a)
  && match os_listdir W (t1 ++ [Probe "os.path.exists" [output_dir a] (ABool true)])%list
             (output_dir a) with
     | Some (_ :: _) => true
     | _ => false
     end
  && do_train a && negb (overwrite_output_dir a).

(** Lines 533 to 540. *)
Definition attach_debugger (a : args) : M unit :=
  if truthy (server_ip a) && truthy (server_port a)
  then
    ok <- probe "import" ["ptvsd"] (fun t => importable W t "ptvsd") ABool ;;
    if ok
    then call "print" ["Waiting for debugger attach"] ;;
         call "ptvsd.enable_attach" [show_opt (server_ip a); show_opt (server_port a)] ;;
         call "ptvsd.wait_for_attach" []
    else raise PtvsdMissing
  else ret tt.

(** Lines 542 to 551: the value of [args.n_gpu]. *)
Definition setup_devices (a : args) : M Z :=
  if (local_rank a =? -1)%Z || no_cuda a
  then
    available <- probe "torch.cuda.is_available" [] (cuda_is_available W) ABool ;;
    call "torch.device" [if available && negb (no_cuda a) then "cuda" else "cpu"] ;;
    if no_cuda a then ret 0%Z
    else probe "torch.cuda.device_count" [] (cuda_device_count W) AInt
  else
    (* Initializes the distributed backend *)
    call "torch.cuda.set_device" [str_of_int (local_rank a)] ;;
    call "torch.device" ["cuda"; str_of_int (local_rank a)] ;;
    call "torch.distributed.init_process_group" ["nccl"] ;;
    ret 1%Z.

(** Lines 571 to 609. *)
Definition load_pretrained (a : args) : M unit :=
  when (negb (first_process a)) (call "torch.distributed.barrier" []) ;;
  call "AutoConfig.from_pretrained"
    [if truthy (config_name a) then show_opt (config_name a) else model_name_or_path a;
     if truthy (cache_dir a) then show_opt (cache_dir a) else "None";
     show_bool (uncertainty_model a)] ;;
  call "AutoTokenizer.from_pretrained"
    [if truthy (tokenizer_name a) then show_opt (tokenizer_name a) else model_name_or_path a;
     show_bool (do_lower_case a);
     if truthy (cache_dir a) then show_opt (cache_dir a) else "None"] ;;
  call "AutoModelForQuestionAnswering.from_pretrained"
    [model_name_or_path a; "config";
     if truthy (cache_dir a) then show_opt (cache_dir a) else "None"] ;;
  when (uncertainty_model a)
    (call "torch.nn.Linear" ["uncertainty_inp_size"; "uncertainty_inp_size//2"] ;;
     call "torch.nn.Dropout" ["0.1"] ;;
     call "torch.nn.ReLU" [] ;;
     call "torch.nn.Dropout" ["0.1"] ;;
     call "torch.nn.Linear" ["uncertainty_inp_size//2"; "2"] ;;
     call "torch.nn.Sequential" [] ;;
     call "uncertainty_model.to" ["args.device"]) ;;
  when (local_rank a =? 0)%Z (call "torch.distributed.barrier" []) ;;
  call "model.to" ["args.device"].

(** Lines 616 to 622. *)
Definition register_half (a : args) : M unit :=
  if fp16 a
  then ok <- probe "import" ["apex"] (fun t => importable W t "apex") ABool ;;
       if ok then call "apex.amp.register_half_function" ["torch"; "einsum"]
       else raise ApexMissing
  else ret tt.

(** Lines 630 to 652. *)
Definition save_trained (a : args) : M unit :=
  main_process <-
    (if do_train a
     then if (local_rank a =? -1)%Z then ret true
          else r <- probe "torch.distributed.get_rank" [] (dist_get_rank W) AInt ;;
               ret (r =? 0)%Z
     else ret false) ;;
  if main_process
  then
    (* Create output directory if needed *)
    there <- probe "os.path.exists" [output_dir a]
               (fun t => os_path_exists W t (output_dir a)) ABool ;;
    when (negb there && first_process a) (call "os.makedirs" [output_dir a]) ;;
    wrapped <- probe "hasattr" ["model"; "module"]
                 (fun t => hasattr W t "model" "module") ABool ;;
    call (if wrapped then "model.module.save_pretrained" else "model.save_pretrained")
      [output_dir a] ;;
    call "tokenizer.save_pretrained" [output_dir a] ;;
    (* Good practice: save your training arguments together with the trained model *)
    call "torch.save" ["args"; path_join (output_dir a) "training_args.bin"] ;;
    (* Load a trained model and vocabulary that you have fine-tuned *)
    call "AutoModelForQuestionAnswering.from_pretrained" [output_dir a] ;;
    call "AutoTokenizer.from_pretrained" [output_dir a; show_bool (do_lower_case a)] ;;
    call "model.to" ["args.device"] ;;
    when (uncertainty_model a) (call "uncertainty_model.to" ["args.device"])
  else ret tt.

(** The library's constant [WEIGHTS_NAME]. *)
Definition WEIGHTS_NAME : string := "pytorch_model.bin".

(** Lines 657 to 668. *)
Definition checkpoints_to_evaluate (a : args) : M (list string) :=
  if do_train a
  then
    if eval_all_checkpoints a
    then
      found <- probe "glob.glob" [output_dir a ++ "/**/" ++ WEIGHTS_NAME]
                 (fun t => glob_glob W t (output_dir a ++ "/**/" ++ WEIGHTS_NAME)) AList ;;
      ret (map dirname (sorted found))
    else ret [output_dir a]
  else ret [model_name_or_path a].

(** [for checkpoint in checkpoints], lines 672 to 682; [many] is
    [len(checkpoints) > 1]. *)
Fixpoint evaluate_checkpoints (a : args) (many : bool) (checkpoints : list string)
    (results : list (string * metric)) : M (list (string * metric)) :=
  match checkpoints with
  | [] => ret results
  | checkpoint :: rest =>
      (* Reload the model *)
      let step := if many then last (split_on "-" checkpoint) "" else "" in
      call "AutoModelForQuestionAnswering.from_pretrained" [checkpoint] ;;
      call "model.to" ["args.device"] ;;
      (* Evaluate *)
      result <- evaluate a step ;;
      let renamed :=
        dict_update []
          (map (fun kv => (fst kv ++ (if nonempty_str step then "_" ++ step else ""),
                           snd kv)) result) in
      evaluate_checkpoints a many rest (dict_update results renamed)
  end.

Definition main (parsed : args) : M (list (string * metric)) :=
  call "get_parser" ["MODEL_TYPES"; "ALL_MODELS"] ;;
  call "parser.parse_args" [] ;;
  check_output_dir parsed ;;
  (* Setup distant debugging if needed *)
  attach_debugger parsed ;;
  (* Setup CUDA, GPU & distributed training *)
  gpus <- setup_devices parsed ;;
  let a1 := set_n_gpu parsed gpus in
  (* Set seed *)
  set_seed a1 ;;
  (* Load pretrained model and tokenizer *)
  let a := set_model_type a1 (lower (model_type a1)) in
  load_pretrained a ;;
  register_half a ;;
  (* Training *)
  (if do_train a
   then '(train_dataset, _, _) <- load_and_cache_examples a false false ;;
        train a train_dataset (uncertainty_model a) ;;
        ret tt
   else ret tt) ;;
  (* Save the trained model and the tokenizer *)
  save_trained a ;;
  (* Evaluation *)
  if do_eval a && first_process a
  then
    checkpoints <- checkpoints_to_evaluate a ;;
    evaluate_checkpoints a (1 <? List.length checkpoints)%nat checkpoints []
  else ret [].

End Driver.

(** ** Worlds and arguments for the examples *)

Definition event_eqb (e1 e2 : event) : bool :=
  match e1, e2 with
  | Call f1 a1, Call f2 a2 =>
      String.eqb f1 f2 && (List.length a1 =? List.length a2)%nat
      && forallb (fun p => String.eqb (fst p) (snd p)) (combine a1 a2)
  | _, _ => false
  end.

(** A path that the run itself has created. *)
Definition created (t : trace) (p : string) : bool :=
  existsb (fun e =>
    match e with
    | Call "os.makedirs" [q] => String.eqb p q
    | Call "torch.save" [_; q] => String.eqb p q
    | _ => false
    end) t.

(** A machine without GPU and without optional packages.  [present] are
    the paths that exist beforehand, [filled] the directories among them
    that hold an entry; the training set has [train_batches] batches, the
    evaluation set is served in the batches [eval_indices], the model
    returns [outputs] tensors, and [salt] tells the data of one world from
    the data of another. *)
Definition sample_world (present filled : list string) (train_batches : nat)
    (eval_indices : list (list Z)) (outputs : nat) (salt : N) : world :=
  {| os_path_exists := fun t p => str_in p present || created t p;
     os_path_isfile := fun _ _ => false;
     os_listdir := fun _ p =>
       if str_in p present
       then Some (if str_in p filled then ["pytorch_model.bin"] else [])
       else None;
     glob_glob := fun _ _ => [];
     importable := fun _ _ => false;
     cuda_is_available := fun _ => false;
     cuda_device_count := fun _ => 0%Z;
     dist_get_rank := fun _ => 0%Z;
     hasattr := fun _ o x => String.eqb o "model" && String.eqb x "config";
     isinstance_DataParallel := fun _ => false;
     torch_load_cached := fun _ _ => ([1; 2; 3]%N, (10 + salt)%N, (20 + salt)%N);
     tfds_examples := fun _ _ => (21 + salt)%N;
     get_dev_examples := fun _ _ _ _ => (22 + salt)%N;
     get_train_examples := fun _ _ _ _ => (23 + salt)%N;
     squad_convert_examples_to_features :=
       fun _ _ _ _ _ _ _ => ([1; 2; 3]%N, (10 + salt)%N);
     len_dataset := fun _ => 3%Z;
     len_train_dataloader := fun _ _ _ => train_batches;
     eval_batches := fun _ _ _ => eval_indices;
     model_forward := fun _ => map N.of_nat (seq 100 outputs);
     to_list_row := fun o i => (10 * o + N.of_nat i)%N;
     feature_unique_id := fun f => (1000 + Z.of_N f)%Z;
     start_n_top := fun _ => 5%Z;
     end_n_top := fun _ => 5%Z;
     compute_predictions_log_probs :=
       fun _ _ _ _ _ _ _ _ _ _ _ _ _ => (30 + salt)%N;
     compute_predictions_logits :=
       fun _ _ _ _ _ _ _ _ _ _ _ _ => (31 + salt)%N;
     squad_evaluate := fun _ _ p => [("exact", (40 + p)%N); ("f1", (41 + p)%N)] |}.

(** [--model_type bert --model_name_or_path bert-base-uncased
     --data_dir data --train_file train.json --predict_file dev.json
     --output_dir out], on one process, with the given switches. *)
Definition sample_args (train eval_ : bool) (save : Z) : args :=
  {| model_type := "bert";
     model_name_or_path := "bert-base-uncased";
     output_dir := "out";
     data_dir := Some "data";
     train_file := Some "train.json";
     predict_file := Some "dev.json";
     config_name := Some "";
     tokenizer_name := Some "";
     cache_dir := Some "";
     version_2_with_negative := false;
     max_seq_length := 384;
     doc_stride := 128;
     max_query_length := 64;
     do_train := train;
     do_eval := eval_;
     evaluate_during_training := false;
     do_lower_case := true;
     per_gpu_train_batch_size := 8;
     per_gpu_eval_batch_size := 8;
     gradient_accumulation_steps := 1;
     num_train_epochs := 1;
     max_steps := -1;
     n_best_size := 20;
     max_answer_length := 30;
     verbose_logging := false;
     lang_id := 0;
     logging_steps := 500;
     save_steps := save;
     eval_all_checkpoints := false;
     no_cuda := false;
     overwrite_output_dir := false;
     overwrite_cache := false;
     seed := 42;
     local_rank := -1;
     fp16 := false;
     server_ip := Some "";
     server_port := Some "";
     threads := 1;
     uncertainty_model := false;
     n_gpu := 0 |}.

Definition is_update (e : event) : bool := event_eqb e (Call "optimizer.step" []).

(** The events up to the next optimizer update. *)
Fixpoint until_update (t : trace) : trace :=
  match t with
  | [] => []
  | e :: r => if is_update e then [] else e :: until_update r
  end.

(** The parts of a trace that follow each optimizer update. *)
Fixpoint after_updates (t : trace) : list trace :=
  match t with
  | [] => []
  | e :: r => if is_update e then until_update r :: after_updates r
              else after_updates r
  end.

(** Whether a part of a trace writes a model into the directory [dir]. *)
Definition saves_model_to (dir : string) (t : trace) : bool :=
  existsb (event_eqb (Call "model.save_pretrained" [dir])) t.

Definition saves_anything (t : trace) : bool :=
  existsb (fun e =>
    match e with
    | Call fn _ => str_in fn ["model.save_pretrained"; "model.module.save_pretrained";
                              "tokenizer.save_pretrained"; "torch.save"]
    | _ => false
    end) t.

(** A model with two outputs on a machine where nothing has been written
    yet; the same with a model that returns three outputs; the same with
    the evaluation features already cached; the same with other data. *)
Definition world_plain : world := sample_world [] [] 2 [[0; 1]; [2]]%Z 2 0.
Definition world_three_outputs : world := sample_world [] [] 2 [[0; 1]; [2]]%Z 3 0.
Definition world_cached : world :=
  sample_world ["data/cached_dev_bert-base-uncased_384"] [] 2 [[0; 1]; [2]]%Z 2 0.
Definition world_other_data : world := sample_world [] [] 2 [[0; 1]; [2]]%Z 2 7.
(** A machine where the output directory holds a model already. *)
Definition world_out_filled : world :=
  sample_world ["out"] ["out"] 2 [[0; 1]; [2]]%Z 2 0.

Definition eval_args : args := sample_args false true 2.
Definition train_args : args := sample_args true false 2.

(** ** Watching a trace for checkpoints

    The watch reads a trace with the value of [global_step] in hand.  An
    optimizer update adds one to it, and when the new value is due for a
    checkpoint the five writes of lines 281 to 288 into the directory of
    that value become pending, to be found in this order before the next
    update; an update that arrives while writes are pending fails the
    watch. *)
Record watch := mkWatch { step_now : Z; pending : option nat }.

Definition checkpoint_due (a : args) (step : Z) : bool :=
  first_process a && (save_steps a >? 0)%Z && (step mod save_steps a =? 0)%Z.

Definition checkpoint_write (dir : string) (k : nat) (e : event) : bool :=
  match k with
  | 0%nat => event_eqb e (Call "model.save_pretrained" [dir])
             || event_eqb e (Call "model.module.save_pretrained" [dir])
  | 1%nat => event_eqb e (Call "tokenizer.save_pretrained" [dir])
  | 2%nat => event_eqb e (Call "torch.save" ["args"; path_join dir "training_args.bin"])
  | 3%nat => event_eqb e (Call "torch.save"
                            ["optimizer.state_dict()"; path_join dir "optimizer.pt"])
  | 4%nat => event_eqb e (Call "torch.save"
                            ["scheduler.state_dict()"; path_join dir "scheduler.pt"])
  | _ => false
  end.

Definition watch_event (a : args) (w : option watch) (e : event) : option watch :=
  match w with
  | None => None
  | Some w =>
      if is_update e
      then match pending w with
           | Some _ => None
           | None =>
               let step := (step_now w + 1)%Z in
               Some (mkWatch step (if checkpoint_due a step then Some 0%nat else None))
           end
      else match pending w with
           | Some k =>
               if checkpoint_write (checkpoint_dir a (step_now w)) k e
               then Some (mkWatch (step_now w)
                            (if (k =? 4)%nat then None else Some (S k)))
               else Some w
           | None => Some w
           end
  end.

Definition watch_trace (a : args) (w : option watch) (t : trace) : option watch :=
  fold_left (watch_event a) t w.

(** An event that is neither an optimizer update nor the saving of a
    model. *)
Definition quiet (e : event) : bool :=
  match e with
  | Call fn _ => negb (str_in fn ["optimizer.step"; "model.save_pretrained";
                                  "model.module.save_pretrained"])
  | Probe _ _ _ => true
  end.

(** Where [global_step] starts: at 1, or at the number that ends the name
    of the checkpoint the model was loaded from. *)
Definition start_of (a : args) (g0 : Z) : Prop :=
  g0 = 1%Z
  \/ py_int (hd "" (split_on "/" (last (split_on "-" (model_name_or_path a)) "")))
     = Some g0.

(** ** Statements about runs *)

(** Every run of [m] extends the trace by events that satisfy [P]. *)
Definition extends (P : event -> bool) {A} (m : M A) : Prop :=
  forall t r t', m t = (r, t') ->
  exists d, t' = (t ++ d)%list /\ forallb P d = true.

(** Started with [global_step = g] and nothing pending, every run of [m]
    passes the watch; a run that returns [x] leaves [global_step = g' x] and
    nothing pending. *)
Definition watched (a : args) {A} (g : Z) (m : M A) (g' : A -> Z) : Prop :=
  forall t r t', m t = (r, t') ->
  exists d, t' = (t ++ d)%list /\
    match r with
    | Ok x => watch_trace a (Some (mkWatch g None)) d = Some (mkWatch (g' x) None)
    | Raise _ => exists w, watch_trace a (Some (mkWatch g None)) d = Some w
    end.


(** Every exception [m] can raise satisfies [Q]. *)
Definition raises_only (Q : exn -> Prop) {A} (m : M A) : Prop :=
  forall t e t', m t = (Raise e, t') -> Q e.

(** The outcome of a run without its value. *)
Definition outcome {A} (r : result A) : option exn :=
  match r with Ok _ => None | Raise e => Some e end.

(** Every value [m] can return satisfies [Q]. *)
Definition returns_only {A} (Q : A -> Prop) (m : M A) : Prop :=
  forall t x t', m t = (Ok x, t') -> Q x.

(** ** Two runs side by side

    The driver never looks into a data set, an example, a feature or a
    tensor: it hands them on to the library.  What it does look at are the
    answers to its probes, and the sizes, indices and keys that the library
    returns.  A [correspondence] relates the library values of one run to
    those of another run, whatever they hold. *)
Record correspondence := mkCorrespondence {
  like_examples : examples -> examples -> Prop;
  like_dataset : dataset -> dataset -> Prop;
  like_feature : feature -> feature -> Prop;
  like_tensor : tensor -> tensor -> Prop;
  like_logits : logits -> logits -> Prop;
  like_id : Z -> Z -> Prop;
  like_predictions : predictions -> predictions -> Prop
}.

Definition like_option {A} (R : A -> A -> Prop) (o1 o2 : option A) : Prop :=
  match o1, o2 with
  | Some x, Some y => R x y
  | None, None => True
  | _, _ => False
  end.

(** Results with corresponding identifiers and logits. *)
Definition like_result (C : correspondence) (r1 r2 : squad_result) : Prop :=
  like_id C (unique_id r1) (unique_id r2)
  /\ like_logits C (start_logits r1) (start_logits r2)
  /\ like_logits C (end_logits r1) (end_logits r2)
  /\ like_option (like_logits C) (start_top_index r1) (start_top_index r2)
  /\ like_option (like_logits C) (end_top_index r1) (end_top_index r2)
  /\ like_option (like_logits C) (cls_logits r1) (cls_logits r2).

Definition like_loaded (C : correspondence)
    (x1 x2 : list feature * dataset * examples) : Prop :=
  Forall2 (like_feature C) (fst (fst x1)) (fst (fst x2))
  /\ like_dataset C (snd (fst x1)) (snd (fst x2))
  /\ like_examples C (snd x1) (snd x2).

Definition like_converted (C : correspondence) (x1 x2 : list feature * dataset) : Prop :=
  Forall2 (like_feature C) (fst x1) (fst x2) /\ like_dataset C (snd x1) (snd x2).

Definition like_data (C : correspondence)
    (x1 x2 : dataset * examples * list feature) : Prop :=
  like_dataset C (fst (fst x1)) (fst (fst x2))
  /\ like_examples C (snd (fst x1)) (snd (fst x2))
  /\ Forall2 (like_feature C) (snd x1) (snd x2).

Definition like_collected (C : correspondence)
    (x1 x2 : dataset * examples * list feature * list squad_result) : Prop :=
  like_data C (fst x1) (fst x2) /\ Forall2 (like_result C) (snd x1) (snd x2).

Definition whatever {A} (x y : A) : Prop := True.

(** The libraries of the worlds [W1] and [W2] return corresponding values
    where the trace is in [S]: from corresponding values they make
    corresponding values, and the numbers and names that the driver reads
    off them are the same. *)
Record respects (C : correspondence) (S : trace -> Prop) (W1 W2 : world) : Prop := {
  loaded_alike : forall t path, S t ->
    like_loaded C (torch_load_cached W1 t path) (torch_load_cached W2 t path);
  tfds_alike : forall t ev, S t ->
    like_examples C (tfds_examples W1 t ev) (tfds_examples W2 t ev);
  dev_alike : forall t v2 dir file, S t ->
    like_examples C (get_dev_examples W1 t v2 dir file) (get_dev_examples W2 t v2 dir file);
  train_alike : forall t v2 dir file, S t ->
    like_examples C (get_train_examples W1 t v2 dir file)
                    (get_train_examples W2 t v2 dir file);
  converted_alike : forall t e1 e2 len stride query training threads, S t ->
    like_examples C e1 e2 ->
    like_converted C
      (squad_convert_examples_to_features W1 t e1 len stride query training threads)
      (squad_convert_examples_to_features W2 t e2 len stride query training threads);
  empty_alike : forall d1 d2, like_dataset C d1 d2 ->
    (len_dataset W1 d1 =? 0)%Z = (len_dataset W2 d2 =? 0)%Z;
  loader_alike : forall t d1 d2 size, S t -> like_dataset C d1 d2 ->
    len_train_dataloader W1 t d1 size = len_train_dataloader W2 t d2 size;
  batches_alike : forall t d1 d2 size, S t -> like_dataset C d1 d2 ->
    eval_batches W1 t d1 size = eval_batches W2 t d2 size;
  outputs_alike : forall t, S t ->
    Forall2 (like_tensor C) (model_forward W1 t) (model_forward W2 t);
  rows_alike : forall o1 o2 i, like_tensor C o1 o2 ->
    like_logits C (to_list_row W1 o1 i) (to_list_row W2 o2 i);
  ids_alike : forall f1 f2, like_feature C f1 f2 ->
    like_id C (feature_unique_id W1 f1) (feature_unique_id W2 f2);
  start_alike : forall t, S t -> start_n_top W1 t = start_n_top W2 t;
  end_alike : forall t, S t -> end_n_top W1 t = end_n_top W2 t;
  log_probs_alike :
    forall t e1 e2 f1 f2 r1 r2 n len file nbest odds start end_ v2 verbose, S t ->
    like_examples C e1 e2 -> Forall2 (like_feature C) f1 f2 ->
    Forall2 (like_result C) r1 r2 ->
    like_predictions C
      (compute_predictions_log_probs W1 t e1 f1 r1 n len file nbest odds start end_
         v2 verbose)
      (compute_predictions_log_probs W2 t e2 f2 r2 n len file nbest odds start end_
         v2 verbose);
  logits_alike :
    forall t e1 e2 f1 f2 r1 r2 n len lower file nbest odds verbose v2, S t ->
    like_examples C e1 e2 -> Forall2 (like_feature C) f1 f2 ->
    Forall2 (like_result C) r1 r2 ->
    like_predictions C
      (compute_predictions_logits W1 t e1 f1 r1 n len lower file nbest odds verbose v2)
      (compute_predictions_logits W2 t e2 f2 r2 n len lower file nbest odds verbose v2);
  keys_alike : forall t e1 e2 p1 p2, S t ->
    like_examples C e1 e2 -> like_predictions C p1 p2 ->
    map fst (squad_evaluate W1 t e1 p1) = map fst (squad_evaluate W2 t e2 p2)
}.

(** [t'] is [t] or a later trace. *)
Definition before (t t' : trace) : Prop := exists d, t' = (t ++ d)%list.

(** The traces from [t] on that two runs ending in [T1] and [T2] have both
    passed through. *)
Definition along (t T1 T2 : trace) (t' : trace) : Prop :=
  before t t' /\ before t' T1 /\ before t' T2.

(** Two continuations of a trace that are the same up to a probe, put and
    asked alike in both, that is answered differently. *)
Definition differ_at_probe (d1 d2 : trace) : Prop :=
  exists common fn arguments x1 x2 rest1 rest2,
    d1 = (common ++ Probe fn arguments x1 :: rest1)%list
    /\ d2 = (common ++ Probe fn arguments x2 :: rest2)%list
    /\ x1 <> x2.

(** Every probe that two traces hold after the same events has the same
    answer in both. *)
Definition probes_alike (T1 T2 : trace) : Prop :=
  forall common fn arguments x1 x2,
    before (common ++ [Probe fn arguments x1])%list T1 ->
    before (common ++ [Probe fn arguments x2])%list T2 ->
    x1 = x2.

Definition same_outcome {A} (R : A -> A -> Prop) (r1 r2 : result A) : Prop :=
  match r1, r2 with
  | Ok x, Ok y => R x y
  | Raise e1, Raise e2 => e1 = e2
  | _, _ => False
  end.

(** Started at the same trace, the runs of [m1] and [m2] end at the same
    trace, both with an exception, the same one, or both with a value, the
    two related by [R]; or their traces differ first at a probe.  That is
    so where the traces the runs pass through are in [S]. *)
Definition in_step (S : trace -> Prop) {A} (R : A -> A -> Prop) (m1 m2 : M A) : Prop :=
  forall t,
    (forall t', along t (snd (m1 t)) (snd (m2 t)) t' -> S t') ->
    (snd (m1 t) = snd (m2 t) /\ same_outcome R (fst (m1 t)) (fst (m2 t)))
    \/ (exists d1 d2, snd (m1 t) = (t ++ d1)%list /\ snd (m2 t) = (t ++ d2)%list
                      /\ differ_at_probe d1 d2).

Definition any_event (e : event) : bool := true.

Definition same_keys (r1 r2 : list (string * metric)) : Prop :=
  map fst r1 = map fst r2.

(** The world [W] with a training loader whose length is [len] of the data
    set, whatever the batch size. *)
Definition with_train_loader (W : world) (len : dataset -> nat) : world :=
  {| os_path_exists := os_path_exists W;
     os_path_isfile := os_path_isfile W;
     os_listdir := os_listdir W;
     glob_glob := glob_glob W;
     importable := importable W;
     cuda_is_available := cuda_is_available W;
     cuda_device_count := cuda_device_count W;
     dist_get_rank := dist_get_rank W;
     hasattr := hasattr W;
     isinstance_DataParallel := isinstance_DataParallel W;
     torch_load_cached := torch_load_cached W;
     tfds_examples := tfds_examples W;
     get_dev_examples := get_dev_examples W;
     get_train_examples := get_train_examples W;
     squad_convert_examples_to_features := squad_convert_examples_to_features W;
     len_dataset := len_dataset W;
     len_train_dataloader := fun _ d _ => len d;
     eval_batches := eval_batches W;
     model_forward := model_forward W;
     to_list_row := to_list_row W;
     feature_unique_id := feature_unique_id W;
     start_n_top := start_n_top W;
     end_n_top := end_n_top W;
     compute_predictions_log_probs := compute_predictions_log_probs W;
     compute_predictions_logits := compute_predictions_logits W;
     squad_evaluate := squad_evaluate W |}.

(** A machine whose data are told apart by [salt], and whose training
    loader has as many batches as the handle of the data set leaves when
    divided by 7: the data of [world_sized 7] are those of [world_sized 0]
    plus 7. *)
Definition world_sized (salt : N) : world :=
  with_train_loader (sample_world [] [] 0 [[0; 1]; [2]]%Z 2 salt)
    (fun d => N.to_nat (d mod 7)).

Definition shifted (x y : handle) : Prop := y = (x + 7)%N.

Definition by_shift : correspondence :=
  mkCorrespondence shifted shifted eq eq eq eq shifted.

(** [world_plain] with a training set of three batches. *)
Definition world_more_batches : world := sample_world [] [] 3 [[0; 1]; [2]]%Z 2 0.

Definition both_args : args := sample_args true true 2.

(** An exception raised after the test of the output directory. *)
Definition later_exn (e : exn) : Prop :=
  match e with OutputDirNotEmpty _ => False | _ => True end.

End Squad.

(* ===================================================================== *)
(** * Further definitions, for the properties of Part V                   *)
(* ===================================================================== *)

Module Further.

Import Preprocess.

Section PreprocessorOutput.

Variable tokenize : str -> list str.

(** The subwords a line adds to its example: none for a blank line, for
    which the tokenizer is not called. *)
Definition subwords_of (line : str) : Z :=
  if blank line then 0 else current_subwords_len tokenize line.

Definition total_subwords (lines : list str) : Z :=
  fold_right Z.add 0 (map subwords_of lines).

(** What a line gives when no example is split: the empty line for a blank
    line, the token and label for a line that is kept. *)
Definition copied (line : str) : list str :=
  if blank line then [[]]
  else if kept tokenize line then [printed_pair line] else [].

(** What a line gives when every kept line opens an example of its own. *)
Definition isolated (line : str) : list str :=
  if blank line then [[]]
  else if kept tokenize line then [[]; printed_pair line] else [].

End PreprocessorOutput.

(** A string with no whitespace in it. *)
Definition spaceless (s : str) : bool := negb (existsb isspace s).

End Further.

Module FurtherSquad.

Import Squad.
Local Open Scope string_scope.
Local Open Scope list_scope.

(** The numbers of model outputs that lines 364 to 382 take apart. *)
Definition unpacks (n : nat) : bool := (n =? 2)%nat || (5 <=? n)%nat.

(** [int(features[ix].unique_id)], or 0 where [ix] is out of range. *)
Definition feature_id (W : world) (features : list feature) (ix : Z) : Z :=
  match py_index features ix with
  | Some f => feature_unique_id W f
  | None => 0%Z
  end.

Definition in_range (features : list feature) (ix : Z) : bool :=
  match py_index features ix with Some _ => true | None => false end.

(** A path made of slashes only, the empty path among them. *)
Definition only_slashes (s : string) : bool :=
  forallb is_slash (list_ascii_of_string s).

(** The row [p] of the output tensor number [j]: [to_list(outputs[j][p])]. *)
Definition row (W : world) (outputs : list tensor) (j p : nat) : logits :=
  to_list_row W (nth j outputs 0%N) p.

(** The result for the item at position [p] of a batch, by the number of
    tensors the model returned. *)
Definition result_of_rows (W : world) (outputs : list tensor) (id : Z) (p : nat)
  : squad_result :=
  if (5 <=? List.length outputs)%nat
  then mkSquadResult id (row W outputs 0 p) (row W outputs 2 p)
         (Some (row W outputs 1 p)) (Some (row W outputs 3 p))
         (Some (row W outputs 4 p))
  else mkSquadResult id (row W outputs 0 p) (row W outputs 1 p) None None None.

(** The call of the constructor for an item. *)
Definition result_call (outputs : list tensor) : event :=
  Call "SquadResult"
    ("unique_id" ::
     if (5 <=? List.length outputs)%nat
     then ["start_logits"; "end_logits"; "start_top_index"; "end_top_index";
           "cls_logits"]
     else ["start_logits"; "end_logits"]).

(** The results of a batch whose first item has the position [i]. *)
Definition batch_results (W : world) (features : list feature)
    (outputs : list tensor) (i : nat) (indices : list Z) : list squad_result :=
  map (fun p => result_of_rows W outputs (feature_id W features (snd p)) (fst p))
      (combine (seq i (List.length indices)) indices).

(** Any exception but the [IndexError] of line 451. *)
Definition not_empty_pop (e : exn) : Prop :=
  match e with EmptyPop => False | _ => True end.

(** How often [fn] is called in a trace. *)
Definition calls_to (fn : string) (t : trace) : nat :=
  List.length (filter (fun e => match e with
                                | Call f _ => String.eqb f fn
                                | Probe _ _ _ => false
                                end) t).

Definition no_barrier (e : event) : bool :=
  match e with
  | Call fn _ => negb (String.eqb fn "torch.distributed.barrier")
  | Probe _ _ _ => true
  end.

(** Every run of [m] that returns has called [fn] [k] times. *)
Definition counted (fn : string) {A} (m : M A) (k : nat) : Prop :=
  forall t x t', m t = (Ok x, t') ->
  exists d, t' = t ++ d /\ calls_to fn d = k.

(** The optimizer updates in a trace. *)
Definition updates_made (t : trace) : nat := List.length (filter is_update t).

(** The batches of an epoch that close an accumulation window. *)
Definition closing (gas : Z) (steps : list Z) : nat :=
  List.length (filter (fun step => ((step + 1) mod gas =? 0)%Z) steps).

(** The trace when [train] has built its sampler, and the number of
    batches of the loader built there. *)
Definition at_loader (a : args) (t : trace) : trace :=
  (t ++ if first_process a then [Call "SummaryWriter" []] else [])
  ++ [Call (if (local_rank a =? -1)%Z then "RandomSampler" else "DistributedSampler")
        ["train_dataset"]].

Definition loader_batches (W : world) (a : args) (ds : dataset) (t : trace) : nat :=
  len_train_dataloader W (at_loader a t) ds (train_batch_size a).

(** A world in which a file or directory that the run has written is found
    by [os.path.exists] afterwards. *)
Definition remembers_writes (W : world) : Prop :=
  forall t p, created t p = true -> os_path_exists W t p = true.

(** The world [W] with another size of the data sets. *)
Definition with_len_dataset (W : world) (len : dataset -> Z) : world :=
  {| os_path_exists := os_path_exists W;
     os_path_isfile := os_path_isfile W;
     os_listdir := os_listdir W;
     glob_glob := glob_glob W;
     importable := importable W;
     cuda_is_available := cuda_is_available W;
     cuda_device_count := cuda_device_count W;
     dist_get_rank := dist_get_rank W;
     hasattr := hasattr W;
     isinstance_DataParallel := isinstance_DataParallel W;
     torch_load_cached := torch_load_cached W;
     tfds_examples := tfds_examples W;
     get_dev_examples := get_dev_examples W;
     get_train_examples := get_train_examples W;
     squad_convert_examples_to_features := squad_convert_examples_to_features W;
     len_dataset := len;
     len_train_dataloader := len_train_dataloader W;
     eval_batches := eval_batches W;
     model_forward := model_forward W;
     to_list_row := to_list_row W;
     feature_unique_id := feature_unique_id W;
     start_n_top := start_n_top W;
     end_n_top := end_n_top W;
     compute_predictions_log_probs := compute_predictions_log_probs W;
     compute_predictions_logits := compute_predictions_logits W;
     squad_evaluate := squad_evaluate W |}.

(** A machine whose evaluation set is empty. *)
Definition world_no_data : world :=
  with_len_dataset (sample_world [] [] 0 [] 2 0) (fun _ => 0%Z).

(** The arguments [a] with another [model_name_or_path] and another
    [max_steps]. *)
Definition with_model_and_max_steps (a : args) (model : string) (steps : Z) : args :=
  mkArgs (model_type a) model (output_dir a) (data_dir a)
    (train_file a) (predict_file a) (config_name a) (tokenizer_name a)
    (cache_dir a) (version_2_with_negative a) (max_seq_length a)
    (doc_stride a) (max_query_length a) (do_train a) (do_eval a)
    (evaluate_during_training a) (do_lower_case a)
    (per_gpu_train_batch_size a) (per_gpu_eval_batch_size a)
    (gradient_accumulation_steps a) (num_train_epochs a) steps
    (n_best_size a) (max_answer_length a) (verbose_logging a) (lang_id a)
    (logging_steps a) (save_steps a) (eval_all_checkpoints a) (no_cuda a)
    (overwrite_output_dir a) (overwrite_cache a) (seed a) (local_rank a)
    (fp16 a) (server_ip a) (server_port a) (threads a) (uncertainty_model a)
    (n_gpu a).

(** A loader without batches, and a run limited to one update. *)
Definition world_no_batches : world := sample_world [] [] 0 [] 2 0.
Definition capped_args : args :=
  with_model_and_max_steps train_args "bert-base-uncased" 1.

(** The probe of line 159, which decides where [global_step] starts: at
    the number that the name of the checkpoint ends with when the path exists
    and the name ends with a number, and at 1 otherwise. *)
Definition resume_probe (a : args) (there : bool) : event :=
  Probe "os.path.exists" [model_name_or_path a] (ABool there).

Definition first_step (a : args) (there : bool) : Z :=
  if there
  then match py_int (hd "" (split_on "/"
                              (last (split_on "-" (model_name_or_path a)) ""))) with
       | Some step => step
       | None => 1%Z
       end
  else 1%Z.

Definition no_exists_probe (e : event) : bool :=
  match e with
  | Probe fn _ _ => negb (String.eqb fn "os.path.exists")
  | Call _ _ => true
  end.

(** Every run of [m] that returns has met the probe of line 159, as its
    first probe of [os.path.exists], and returns a value with [g x] the
    step that the answer gives. *)
Definition resumes (a : args) {A} (m : M A) (g : A -> Z) : Prop :=
  forall t x t', m t = (Ok x, t') ->
  exists d1 there d2,
    t' = t ++ d1 ++ resume_probe a there :: d2
    /\ forallb no_exists_probe d1 = true
    /\ g x = first_step a there.

(** A decimal digit, and a character that is not the separator [sep]. *)
Definition is_digit (c : ascii) : bool :=
  match digit_of c with Some _ => true | None => false end.

Definition is_not (sep c : ascii) : bool := negb (Ascii.eqb c sep).

(** The characters of the decimal numeral [d]. *)
Definition numeral (d : Decimal.uint) : list ascii :=
  list_ascii_of_string (NilEmpty.string_of_uint d).

(** [train_args], with the checkpoint of step 2 as the model to load. *)
Definition resumed_args : args :=
  with_model_and_max_steps train_args (checkpoint_dir train_args 2)
    (max_steps train_args).

End FurtherSquad.

(* ===================================================================== *)
(** * Part III: properties of the preprocessor                            *)
(* ===================================================================== *)

Module PreprocessFacts.
Import Preprocess.

(** ** Whitespace handling *)

(** A stripped line that is not empty holds a character that is not
    whitespace. *)
Lemma rstrip_has_nonspace s :
  rstrip s <> [] -> existsb (fun c => negb (isspace c)) (rstrip s) = true.
Proof.
  induction s as [|c r IH]; simpl; [congruence|].
  destruct (rstrip r) as [|d r'] eqn:E.
  - destruct (isspace c) eqn:Ec; [congruence|]. intros _. simpl. now rewrite Ec.
  - intros _. specialize (IH ltac:(congruence)).
    change (negb (isspace c) || existsb (fun c => negb (isspace c)) (d :: r') = true).
    rewrite IH. apply orb_true_r.
Qed.

Lemma split_from_open field s : field <> [] -> split_from field s <> [].
Proof.
  revert field. induction s as [|c r IH]; intros field Hf; simpl.
  - destruct field; congruence.
  - destruct (isspace c).
    + destruct field; congruence.
    + apply IH. destruct field; simpl; congruence.
Qed.

Lemma split_from_nonspace field s :
  existsb (fun c => negb (isspace c)) s = true -> split_from field s <> [].
Proof.
  revert field. induction s as [|c r IH]; intros field H; simpl in *; [congruence|].
  destruct (isspace c); simpl in H.
  - destruct field as [|f fs]; [now apply IH|congruence].
  - apply split_from_open. destruct field; simpl; congruence.
Qed.

(** [line[0]] and [line[-1]] never raise: the fields of a line that is not
    blank are not empty. *)
Lemma split_rstrip_nonempty line : rstrip line <> [] -> split (rstrip line) <> [].
Proof. intros H. apply split_from_nonspace, rstrip_has_nonspace, H. Qed.

Section Facts.

Variable tokenize : str -> list str.
Variable max_len : Z.

Local Abbreviation body := (body tokenize max_len).
Local Abbreviation for_lines := (for_lines tokenize max_len).
Local Abbreviation preprocess := (preprocess tokenize max_len).
Local Abbreviation next_counter := (next_counter tokenize max_len).
Local Abbreviation emitted := (emitted tokenize max_len).
Local Abbreviation output_from := (output_from tokenize max_len).
Local Abbreviation cur := (current_subwords_len tokenize).

(** ** The loop body, by cases *)

Lemma body_factor st line :
  body st line =
  mkState (next_counter (subword_len_counter st) line)
          (stdout st ++ emitted (subword_len_counter st) line).
Proof.
  unfold body, Preprocess.next_counter, Preprocess.emitted, blank,
    current_subwords_len, token_of, label_of.
  destruct (rstrip line) as [|c r] eqn:E; [reflexivity|].
  destruct (_ =? 0) eqn:E0.
  - destruct st; simpl. now rewrite app_nil_r.
  - destruct (_ >? max_len); reflexivity.
Qed.

Lemma for_lines_factor lines st :
  for_lines lines st =
  mkState (fold_left next_counter lines (subword_len_counter st))
          (stdout st ++ output_from (subword_len_counter st) lines).
Proof.
  revert st. induction lines as [|line rest IH]; intros st; simpl.
  - destruct st; simpl. now rewrite app_nil_r.
  - rewrite IH, body_factor. simpl. now rewrite <- app_assoc.
Qed.

Lemma for_lines_app l1 l2 st :
  for_lines (l1 ++ l2) st = for_lines l2 (for_lines l1 st).
Proof. revert st. induction l1; intros st; simpl; auto. Qed.

Lemma cur_nonneg line : 0 <= cur line.
Proof. unfold current_subwords_len. lia. Qed.

Lemma next_counter_bounds c line :
  0 <= max_len -> 0 <= c <= max_len -> 0 <= next_counter c line <= max_len.
Proof.
  intros Hm Hc. unfold Preprocess.next_counter.
  pose proof (cur_nonneg line).
  destruct (blank line); [lia|].
  destruct (cur line =? 0); [lia|].
  destruct (c + cur line >? max_len) eqn:E; [lia|].
  rewrite Z.gtb_ltb, Z.ltb_ge in E. lia.
Qed.

Lemma counter_bounds lines c :
  0 <= max_len -> 0 <= c <= max_len ->
  0 <= fold_left next_counter lines c <= max_len.
Proof.
  intros Hm. revert c. induction lines as [|l r IH]; intros c Hc; simpl; [lia|].
  apply IH, next_counter_bounds; assumption.
Qed.

Lemma preprocess_counter_bounds lines :
  0 <= max_len -> 0 <= subword_len_counter (preprocess lines) <= max_len.
Proof.
  intros Hm. unfold Preprocess.preprocess. rewrite for_lines_factor. simpl.
  apply counter_bounds; lia.
Qed.

(** ** C1: one pass, one integer of state *)

(** C1. The preprocessor is a left fold over the input lines whose only
    carried state is the subword length counter: the final counter is
    [fold_left next_counter], the output is the concatenation of what each
    line emits, and what a line emits ([emitted]) is a function of that line
    and the counter value when the line is read, whatever was printed
    before. *)
Theorem preprocess_is_left_fold (lines : list str) :
  preprocess lines =
    mkState (fold_left next_counter lines 0) (output_from 0 lines)
  /\ (forall st line,
        body st line =
        mkState (next_counter (subword_len_counter st) line)
                (stdout st ++ emitted (subword_len_counter st) line))
  /\ (forall l1 l2,
        stdout (preprocess (l1 ++ l2)) =
        stdout (preprocess l1)
          ++ output_from (subword_len_counter (preprocess l1)) l2).
Proof.
  split; [|split].
  - unfold Preprocess.preprocess. now rewrite for_lines_factor.
  - apply body_factor.
  - intros l1 l2. unfold Preprocess.preprocess.
    rewrite for_lines_app, (for_lines_factor l2). reflexivity.
Qed.

(** ** C10: termination, one line per turn *)

Lemma turns_prefix seen rest st :
  turns tokenize max_len (List.length seen) (mkConfig (seen ++ rest) st) =
  Some (mkConfig rest (for_lines seen st)).
Proof.
  revert st. induction seen as [|l seen IH]; intros st; simpl; [reflexivity|].
  apply IH.
Qed.

(** C10. On every finite list of lines the loop ends: after as many turns as
    [seen] has lines, exactly the lines of [seen] have been read, in order,
    and the others are still unread; after as many turns as there are lines
    nothing is unread and the state is the program's result; one more turn
    is refused because the iterator is exhausted. *)
Theorem preprocess_terminates (seen rest : list str) :
  turns tokenize max_len (List.length seen) (mkConfig (seen ++ rest) initial) =
    Some (mkConfig rest (preprocess seen))
  /\ turns tokenize max_len (List.length (seen ++ rest))
        (mkConfig (seen ++ rest) initial) =
      Some (mkConfig [] (preprocess (seen ++ rest)))
  /\ turns tokenize max_len (S (List.length (seen ++ rest)))
        (mkConfig (seen ++ rest) initial) = None.
Proof.
  assert (H : forall ls, turns tokenize max_len (List.length ls) (mkConfig ls initial)
                         = Some (mkConfig [] (preprocess ls))).
  { intros ls. rewrite <- (app_nil_r ls) at 2. apply turns_prefix. }
  split; [apply turns_prefix|]. split; [apply H|].
  generalize (seen ++ rest) initial. clear.
  induction l as [|x l IH]; intros st; simpl; [reflexivity|].
  apply (IH (body st x)).
Qed.

(** ** C3: the counter stays within the budget *)

(** C3. With a non-negative [max_len], after any prefix of the input the
    counter lies between 0 and [max_len].  One turn of the loop sets it to 0
    on a blank line and on a line that splits, leaves it alone for a token
    without subwords, and otherwise adds the token's subword count, which
    happens only when the sum does not exceed [max_len]. *)
Theorem counter_within_budget (prefix : list str) :
  0 <= max_len ->
  0 <= subword_len_counter (preprocess prefix) <= max_len
  /\ (forall st line,
        let c := subword_len_counter st in
        subword_len_counter (body st line) =
          (if blank line || splits tokenize max_len c line then 0
           else if cur line =? 0 then c
           else c + cur line)
        /\ (blank line || splits tokenize max_len c line || (cur line =? 0)
            || (c + cur line <=? max_len)) = true).
Proof.
  intros Hm. split.
  - now apply preprocess_counter_bounds.
  - intros st line c. rewrite body_factor. simpl.
    unfold Preprocess.next_counter, splits. fold c.
    destruct (blank line); simpl; [split; reflexivity|].
    destruct (cur line =? 0); simpl; [split; reflexivity|].
    destruct (c + cur line >? max_len) eqn:E; simpl; [split; reflexivity|].
    split; [reflexivity|]. rewrite Z.gtb_ltb, Z.ltb_ge in E.
    now apply Z.leb_le.
Qed.

(** ** C4: what a split does *)

(** C4. A line triggers a split when it reaches the comparison of line 31,
    that is when it is not blank and its token has a subword, and the
    counter plus the token's subword count exceeds [max_len].  The loop then
    prints an empty line and after it the token and the label, and sets the
    counter to 0 without adding the token's count: the next line that is
    kept and fits into [max_len] leaves the counter at its own count alone,
    so that the token that opened the example has contributed 0 to it. *)
Theorem split_prints_separator_and_resets (st : state) (line : str) :
  blank line = false ->
  cur line <> 0 ->
  subword_len_counter st + cur line > max_len ->
  body st line = mkState 0 (stdout st ++ [[]; printed_pair line])
  /\ (forall next,
        kept tokenize next = true -> cur next <= max_len ->
        body (body st line) next =
        mkState (cur next) (stdout st ++ [[]; printed_pair line; printed_pair next])).
Proof.
  intros Hb Hc Hgt.
  assert (E : body st line = mkState 0 (stdout st ++ [[]; printed_pair line])).
  { rewrite body_factor.
    unfold Preprocess.next_counter, Preprocess.emitted, printed_pair.
    rewrite Hb. apply Z.eqb_neq in Hc. rewrite Hc.
    apply Z.gtb_gt in Hgt. now rewrite Hgt. }
  split; [exact E|].
  intros next Hk Hfit. rewrite E, body_factor. simpl.
  unfold kept in Hk. apply andb_prop in Hk as [Hnb Hn0].
  apply negb_true_iff in Hnb, Hn0.
  unfold Preprocess.next_counter, Preprocess.emitted, printed_pair.
  rewrite Hnb, Hn0.
  destruct (0 + cur next >? max_len) eqn:Eg.
  - apply Z.gtb_gt in Eg. lia.
  - rewrite <- app_assoc. reflexivity.
Qed.

(** ** C5: the subword count is the tokenizer's *)

(** C5. For a line that is not blank the subword count is the length of
    what [tokenize] returns on the line's first field, and the loop body
    uses the tokenizer through that length only: it adds that length to the
    counter or compares it, prints the field itself and never a piece of
    it, and does the same with any tokenizer that returns as many pieces
    for the field. *)
Theorem subword_count_is_tokenizer_length (st : state) (line : str) :
  blank line = false ->
  let n := Z.of_nat (List.length (tokenize (token_of line))) in
  cur line = n
  /\ body st line =
       (if n =? 0 then st
        else if subword_len_counter st + n >? max_len
        then mkState 0 (stdout st ++ [[]; print2 (token_of line) (label_of line)])
        else mkState (subword_len_counter st + n)
                     (stdout st ++ [print2 (token_of line) (label_of line)]))
  /\ (forall tokenize' : str -> list str,
        List.length (tokenize' (token_of line)) =
        List.length (tokenize (token_of line)) ->
        Preprocess.body tokenize' max_len st line = body st line).
Proof.
  intros Hb n. unfold blank in Hb.
  split; [reflexivity|]. split.
  - unfold Preprocess.body, token_of, label_of. subst n. unfold token_of.
    destruct (rstrip line); [discriminate|reflexivity].
  - intros tokenize' Hlen. unfold Preprocess.body.
    destruct (rstrip line) as [|c r] eqn:E; [reflexivity|].
    unfold token_of in Hlen. rewrite E in Hlen. now rewrite Hlen.
Qed.

(** ** C2: which lines are copied to the output *)

Lemma print2_nonempty token label : nonempty (print2 token label) = true.
Proof. unfold print2. destruct token; reflexivity. Qed.

Lemma pairs_written_emitted c line :
  pairs_written (emitted c line) =
  if kept tokenize line then [printed_pair line] else [].
Proof.
  unfold Preprocess.emitted, kept, pairs_written, printed_pair.
  destruct (blank line); simpl; [reflexivity|].
  destruct (cur line =? 0); simpl; [reflexivity|].
  destruct (c + cur line >? max_len); simpl; now rewrite print2_nonempty.
Qed.

Lemma pairs_written_output c lines :
  pairs_written (output_from c lines) =
  map printed_pair (filter (kept tokenize) lines).
Proof.
  revert c. induction lines as [|l r IH]; intros c; simpl; [reflexivity|].
  unfold pairs_written in *. rewrite filter_app.
  fold (pairs_written (emitted c l)). rewrite pairs_written_emitted, IH.
  destruct (kept tokenize l); reflexivity.
Qed.

(** C2 (amended). Each line of the input adds to the output what follows.
    A line that is not blank and whose token has at least one subword adds
    its token and its label (its first and its last whitespace-separated
    field), after an empty line when it splits the example and alone
    otherwise.  A line that is not blank and whose token has no subword adds
    nothing: the line is dropped.  Hence the lines of the output that are
    not empty are, in input order, the token and label of every line that is
    kept. *)
Theorem output_is_kept_pairs (lines : list str) :
  pairs_written (stdout (preprocess lines)) =
  map printed_pair (filter (kept tokenize) lines)
  /\ (forall prefix line,
        blank line = false -> cur line <> 0 ->
        stdout (preprocess (prefix ++ [line])) =
        stdout (preprocess prefix)
          ++ (if subword_len_counter (preprocess prefix) + cur line >? max_len
              then [[]] else [])
          ++ [print2 (token_of line) (label_of line)])
  /\ (forall prefix line,
        blank line = false -> cur line = 0 ->
        preprocess (prefix ++ [line]) = preprocess prefix).
Proof.
  split; [|split].
  - unfold Preprocess.preprocess. rewrite for_lines_factor. simpl.
    apply pairs_written_output.
  - intros prefix line Hb Hc. unfold Preprocess.preprocess.
    rewrite for_lines_app. simpl. rewrite body_factor. simpl.
    unfold Preprocess.emitted. rewrite Hb.
    apply Z.eqb_neq in Hc. rewrite Hc.
    destruct (_ >? max_len); reflexivity.
  - intros prefix line Hb Hc. unfold Preprocess.preprocess.
    rewrite for_lines_app. simpl. rewrite body_factor.
    unfold Preprocess.next_counter, Preprocess.emitted. rewrite Hb.
    apply Z.eqb_eq in Hc. rewrite Hc, app_nil_r.
    now destruct (for_lines prefix initial).
Qed.

End Facts.

(** ** Runs on concrete input *)

Example sample_run :
  preprocess toy_tokenize 4 sample_lines =
  mkState 2 (map of_string
    ["EU B-ORG"; "rejects O"; ""; "German B-MISC"; ""; "call O"]%string).
Proof. reflexivity. Qed.

Example control_line_is_dropped :
  preprocess toy_tokenize 4 [control_line] = initial.
Proof. reflexivity. Qed.

Lemma counter_within_budget_witness :
  0 <= subword_len_counter (preprocess toy_tokenize 4 sample_lines) <= 4.
Proof.
  apply (counter_within_budget toy_tokenize 4 sample_lines). lia.
Defined.

Lemma split_prints_separator_and_resets_witness :
  body toy_tokenize 4
    (preprocess toy_tokenize 4 (firstn 2 sample_lines)) (of_line "German B-MISC") =
  mkState 0 (map of_string ["EU B-ORG"; "rejects O"; ""; "German B-MISC"]%string).
Proof.
  apply (split_prints_separator_and_resets toy_tokenize 4
           (preprocess toy_tokenize 4 (firstn 2 sample_lines))
           (of_line "German B-MISC")).
  - reflexivity.
  - vm_compute. discriminate.
  - vm_compute. reflexivity.
Defined.

Lemma subword_count_is_tokenizer_length_witness :
  current_subwords_len toy_tokenize (of_line "rejects  NNS O") = 3.
Proof.
  apply (subword_count_is_tokenizer_length toy_tokenize 4 initial
           (of_line "rejects  NNS O")).
  reflexivity.
Defined.

Lemma output_is_kept_pairs_witness :
  preprocess toy_tokenize 4 (sample_lines ++ [control_line])
  = preprocess toy_tokenize 4 sample_lines.
Proof.
  apply (proj2 (proj2 (output_is_kept_pairs toy_tokenize 4 []))).
  - reflexivity.
  - reflexivity.
Defined.

(** C2 as stated fails: [control_line] is not blank, its token is the
    character U+0096 and its label is [O], and nothing is written for it. *)
Lemma nonblank_line_without_output :
  blank control_line = false
  /\ pairs_written (stdout (preprocess toy_tokenize 4 [control_line])) = []
  /\ map printed_pair (filter (fun l => negb (blank l)) [control_line])
       = [[150; 32; 79]%N]
  /\ pairs_written (stdout (preprocess toy_tokenize 4 [control_line]))
       <> map printed_pair (filter (fun l => negb (blank l)) [control_line]).
Proof.
  split; [reflexivity|]. split; [reflexivity|]. split; [reflexivity|].
  vm_compute. discriminate.
Qed.

End PreprocessFacts.

(* ===================================================================== *)
(** * Part IV: properties of the SQuAD driver                             *)
(* ===================================================================== *)

Module SquadFacts.
Import Squad.
Local Open Scope string_scope.
Local Open Scope list_scope.
Local Open Scope driver_scope.

(** ** Running a sequence *)

Lemma bind_ok {A B} (m : M A) (f : A -> M B) t a t' :
  m t = (Ok a, t') -> bind m f t = f a t'.
Proof. intros H. unfold bind. now rewrite H. Qed.

Lemma bind_inv_ok {A B} (m : M A) (f : A -> M B) t b t' :
  bind m f t = (Ok b, t') ->
  exists a t1, m t = (Ok a, t1) /\ f a t1 = (Ok b, t').
Proof.
  unfold bind. destruct (m t) as [[a|e] t1]; intros H; [eauto|discriminate].
Qed.

(** ** The built-ins on concrete input *)

Example py_int_examples :
  py_int "500" = Some 500%Z /\ py_int " 1_0 " = Some 10%Z /\ py_int "-3" = Some (-3)%Z
  /\ py_int "uncased" = None /\ py_int "1__0" = None /\ py_int "" = None.
Proof. repeat split. Qed.

Example path_examples :
  path_join "out" "checkpoint-2" = "out/checkpoint-2"
  /\ path_join "out/" "x" = "out/x" /\ path_join "" "x" = "x"
  /\ path_join "out" "/x" = "/x"
  /\ dirname "out/checkpoint-2/pytorch_model.bin" = "out/checkpoint-2"
  /\ dirname "/a" = "/" /\ dirname "a" = ""
  /\ split_on "-" "a-b--c" = ["a"; "b"; ""; "c"]
  /\ sorted ["b"; "a"; "c"] = ["a"; "b"; "c"]
  /\ cached_features_file eval_args true = Some "data/cached_dev_bert-base-uncased_384".
Proof. repeat split. Qed.

Example py_int_whitespace :
  py_int (String (ascii_of_nat 160) "7") = Some 7%Z
  /\ py_int (String (ascii_of_nat 11) "7") = Some 7%Z
  /\ py_int (String (ascii_of_nat 28) "7") = None.
Proof. repeat split. Qed.

(** The two calls that no library accepts: with an uncertainty model
    [train] stops at line 107, and with two GPUs and a model of four outputs
    at line 226, in the first batch. *)
Example uncertainty_runs :
  fst (train world_plain train_args 10%N true []) = Raise (BadArguments 107)
  /\ fst (train (sample_world [] [] 2 [] 4 0) (set_n_gpu train_args 2) 10%N false [])
     = Raise (BadArguments 226)
  /\ class_of (BadArguments 107) = TypeError.
Proof. repeat split. Qed.

Example evaluation_run :
  calls (snd (evaluate world_plain eval_args "" [])) =
  [Call "SquadV1Processor" [];
   Call "processor.get_dev_examples" ["data"; "dev.json"];
   Call "squad_convert_examples_to_features"
     ["examples"; "tokenizer"; "384"; "128"; "64"; "False"; "pt"; "1"];
   Call "torch.save" ["features, dataset, examples";
                      "data/cached_dev_bert-base-uncased_384"];
   Call "os.makedirs" ["out"];
   Call "SequentialSampler" ["dataset"];
   Call "DataLoader" ["dataset"; "eval_sampler"; "8"];
   Call "timeit.default_timer" [];
   Call "model.eval" []; Call "batch.to" ["args.device"];
   Call "model" ["input_ids"; "attention_mask"; "token_type_ids"];
   Call "SquadResult" ["unique_id"; "start_logits"; "end_logits"];
   Call "SquadResult" ["unique_id"; "start_logits"; "end_logits"];
   Call "model.eval" []; Call "batch.to" ["args.device"];
   Call "model" ["input_ids"; "attention_mask"; "token_type_ids"];
   Call "SquadResult" ["unique_id"; "start_logits"; "end_logits"];
   Call "timeit.default_timer" [];
   Call "compute_predictions_logits"
     ["examples"; "features"; "all_results"; "20"; "30"; "True";
      "out/predictions_.json"; "out/nbest_predictions_.json"; "None";
      "False"; "False"; "args.null_score_diff_threshold"; "tokenizer"];
   Call "squad_evaluate" ["examples"; "predictions"]].
Proof. reflexivity. Qed.

(** ** C7: evaluation returns the library's scores of the library's predictions *)

Lemma compute_predictions_decoded W a prefix ex fs rs t :
  exists t', compute_predictions W a prefix ex fs rs t = (Ok (decoded W a prefix ex fs rs t), t')
    /\ exists pre arguments,
         t' = (pre ++ [Call (if str_in (model_type a) ["xlnet"; "xlm"]
                             then "compute_predictions_log_probs"
                             else "compute_predictions_logits") arguments])%list.
Proof.
  unfold compute_predictions, decoded.
  destruct (str_in (model_type a) ["xlnet"; "xlm"]).
  - eexists. split; [reflexivity|]. eexists. eexists. reflexivity.
  - eexists. split; [reflexivity|]. eexists. eexists. reflexivity.
Qed.

(** C7. When the evaluation set has been loaded and the model has been run
    over it (lines 305 to 386 return the examples [ex], the features [fs]
    and the results [rs]), and the data set is not empty, [evaluate]
    returns: its predictions are the value of the library's decoder,
    [compute_predictions_log_probs] for the model types xlnet and xlm and
    [compute_predictions_logits] for the others, applied to [ex], [fs] and
    [rs]; the decoder is the last call before [squad_evaluate]; and the
    value returned is the value of [squad_evaluate] on [ex] and those
    predictions. *)
Theorem evaluate_returns_library_scores (W : world) (a : args) (prefix : string)
    (t t1 : trace) (ds : dataset) (ex : examples) (fs : list feature)
    (rs : list squad_result) :
  collect_results W a t = (Ok (ds, ex, fs, rs), t1) ->
  len_dataset W ds <> 0%Z ->
  exists t2 arguments,
    let predictions := decoded W a prefix ex fs rs t1 in
    let decoder := if str_in (model_type a) ["xlnet"; "xlm"]
                   then "compute_predictions_log_probs"
                   else "compute_predictions_logits" in
    evaluate W a prefix t =
      (Ok (squad_evaluate W (t2 ++ [Call decoder arguments])%list ex predictions),
       (t2 ++ [Call decoder arguments;
               Call "squad_evaluate" ["examples"; "predictions"]])%list).
Proof.
  intros Hc Hlen.
  destruct (compute_predictions_decoded W a prefix ex fs rs t1)
    as (t' & Hp & pre & arguments & Ht').
  exists pre, arguments. cbv zeta.
  unfold evaluate. rewrite (bind_ok _ _ _ _ _ Hc).
  apply Z.eqb_neq in Hlen. rewrite Hlen.
  unfold bind at 1. unfold ret at 1.
  rewrite (bind_ok _ _ _ _ _ Hp). subst t'.
  unfold call_for. now rewrite <- app_assoc.
Qed.

Lemma evaluate_returns_library_scores_witness :
  fst (evaluate world_plain eval_args "" []) = Ok [("exact", 71%N); ("f1", 72%N)].
Proof.
  edestruct (evaluate_returns_library_scores world_plain eval_args "" [])
    as (t2 & arguments & H).
  - vm_compute. reflexivity.
  - vm_compute. discriminate.
  - cbv zeta in H. rewrite H. reflexivity.
Defined.

(** ** Which exceptions a run can raise *)

Section RaisesOnly.

Variable Q : exn -> Prop.

Lemma raises_only_ret {A} (a : A) : raises_only Q (ret a).
Proof. intros t e t' H. discriminate. Qed.

Lemma raises_only_raise {A} e : Q e -> raises_only Q (@raise A e).
Proof. intros HQ t e' t' H. inversion H. now subst. Qed.

Lemma raises_only_call fn arguments : raises_only Q (call fn arguments).
Proof. intros t e t' H. discriminate. Qed.

Lemma raises_only_call_for {A} fn arguments (v : trace -> A) :
  raises_only Q (call_for fn arguments v).
Proof. intros t e t' H. discriminate. Qed.

Lemma raises_only_probe {A} fn arguments (v : trace -> A) show :
  raises_only Q (probe fn arguments v show).
Proof. intros t e t' H. discriminate. Qed.

Lemma raises_only_read {A} (v : trace -> A) : raises_only Q (read v).
Proof. intros t e t' H. discriminate. Qed.

Lemma raises_only_bind {A B} (m : M A) (f : A -> M B) :
  raises_only Q m -> (forall a, raises_only Q (f a)) -> raises_only Q (bind m f).
Proof.
  intros Hm Hf t e t' H. unfold bind in H.
  destruct (m t) as [[a|e1] t1] eqn:E.
  - eapply Hf, H.
  - inversion H. subst. eapply Hm, E.
Qed.

Lemma raises_only_when c (m : M unit) :
  raises_only Q m -> raises_only Q (when c m).
Proof. intros H. destruct c; simpl; [assumption|apply raises_only_ret]. Qed.

End RaisesOnly.

Create HintDb raises.

#[local] Hint Resolve raises_only_ret raises_only_call raises_only_call_for
  raises_only_probe raises_only_read : raises.

(** One step of a proof that a run raises only what it may: split the
    sequence, close the primitive, or take the branch apart. *)
Ltac raises_step :=
  match goal with
  | |- raises_only _ (bind _ _) => apply raises_only_bind; [|intros ?]
  | |- raises_only _ (when _ _) => apply raises_only_when
  | |- raises_only _ (raise _) => apply raises_only_raise; exact I
  | |- raises_only _ (if ?c then _ else _) => destruct c
  | |- raises_only _ (match ?x with _ => _ end) => destruct x
  | |- raises_only _ _ => solve [auto with raises]
  end.

Ltac raises := repeat raises_step.

Section LaterExceptions.

Variable W : world.

Lemma set_seed_raises a : raises_only later_exn (set_seed a).
Proof. unfold set_seed. raises. Qed.

Lemma load_and_cache_examples_raises a ev oe :
  raises_only later_exn (load_and_cache_examples W a ev oe).
Proof. unfold load_and_cache_examples. raises. Qed.

Lemma has_lang2id_raises : raises_only later_exn (has_lang2id W).
Proof. unfold has_lang2id. raises. Qed.

Lemma squad_result_of_raises id output :
  raises_only later_exn (squad_result_of id output).
Proof. unfold squad_result_of. raises. Qed.

Hint Resolve set_seed_raises load_and_cache_examples_raises has_lang2id_raises
  squad_result_of_raises : raises.

Lemma eval_items_raises fs outputs i indices rs :
  raises_only later_exn (eval_items W fs outputs i indices rs).
Proof.
  revert i rs. induction indices as [|ix rest IH]; intros i rs; simpl; raises.
Qed.

Hint Resolve eval_items_raises : raises.

Lemma eval_loop_raises a fs batches rs :
  raises_only later_exn (eval_loop W a fs batches rs).
Proof.
  revert rs. induction batches as [|b rest IH]; intros rs; simpl; raises.
Qed.

Lemma compute_predictions_raises a prefix ex fs rs :
  raises_only later_exn (compute_predictions W a prefix ex fs rs).
Proof. unfold compute_predictions. raises. Qed.

Hint Resolve eval_loop_raises compute_predictions_raises : raises.

Lemma collect_results_raises a : raises_only later_exn (collect_results W a).
Proof. unfold collect_results. raises. Qed.

Hint Resolve collect_results_raises : raises.

Lemma evaluate_raises a prefix : raises_only later_exn (evaluate W a prefix).
Proof. unfold evaluate. raises. Qed.

Lemma save_checkpoint_raises a step : raises_only later_exn (save_checkpoint W a step).
Proof. unfold save_checkpoint. raises. Qed.

Lemma add_eval_scalars_raises results step :
  raises_only later_exn (add_eval_scalars results step).
Proof. induction results as [|[k v] rest IH]; simpl; raises. Qed.

Hint Resolve evaluate_raises save_checkpoint_raises add_eval_scalars_raises : raises.

Lemma log_metrics_raises a step : raises_only later_exn (log_metrics W a step).
Proof. unfold log_metrics. raises. Qed.

Hint Resolve log_metrics_raises : raises.

Lemma optimizer_update_raises a c : raises_only later_exn (optimizer_update W a c).
Proof. unfold optimizer_update. raises. Qed.

Hint Resolve optimizer_update_raises : raises.

Lemma uncertainty_block_raises keys outputs :
  raises_only later_exn (uncertainty_block keys outputs).
Proof. unfold uncertainty_block. raises. Qed.

Hint Resolve uncertainty_block_raises : raises.

Lemma train_batch_raises a u step c : raises_only later_exn (train_batch W a u step c).
Proof. unfold train_batch. raises. Qed.

Hint Resolve train_batch_raises : raises.

Lemma epoch_loop_raises a u steps c : raises_only later_exn (epoch_loop W a u steps c).
Proof. revert c. induction steps as [|s rest IH]; intros c; simpl; raises. Qed.

Hint Resolve epoch_loop_raises : raises.

Lemma epochs_loop_raises a u n steps c :
  raises_only later_exn (epochs_loop W a u n steps c).
Proof. revert c. induction n as [|n IH]; intros c; simpl; raises. Qed.

Lemma resume_raises a batches : raises_only later_exn (resume W a batches).
Proof. unfold resume. raises. Qed.

Hint Resolve epochs_loop_raises resume_raises : raises.

Lemma train_setup_raises a ds u : raises_only later_exn (train_setup W a ds u).
Proof. unfold train_setup. raises. Qed.

Hint Resolve train_setup_raises : raises.

Lemma train_raises a ds u : raises_only later_exn (train W a ds u).
Proof. unfold train. raises. Qed.

Lemma evaluate_checkpoints_raises a many cps results :
  raises_only later_exn (evaluate_checkpoints W a many cps results).
Proof.
  revert results. induction cps as [|cp rest IH]; intros results; simpl; raises.
Qed.

Hint Resolve train_raises evaluate_checkpoints_raises : raises.

(** What [main] does after the test of the output directory raises no
    [OutputDirNotEmpty]. *)
Lemma after_check_raises a (k : M (list (string * metric))) :
  k = (attach_debugger W a ;;
       gpus <- setup_devices W a ;;
       let a1 := set_n_gpu a gpus in
       set_seed a1 ;;
       let a := set_model_type a1 (lower (model_type a1)) in
       load_pretrained a ;;
       register_half W a ;;
       (if do_train a
        then '(train_dataset, _, _) <- load_and_cache_examples W a false false ;;
             train W a train_dataset (uncertainty_model a) ;;
             ret tt
        else ret tt) ;;
       save_trained W a ;;
       if do_eval a && first_process a
       then
         checkpoints <- checkpoints_to_evaluate W a ;;
         evaluate_checkpoints W a (1 <? List.length checkpoints)%nat checkpoints []
       else ret []) ->
  raises_only later_exn k.
Proof.
  intros ->.
  unfold attach_debugger, setup_devices, load_pretrained, register_half,
    save_trained, checkpoints_to_evaluate.
  raises.
Qed.

End LaterExceptions.

(** ** C8: the test of the output directory *)

Lemma main_unfold W a t :
  main W a t =
  bind (check_output_dir W a)
    (fun _ =>
       attach_debugger W a ;;
       gpus <- setup_devices W a ;;
       let a1 := set_n_gpu a gpus in
       set_seed a1 ;;
       let a := set_model_type a1 (lower (model_type a1)) in
       load_pretrained a ;;
       register_half W a ;;
       (if do_train a
        then '(train_dataset, _, _) <- load_and_cache_examples W a false false ;;
             train W a train_dataset (uncertainty_model a) ;;
             ret tt
        else ret tt) ;;
       save_trained W a ;;
       if do_eval a && first_process a
       then
         checkpoints <- checkpoints_to_evaluate W a ;;
         evaluate_checkpoints W a (1 <? List.length checkpoints)%nat checkpoints []
       else ret [])
    (t ++ [Call "get_parser" ["MODEL_TYPES"; "ALL_MODELS"];
           Call "parser.parse_args" []])%list.
Proof.
  unfold main. unfold bind at 1. unfold call at 1.
  unfold bind at 1. unfold call at 1.
  now rewrite <- app_assoc.
Qed.

Lemma check_output_dir_run W a t :
  check_output_dir W a t =
  let there := os_path_exists W t (output_dir a) in
  let t1 := (t ++ [Probe "os.path.exists" [output_dir a] (ABool there)])%list in
  if there
  then
    let entries := os_listdir W t1 (output_dir a) in
    let t2 := (t1 ++ [Probe "os.listdir" [output_dir a] (show_list_opt entries)])%list in
    match entries with
    | None => (Raise (ListdirFailed (output_dir a)), t2)
    | Some [] => (Ok tt, t2)
    | Some (_ :: _) =>
        if do_train a && negb (overwrite_output_dir a)
        then (Raise (OutputDirNotEmpty (output_dir a)), t2)
        else (Ok tt, t2)
    end
  else (Ok tt, t1).
Proof.
  unfold check_output_dir, bind, probe. cbv zeta.
  destruct (os_path_exists W t (output_dir a)); [|reflexivity].
  destruct (os_listdir W _ (output_dir a)) as [[|e es]|]; try reflexivity.
  destruct (do_train a && negb (overwrite_output_dir a)); reflexivity.
Qed.

(** C8 (amended). [main] raises the [ValueError] of line 527 exactly when
    the output directory exists, has an entry, [do_train] is set and
    [overwrite_output_dir] is not.  When it does, the trace holds, after the
    parsing of the arguments, the two questions about the directory and
    nothing else: no model, tokenizer or data set has been loaded and
    nothing has been written. *)
Theorem main_output_dir_error (W : world) (a : args) (t : trace) :
  (output_dir_in_use W a t = true <->
   exists t', main W a t = (Raise (OutputDirNotEmpty (output_dir a)), t'))
  /\ (forall d t',
        main W a t = (Raise (OutputDirNotEmpty d), t') ->
        d = output_dir a
        /\ calls t' = (calls t ++ [Call "get_parser" ["MODEL_TYPES"; "ALL_MODELS"];
                                   Call "parser.parse_args" []])%list
        /\ exists entries,
             t' = (t ++ [Call "get_parser" ["MODEL_TYPES"; "ALL_MODELS"];
                         Call "parser.parse_args" [];
                         Probe "os.path.exists" [output_dir a] (ABool true);
                         Probe "os.listdir" [output_dir a] (AList entries)])%list).
Proof.
  rewrite main_unfold. unfold output_dir_in_use.
  set (t1 := (t ++ [_; _])%list).
  match goal with |- context [bind _ ?k] => set (rest := k) end.
  assert (Hrest : forall t0 d t', rest tt t0 <> (Raise (OutputDirNotEmpty d), t')).
  { intros t0 d t' H.
    exact (after_check_raises W a (rest tt) eq_refl t0 _ _ H). }
  unfold bind. rewrite check_output_dir_run. cbv zeta.
  destruct (os_path_exists W t1 (output_dir a)) eqn:Ex; simpl.
  2:{ split; [split; [discriminate|]|]; [intros (t' & H)|intros d t' H];
      now apply Hrest in H. }
  destruct (os_listdir W _ (output_dir a)) as [[|e es]|] eqn:El; simpl.
  - split; [split; [discriminate|]|]; [intros (t' & H)|intros d t' H];
      now apply Hrest in H.
  - destruct (do_train a); simpl.
    2:{ split; [split; [discriminate|]|]; [intros (t' & H)|intros d t' H];
        now apply Hrest in H. }
    destruct (overwrite_output_dir a); simpl.
    { split; [split; [discriminate|]|]; [intros (t' & H)|intros d t' H];
        now apply Hrest in H. }
    split; [split; [intros _; eauto|reflexivity]|].
    intros d t' H. inversion H; subst. split; [reflexivity|]. split.
    + unfold t1, calls. rewrite <- !app_assoc, !filter_app. reflexivity.
    + exists (e :: es). unfold t1. now rewrite <- !app_assoc.
  - split; [split; [discriminate|]|]; [intros (t' & H)|intros d t' H];
      discriminate.
Qed.

Example output_dir_error_run :
  main world_out_filled train_args [] =
  (Raise (OutputDirNotEmpty "out"),
   [Call "get_parser" ["MODEL_TYPES"; "ALL_MODELS"];
    Call "parser.parse_args" [];
    Probe "os.path.exists" ["out"] (ABool true);
    Probe "os.listdir" ["out"] (AList ["pytorch_model.bin"])]).
Proof. reflexivity. Qed.

(** C8 as stated fails in the direction from the error to the directory:
    with [--do_eval] alone, an output directory that does not exist and a
    model that returns three tensors, the assignment
    [start_logits, end_logits = output] of line 381 raises a [ValueError]. *)
Lemma value_error_without_output_dir :
  fst (main world_three_outputs eval_args []) = Raise (UnpackMismatch 3)
  /\ class_of (UnpackMismatch 3) = ValueError
  /\ output_dir_in_use world_three_outputs eval_args [] = false
  /\ do_train eval_args = false.
Proof. repeat split; vm_compute; reflexivity. Qed.

(** ** C6: what decides the branches *)

(** C6 as stated fails: with the same arguments, on two machines that
    differ only in whether the file of cached features exists, the driver
    makes different calls, [torch.load] on one and the processor and the
    feature conversion on the other.  And on two machines that differ only
    in the training set, served in two batches on one and in three on the
    other, the driver makes two optimizer updates on one and three on the
    other. *)
Lemma calls_depend_on_file_system :
  calls (snd (main world_plain eval_args []))
  <> calls (snd (main world_cached eval_args []))
  /\ existsb (event_eqb (Call "torch.load" ["data/cached_dev_bert-base-uncased_384"]))
       (snd (main world_cached eval_args [])) = true
  /\ existsb (event_eqb (Call "torch.load" ["data/cached_dev_bert-base-uncased_384"]))
       (snd (main world_plain eval_args [])) = false
  /\ calls (snd (main world_plain train_args []))
     <> calls (snd (main world_more_batches train_args []))
  /\ List.length (filter is_update (snd (main world_plain train_args []))) = 2%nat
  /\ List.length (filter is_update (snd (main world_more_batches train_args [])))
     = 3%nat.
Proof.
  split; [intros H; vm_compute in H; discriminate H|].
  split; [vm_compute; reflexivity|]. split; [vm_compute; reflexivity|].
  split; [intros H; vm_compute in H; discriminate H|].
  split; vm_compute; reflexivity.
Qed.


(** ** C9: checkpoints during training *)

(** *** What a run adds to the trace *)

Section Extends.

Variable P : event -> bool.

Lemma extends_ret {A} (a : A) : extends P (ret a).
Proof.
  intros t r t' H. inversion H; subst. exists []. now rewrite app_nil_r.
Qed.

Lemma extends_raise {A} e : extends P (@raise A e).
Proof.
  intros t r t' H. inversion H; subst. exists []. now rewrite app_nil_r.
Qed.

Lemma extends_read {A} (v : trace -> A) : extends P (read v).
Proof.
  intros t r t' H. inversion H; subst. exists []. now rewrite app_nil_r.
Qed.

Lemma extends_call fn arguments :
  P (Call fn arguments) = true -> extends P (call fn arguments).
Proof.
  intros HP t r t' H. inversion H; subst. eexists. split; [reflexivity|].
  simpl. now rewrite HP.
Qed.

Lemma extends_call_for {A} fn arguments (v : trace -> A) :
  P (Call fn arguments) = true -> extends P (call_for fn arguments v).
Proof.
  intros HP t r t' H. inversion H; subst. eexists. split; [reflexivity|].
  simpl. now rewrite HP.
Qed.

Lemma extends_probe {A} fn arguments (v : trace -> A) show :
  (forall x, P (Probe fn arguments x) = true) ->
  extends P (probe fn arguments v show).
Proof.
  intros HP t r t' H. inversion H; subst. eexists. split; [reflexivity|].
  simpl. now rewrite HP.
Qed.

Lemma extends_bind {A B} (m : M A) (f : A -> M B) :
  extends P m -> (forall a, extends P (f a)) -> extends P (bind m f).
Proof.
  intros Hm Hf t r t' H. unfold bind in H.
  destruct (m t) as [[a|e] t1] eqn:E;
    destruct (Hm _ _ _ E) as (d1 & -> & H1).
  - destruct (Hf _ _ _ _ H) as (d2 & -> & H2).
    exists (d1 ++ d2)%list. rewrite app_assoc, forallb_app, H1, H2. now split.
  - inversion H; subst. now exists d1.
Qed.

Lemma extends_when c (m : M unit) : extends P m -> extends P (when c m).
Proof. intros H. destruct c; simpl; [assumption|apply extends_ret]. Qed.

End Extends.

Ltac quiet_event :=
  match goal with
  | |- quiet (Call (if ?c then _ else _) _) = true => destruct c; reflexivity
  | |- _ => reflexivity
  end.

Create HintDb quiet.

#[local] Hint Resolve extends_ret extends_raise extends_read : quiet.

Ltac quiet_step :=
  match goal with
  | |- extends _ (bind _ _) => apply extends_bind; [|intros ?]
  | |- extends _ (when _ _) => apply extends_when
  | |- extends _ (call _ _) => apply extends_call; quiet_event
  | |- extends _ (call_for _ _ _) => apply extends_call_for; quiet_event
  | |- extends _ (probe _ _ _ _) => apply extends_probe; intros ?; reflexivity
  | |- extends _ (if ?c then _ else _) => destruct c
  | |- extends _ (match ?x with _ => _ end) => destruct x
  | |- extends _ _ => solve [auto with quiet]
  end.

Ltac quiet_run := repeat quiet_step.

Section QuietRuns.

Variable W : world.

Lemma set_seed_quiet a : extends quiet (set_seed a).
Proof. unfold set_seed. quiet_run. Qed.

Lemma load_and_cache_examples_quiet a ev oe :
  extends quiet (load_and_cache_examples W a ev oe).
Proof. unfold load_and_cache_examples. quiet_run. Qed.

Lemma has_lang2id_quiet : extends quiet (has_lang2id W).
Proof. unfold has_lang2id. quiet_run. Qed.

Lemma squad_result_of_quiet id output : extends quiet (squad_result_of id output).
Proof. unfold squad_result_of. quiet_run. Qed.

Hint Resolve set_seed_quiet load_and_cache_examples_quiet has_lang2id_quiet
  squad_result_of_quiet : quiet.

Lemma eval_items_quiet fs outputs i indices rs :
  extends quiet (eval_items W fs outputs i indices rs).
Proof.
  revert i rs. induction indices as [|ix rest IH]; intros i rs; simpl; quiet_run.
Qed.

Hint Resolve eval_items_quiet : quiet.

Lemma eval_loop_quiet a fs batches rs :
  extends quiet (eval_loop W a fs batches rs).
Proof.
  revert rs. induction batches as [|b rest IH]; intros rs; simpl; quiet_run.
Qed.

Lemma compute_predictions_quiet a prefix ex fs rs :
  extends quiet (compute_predictions W a prefix ex fs rs).
Proof. unfold compute_predictions. quiet_run. Qed.

Hint Resolve eval_loop_quiet compute_predictions_quiet : quiet.

Lemma collect_results_quiet a : extends quiet (collect_results W a).
Proof. unfold collect_results. quiet_run. Qed.

Hint Resolve collect_results_quiet : quiet.

Lemma evaluate_quiet a prefix : extends quiet (evaluate W a prefix).
Proof. unfold evaluate. quiet_run. Qed.

Lemma add_eval_scalars_quiet results step :
  extends quiet (add_eval_scalars results step).
Proof. induction results as [|[k v] rest IH]; simpl; quiet_run. Qed.

Hint Resolve evaluate_quiet add_eval_scalars_quiet : quiet.

Lemma log_metrics_quiet a step : extends quiet (log_metrics W a step).
Proof. unfold log_metrics. quiet_run. Qed.

Hint Resolve log_metrics_quiet : quiet.

Lemma uncertainty_block_quiet keys outputs :
  extends quiet (uncertainty_block keys outputs).
Proof. unfold uncertainty_block. quiet_run. Qed.

Lemma resume_quiet a batches : extends quiet (resume W a batches).
Proof. unfold resume. quiet_run. Qed.

Hint Resolve uncertainty_block_quiet resume_quiet : quiet.

Lemma train_setup_quiet a ds u : extends quiet (train_setup W a ds u).
Proof. unfold train_setup. quiet_run. Qed.

End QuietRuns.

#[local] Hint Resolve set_seed_quiet load_and_cache_examples_quiet has_lang2id_quiet
  squad_result_of_quiet eval_items_quiet eval_loop_quiet compute_predictions_quiet
  collect_results_quiet evaluate_quiet add_eval_scalars_quiet log_metrics_quiet
  uncertainty_block_quiet resume_quiet train_setup_quiet : quiet.

(** *** The watch over a run *)

Lemma watch_trace_app a w d1 d2 :
  watch_trace a w (d1 ++ d2) = watch_trace a (watch_trace a w d1) d2.
Proof. apply fold_left_app. Qed.

Lemma quiet_not_update e : quiet e = true -> is_update e = false.
Proof.
  destruct e as [fn args|]; [|reflexivity]. unfold quiet, is_update, str_in.
  simpl. destruct (String.eqb fn "optimizer.step"); [discriminate|reflexivity].
Qed.

Lemma quiet_not_model_save e dir : quiet e = true -> checkpoint_write dir 0 e = false.
Proof.
  destruct e as [fn args|]; [|reflexivity]. unfold quiet, str_in. simpl.
  destruct (String.eqb fn "optimizer.step"); [discriminate|].
  destruct (String.eqb fn "model.save_pretrained"); [discriminate|].
  destruct (String.eqb fn "model.module.save_pretrained"); [discriminate|reflexivity].
Qed.

Lemma watch_quiet a w d :
  forallb quiet d = true -> pending w = None \/ pending w = Some 0%nat ->
  watch_trace a (Some w) d = Some w.
Proof.
  intros Hq Hp. induction d as [|e d IH]; [reflexivity|].
  simpl in Hq. apply andb_true_iff in Hq as [He Hd].
  unfold watch_trace in *. simpl.
  rewrite (quiet_not_update e He).
  destruct Hp as [Hp|Hp]; rewrite Hp.
  - now apply IH.
  - rewrite (quiet_not_model_save e _ He). now apply IH.
Qed.

Lemma quiet_watched a {A} (m : M A) :
  extends quiet m -> forall g, watched a g m (fun _ => g).
Proof.
  intros Hm g t r t' H. destruct (Hm _ _ _ H) as (d & -> & Hq).
  exists d. split; [reflexivity|].
  assert (Hw := watch_quiet a (mkWatch g None) d Hq (or_introl eq_refl)).
  destruct r; eauto.
Qed.

Lemma watched_bind a {A B} g (m : M A) g1 (f : A -> M B) g2 :
  watched a g m g1 -> (forall x, watched a (g1 x) (f x) g2) ->
  watched a g (bind m f) g2.
Proof.
  intros Hm Hf t r t' H. unfold bind in H.
  destruct (m t) as [[x|e] t1] eqn:E; destruct (Hm _ _ _ E) as (d1 & -> & H1).
  - destruct (Hf _ _ _ _ H) as (d2 & -> & H2).
    exists (d1 ++ d2)%list. rewrite app_assoc, watch_trace_app, H1. now split.
  - inversion H; subst. now exists d1.
Qed.

Lemma watched_ret a {A} g (x : A) g' : g' x = g -> watched a g (ret x) g'.
Proof.
  intros Hg t r t' H. inversion H; subst. exists [].
  rewrite app_nil_r. now split.
Qed.

Lemma watched_raise a {A} g e (g' : A -> Z) : watched a g (raise e) g'.
Proof.
  intros t r t' H. inversion H; subst. exists [].
  rewrite app_nil_r. split; [reflexivity|]. now eexists.
Qed.

Lemma bind_call {B} fn arguments (f : unit -> M B) t :
  bind (call fn arguments) f t = f tt (t ++ [Call fn arguments])%list.
Proof. reflexivity. Qed.

(** The four calls of lines 253 to 260. *)
Lemma watch_update a g clipped :
  watch_trace a (Some (mkWatch g None))
    [Call "torch.nn.utils.clip_grad_norm_" [clipped]; Call "optimizer.step" [];
     Call "scheduler.step" []; Call "model.zero_grad" []] =
  Some (mkWatch (g + 1) (if checkpoint_due a (g + 1) then Some 0%nat else None)).
Proof.
  unfold watch_trace. simpl. destruct (checkpoint_due a (g + 1)); reflexivity.
Qed.

(** What [save_checkpoint] adds to the trace. *)
Lemma save_checkpoint_run W a step t :
  exists there wrapped,
    save_checkpoint W a step t =
    (Ok tt,
     (t ++ Probe "os.path.exists" [checkpoint_dir a step] (ABool there)
        :: (if there then [] else [Call "os.makedirs" [checkpoint_dir a step]])
        ++ checkpoint_writes (checkpoint_dir a step) wrapped)%list).
Proof.
  unfold save_checkpoint, bind, probe, when, call, ret. cbv zeta.
  destruct (os_path_exists W t (checkpoint_dir a step)); simpl;
    [exists true|exists false]; eexists; rewrite <- !app_assoc; reflexivity.
Qed.

Lemma watch_checkpoint a g there wrapped :
  watch_trace a (Some (mkWatch g (Some 0%nat)))
    (Probe "os.path.exists" [checkpoint_dir a g] (ABool there)
       :: (if there then [] else [Call "os.makedirs" [checkpoint_dir a g]])
       ++ checkpoint_writes (checkpoint_dir a g) wrapped) =
  Some (mkWatch g None).
Proof.
  unfold watch_trace, checkpoint_writes.
  destruct there, wrapped;
    repeat (progress (simpl; rewrite ?String.eqb_refl)); reflexivity.
Qed.

Section WatchedRuns.

Variable W : world.
Variable a : args.

Lemma optimizer_update_watched c :
  watched a (global_step c) (optimizer_update W a c) global_step.
Proof.
  intros t r t' H. unfold optimizer_update in H.
  rewrite !bind_call in H. cbv zeta in H.
  set (g := (global_step c + 1)%Z) in *.
  set (upd := [Call "torch.nn.utils.clip_grad_norm_"
                 [if fp16 a then "amp.master_params(optimizer)" else "model.parameters()"];
               Call "optimizer.step" []; Call "scheduler.step" [];
               Call "model.zero_grad" []]).
  match type of H with
  | bind _ _ ?t4 = _ => replace t4 with (t ++ upd) in H
      by (unfold upd; now rewrite <- !app_assoc)
  end.
  assert (Hu := watch_update a (global_step c)
                  (if fp16 a then "amp.master_params(optimizer)" else "model.parameters()")).
  fold upd g in Hu.
  unfold bind at 1 in H.
  destruct (log_metrics W a g (t ++ upd)) as [[[]|e] t5] eqn:El;
    destruct (log_metrics_quiet W a g _ _ _ El) as (dl & -> & Hq).
  - fold (checkpoint_due a g) in H. unfold bind in H.
    destruct (checkpoint_due a g) eqn:Hd; simpl in H.
    + destruct (save_checkpoint_run W a g ((t ++ upd) ++ dl)) as (there & wrapped & Hs).
      rewrite Hs in H. inversion H; subst r t'. clear H.
      eexists (upd ++ dl ++ _). split; [now rewrite <- !app_assoc|].
      rewrite watch_trace_app, Hu.
      rewrite watch_trace_app, (watch_quiet _ _ _ Hq) by (now right).
      apply watch_checkpoint.
    + inversion H; subst r t'. clear H.
      exists (upd ++ dl). split; [now rewrite <- !app_assoc|].
      rewrite watch_trace_app, Hu.
      now rewrite (watch_quiet _ _ _ Hq) by (now left).
  - inversion H; subst r t'. clear H.
    exists (upd ++ dl). split; [now rewrite <- !app_assoc|].
    rewrite watch_trace_app, Hu.
    eexists. apply watch_quiet; [assumption|].
    destruct (checkpoint_due a g); auto.
Qed.

(** A part of a run that is quiet leaves the watch where it is. *)
Ltac watched_quiet :=
  match goal with
  | |- watched _ ?g (bind _ _) _ =>
      apply (watched_bind _ g _ (fun _ => g));
      [apply quiet_watched; quiet_run; auto with quiet|intros ?]
  end.

Lemma train_batch_watched u step c :
  watched a (global_step c) (train_batch W a u step c) global_step.
Proof.
  unfold train_batch.
  do 4 watched_quiet.
  match goal with |- watched _ _ (match ?o with _ => _ end) _ => destruct o end;
    [apply watched_raise|].
  do 2 watched_quiet.
  destruct (gradient_accumulation_steps a =? 0)%Z; [apply watched_raise|].
  destruct ((step + 1) mod gradient_accumulation_steps a =? 0)%Z.
  - apply optimizer_update_watched.
  - now apply watched_ret.
Qed.

Lemma epoch_loop_watched u steps c :
  watched a (global_step c) (epoch_loop W a u steps c) global_step.
Proof.
  revert c. induction steps as [|step rest IH]; intros c; simpl.
  - now apply watched_ret.
  - destruct (steps_trained_in_current_epoch c >? 0)%Z.
    + apply (IH (mkCounters (global_step c) (steps_trained_in_current_epoch c - 1))).
    + apply (watched_bind _ _ _ global_step); [apply train_batch_watched|].
      intros c'. destruct (past_max_steps a c'); [now apply watched_ret|apply IH].
Qed.

Lemma epochs_loop_watched u n steps c :
  watched a (global_step c) (epochs_loop W a u n steps c) global_step.
Proof.
  revert c. induction n as [|n IH]; intros c; simpl.
  - now apply watched_ret.
  - apply (watched_bind _ _ _ global_step); [apply epoch_loop_watched|].
    intros c'. destruct (past_max_steps a c'); [now apply watched_ret|apply IH].
Qed.

Lemma resume_start batches t c0 trained t' :
  resume W a batches t = (Ok (c0, trained), t') -> start_of a (global_step c0).
Proof.
  unfold resume, bind, probe, ret, raise, start_of.
  destruct (os_path_exists W t (model_name_or_path a)).
  - destruct (py_int _) as [step|] eqn:E.
    + destruct (_ || _); intros H; inversion H; subst. now right.
    + intros H; inversion H; subst. now left.
  - intros H; inversion H; subst. now left.
Qed.

Lemma returns_bind {A B} (Q : B -> Prop) (m : M A) (f : A -> M B) :
  (forall x, returns_only Q (f x)) -> returns_only Q (bind m f).
Proof.
  intros Hf t y t' H. apply bind_inv_ok in H as (x & t1 & _ & H). eapply Hf, H.
Qed.

Lemma returns_bind_from {A B} (P : A -> Prop) (Q : B -> Prop) (m : M A) (f : A -> M B) :
  returns_only P m -> (forall x, P x -> returns_only Q (f x)) ->
  returns_only Q (bind m f).
Proof.
  intros Hm Hf t y t' H. apply bind_inv_ok in H as (x & t1 & Hx & H).
  eapply Hf; [eapply Hm, Hx|apply H].
Qed.

Lemma returns_ret {A} (Q : A -> Prop) (x : A) : Q x -> returns_only Q (ret x).
Proof. intros HQ t y t' H. inversion H. now subst. Qed.

Lemma train_setup_start ds u :
  returns_only (fun x => start_of a (global_step (snd (fst (fst x)))))
    (train_setup W a ds u).
Proof.
  unfold train_setup.
  repeat match goal with
         | |- returns_only _ (bind (resume _ _ _) _) => fail 1
         | |- returns_only _ (bind _ _) => apply returns_bind; intros ?
         | |- returns_only _ (match ?x with _ => _ end) => destruct x
         end.
  apply (returns_bind_from (fun x => start_of a (global_step (fst x)))).
  { intros t [c0 trained] t' H. simpl. eapply resume_start, H. }
  intros [c0 trained] Hs. simpl in Hs.
  do 2 (apply returns_bind; intros ?). now apply returns_ret.
Qed.

(** C9 (amended). In every run of [train] that returns, [global_step]
    starts at [g0], which is 1 or the number at the end of the name of the
    checkpoint the model was loaded from, and grows by one with each
    optimizer update; on a process with [local_rank] in [-1, 0] and with
    [save_steps > 0], every update that brings [global_step] to a multiple
    of [save_steps] is followed, before the next update and before [train]
    returns, by the writing of the model, the tokenizer, the training
    arguments, the optimizer state and the scheduler state, in this order,
    into [output_dir/checkpoint-<global_step>]; [train] returns the last
    value of [global_step]. *)
Theorem checkpoints_follow_updates (ds : dataset) (u : bool) (t t' : trace) (g : Z) :
  train W a ds u t = (Ok g, t') ->
  exists g0 d,
    start_of a g0
    /\ t' = t ++ d
    /\ watch_trace a (Some (mkWatch g0 None)) d = Some (mkWatch g None).
Proof.
  intros H. unfold train in H.
  apply bind_inv_ok in H as ([[[[n epochs] c0] trained] unc] & t1 & Hs & H).
  pose proof (train_setup_start ds u _ _ _ Hs) as Hstart. simpl in Hstart.
  destruct (train_setup_quiet W a ds u _ _ _ Hs) as (d1 & -> & Hq1).
  assert (Hw : watched a (global_step c0)
                 (c <- epochs_loop W a unc (Z.to_nat (epochs - trained)) (range n) c0 ;;
                  when (first_process a) (call "tb_writer.close" []) ;;
                  if (global_step c =? 0)%Z then raise (DivisionByZero 301)
                  else ret (global_step c))
                 (fun g => g)).
  { apply (watched_bind _ _ _ global_step); [apply epochs_loop_watched|].
    intros c. watched_quiet.
    destruct (global_step c =? 0)%Z; [apply watched_raise|now apply watched_ret]. }
  destruct (Hw _ _ _ H) as (d2 & -> & H2).
  exists (global_step c0), (d1 ++ d2). split; [assumption|].
  split; [now rewrite app_assoc|].
  rewrite watch_trace_app, (watch_quiet _ _ _ Hq1) by (now left). exact H2.
Qed.

End WatchedRuns.

(** A run of two updates with [save_steps = 2]: the watch passes from
    [global_step = 1] to 3. *)
Example two_updates_watched :
  watch_trace train_args (Some (mkWatch 1 None))
    (snd (train world_plain train_args 10%N false [])) = Some (mkWatch 3 None).
Proof. vm_compute. reflexivity. Qed.

Lemma checkpoints_follow_updates_witness :
  exists g0 d,
    start_of train_args g0
    /\ snd (train world_plain train_args 10%N false []) = [] ++ d
    /\ watch_trace train_args (Some (mkWatch g0 None)) d = Some (mkWatch 3 None).
Proof.
  apply (checkpoints_follow_updates world_plain train_args 10%N false []).
  vm_compute. reflexivity.
Defined.

(** C9 as stated fails: with [save_steps = 2] and a fresh start, the first
    update brings [global_step] from 1 to 2 and is followed by the writing
    of [out/checkpoint-2]; the second update, which is the [save_steps]-th,
    brings it to 3 and is followed by no write at all. *)
Lemma second_update_writes_nothing :
  save_steps train_args = 2%Z
  /\ first_process train_args = true
  /\ fst (train world_plain train_args 10%N false []) = Ok 3%Z
  /\ map saves_anything
       (after_updates (snd (train world_plain train_args 10%N false [])))
     = [true; false]
  /\ map (saves_model_to "out/checkpoint-2")
       (after_updates (snd (train world_plain train_args 10%N false [])))
     = [true; false].
Proof. repeat split; vm_compute; reflexivity. Qed.

(** ** C6: runs side by side *)

Lemma before_refl t : before t t.
Proof. exists []. now rewrite app_nil_r. Qed.

Lemma before_app t d : before t (t ++ d).
Proof. now exists d. Qed.

Lemma before_trans t1 t2 t3 : before t1 t2 -> before t2 t3 -> before t1 t3.
Proof. intros [d1 ->] [d2 ->]. exists (d1 ++ d2). now rewrite app_assoc. Qed.

Lemma grows_before {A} (m : M A) t : extends any_event m -> before t (snd (m t)).
Proof.
  intros H. destruct (m t) as [r t'] eqn:E.
  destruct (H _ _ _ E) as (d & -> & _). apply before_app.
Qed.

Lemma differ_app_l d d1 d2 :
  differ_at_probe d1 d2 -> differ_at_probe (d ++ d1) (d ++ d2).
Proof.
  intros (c & fn & ar & x1 & x2 & r1 & r2 & -> & -> & Hx).
  exists (d ++ c), fn, ar, x1, x2, r1, r2. now rewrite !app_assoc.
Qed.

Lemma differ_app_r d1 d2 e1 e2 :
  differ_at_probe d1 d2 -> differ_at_probe (d1 ++ e1) (d2 ++ e2).
Proof.
  intros (c & fn & ar & x1 & x2 & r1 & r2 & -> & -> & Hx).
  exists c, fn, ar, x1, x2, (r1 ++ e1), (r2 ++ e2).
  now rewrite <- !app_assoc.
Qed.

Lemma answer_eq_dec (x y : answer) : {x = y} + {x <> y}.
Proof.
  decide equality;
    [apply Bool.bool_dec|apply Z.eq_dec|apply (list_eq_dec string_dec)].
Qed.

(** *** Every run of the driver only adds to the trace *)

Create HintDb grows.

#[local] Hint Resolve extends_ret extends_raise extends_read : grows.

Ltac grows_step :=
  match goal with
  | |- extends _ (bind _ _) => apply extends_bind; [|intros ?]
  | |- extends _ (when _ _) => apply extends_when
  | |- extends _ (call _ _) => apply extends_call; reflexivity
  | |- extends _ (call_for _ _ _) => apply extends_call_for; reflexivity
  | |- extends _ (probe _ _ _ _) => apply extends_probe; intros ?; reflexivity
  | |- extends _ (if ?c then _ else _) => destruct c
  | |- extends _ (match ?x with _ => _ end) => destruct x
  | |- extends _ _ => solve [auto with grows]
  end.

Ltac grows := cbv zeta; repeat grows_step.

Section Grows.

Variable W : world.

Lemma set_seed_grows a : extends any_event (set_seed a).
Proof. unfold set_seed. grows. Qed.

Lemma load_and_cache_examples_grows a ev oe :
  extends any_event (load_and_cache_examples W a ev oe).
Proof. unfold load_and_cache_examples. grows. Qed.

Lemma has_lang2id_grows : extends any_event (has_lang2id W).
Proof. unfold has_lang2id. grows. Qed.

Lemma squad_result_of_grows id output : extends any_event (squad_result_of id output).
Proof. unfold squad_result_of. grows. Qed.

Hint Resolve set_seed_grows load_and_cache_examples_grows has_lang2id_grows
  squad_result_of_grows : grows.

Lemma eval_items_grows fs outputs i indices rs :
  extends any_event (eval_items W fs outputs i indices rs).
Proof.
  revert i rs. induction indices as [|ix rest IH]; intros i rs; simpl; grows.
Qed.

Hint Resolve eval_items_grows : grows.

Lemma eval_loop_grows a fs batches rs :
  extends any_event (eval_loop W a fs batches rs).
Proof.
  revert rs. induction batches as [|b rest IH]; intros rs; simpl; grows.
Qed.

Lemma compute_predictions_grows a prefix ex fs rs :
  extends any_event (compute_predictions W a prefix ex fs rs).
Proof. unfold compute_predictions. grows. Qed.

Hint Resolve eval_loop_grows compute_predictions_grows : grows.

Lemma collect_results_grows a : extends any_event (collect_results W a).
Proof. unfold collect_results. grows. Qed.

Hint Resolve collect_results_grows : grows.

Lemma evaluate_grows a prefix : extends any_event (evaluate W a prefix).
Proof. unfold evaluate. grows. Qed.

Lemma add_eval_scalars_grows results step :
  extends any_event (add_eval_scalars results step).
Proof. induction results as [|[k v] rest IH]; simpl; grows. Qed.

Lemma save_checkpoint_grows a step : extends any_event (save_checkpoint W a step).
Proof. unfold save_checkpoint. grows. Qed.

Hint Resolve evaluate_grows add_eval_scalars_grows save_checkpoint_grows : grows.

Lemma log_metrics_grows a step : extends any_event (log_metrics W a step).
Proof. unfold log_metrics. grows. Qed.

Hint Resolve log_metrics_grows : grows.

Lemma optimizer_update_grows a c : extends any_event (optimizer_update W a c).
Proof. unfold optimizer_update. grows. Qed.

Lemma uncertainty_block_grows keys outputs :
  extends any_event (uncertainty_block keys outputs).
Proof. unfold uncertainty_block. grows. Qed.

Hint Resolve optimizer_update_grows uncertainty_block_grows : grows.

Lemma train_batch_grows a u step c : extends any_event (train_batch W a u step c).
Proof. unfold train_batch. grows. Qed.

Hint Resolve train_batch_grows : grows.

Lemma epoch_loop_grows a u steps c : extends any_event (epoch_loop W a u steps c).
Proof. revert c. induction steps as [|s rest IH]; intros c; simpl; grows. Qed.

Hint Resolve epoch_loop_grows : grows.

Lemma epochs_loop_grows a u n steps c :
  extends any_event (epochs_loop W a u n steps c).
Proof. revert c. induction n as [|n IH]; intros c; simpl; grows. Qed.

Lemma resume_grows a batches : extends any_event (resume W a batches).
Proof. unfold resume. grows. Qed.

Hint Resolve epochs_loop_grows resume_grows : grows.

Lemma train_setup_grows a ds u : extends any_event (train_setup W a ds u).
Proof. unfold train_setup. grows. Qed.

Hint Resolve train_setup_grows : grows.

Lemma train_grows a ds u : extends any_event (train W a ds u).
Proof. unfold train. grows. Qed.

Lemma check_output_dir_grows a : extends any_event (check_output_dir W a).
Proof. unfold check_output_dir. grows. Qed.

Lemma attach_debugger_grows a : extends any_event (attach_debugger W a).
Proof. unfold attach_debugger. grows. Qed.

Lemma setup_devices_grows a : extends any_event (setup_devices W a).
Proof. unfold setup_devices. grows. Qed.

Lemma load_pretrained_grows a : extends any_event (load_pretrained a).
Proof. unfold load_pretrained. grows. Qed.

Lemma register_half_grows a : extends any_event (register_half W a).
Proof. unfold register_half. grows. Qed.

Lemma save_trained_grows a : extends any_event (save_trained W a).
Proof. unfold save_trained. grows. Qed.

Lemma checkpoints_to_evaluate_grows a : extends any_event (checkpoints_to_evaluate W a).
Proof. unfold checkpoints_to_evaluate. grows. Qed.

Lemma evaluate_checkpoints_grows a many cps results :
  extends any_event (evaluate_checkpoints W a many cps results).
Proof.
  revert results. induction cps as [|cp rest IH]; intros results; simpl; grows.
Qed.

Hint Resolve train_grows check_output_dir_grows attach_debugger_grows
  setup_devices_grows load_pretrained_grows register_half_grows save_trained_grows
  checkpoints_to_evaluate_grows evaluate_checkpoints_grows : grows.

Lemma main_grows a : extends any_event (main W a).
Proof. unfold main. grows. Qed.

End Grows.

#[local] Hint Resolve set_seed_grows load_and_cache_examples_grows has_lang2id_grows
  squad_result_of_grows eval_items_grows eval_loop_grows compute_predictions_grows
  collect_results_grows evaluate_grows add_eval_scalars_grows save_checkpoint_grows
  log_metrics_grows optimizer_update_grows uncertainty_block_grows train_batch_grows
  epoch_loop_grows epochs_loop_grows resume_grows train_setup_grows train_grows
  check_output_dir_grows attach_debugger_grows setup_devices_grows
  load_pretrained_grows register_half_grows save_trained_grows
  checkpoints_to_evaluate_grows evaluate_checkpoints_grows main_grows : grows.

(** *** Runs in step *)

Section InStep.

Variable S : trace -> Prop.

Lemma in_step_same {A} (R : A -> A -> Prop) (m : M A) :
  (forall x, R x x) -> in_step S R m m.
Proof.
  intros HR t _. left. split; [reflexivity|].
  destruct (fst (m t)); simpl; auto.
Qed.

Lemma in_step_ret {A} (R : A -> A -> Prop) (x y : A) :
  R x y -> in_step S R (ret x) (ret y).
Proof. intros HR t _. left. now split. Qed.

Lemma in_step_raise {A} (R : A -> A -> Prop) e : in_step S R (raise e) (raise e).
Proof. intros t _. left. now split. Qed.

Lemma in_step_call_for {A} (R : A -> A -> Prop) fn arguments (v1 v2 : trace -> A) :
  (forall t, S t -> R (v1 t) (v2 t)) ->
  in_step S R (call_for fn arguments v1) (call_for fn arguments v2).
Proof.
  intros Hv t HS. left. split; [reflexivity|]. simpl. apply Hv, HS.
  unfold along. split; [apply before_refl|split; apply before_app].
Qed.

Lemma in_step_read {A} (R : A -> A -> Prop) (v1 v2 : trace -> A) :
  (forall t, S t -> R (v1 t) (v2 t)) -> in_step S R (read v1) (read v2).
Proof.
  intros Hv t HS. left. split; [reflexivity|]. simpl. apply Hv, HS.
  unfold along. split; [|split]; apply before_refl.
Qed.

Lemma in_step_probe {A} fn arguments (v1 v2 : trace -> A) show :
  (forall x y, show x = show y -> x = y) ->
  in_step S eq (probe fn arguments v1 show) (probe fn arguments v2 show).
Proof.
  intros Hshow t _. unfold probe. simpl.
  destruct (answer_eq_dec (show (v1 t)) (show (v2 t))) as [E|E].
  - left. rewrite E. split; [reflexivity|]. now apply Hshow.
  - right. exists [Probe fn arguments (show (v1 t))], [Probe fn arguments (show (v2 t))].
    repeat split.
    exists [], fn, arguments, (show (v1 t)), (show (v2 t)), [], []. now repeat split.
Qed.

Lemma in_step_bind {A B} (R : A -> A -> Prop) (R' : B -> B -> Prop)
    (m1 m2 : M A) (f1 f2 : A -> M B) :
  extends any_event m1 ->
  (forall x, extends any_event (f1 x)) ->
  (forall y, extends any_event (f2 y)) ->
  in_step S R m1 m2 ->
  (forall x y, R x y -> in_step S R' (f1 x) (f2 y)) ->
  in_step S R' (bind m1 f1) (bind m2 f2).
Proof.
  intros Hm1 Hf1 Hf2 Hm Hf t HS. unfold bind, in_step, along in *.
  pose proof (grows_before m1 t Hm1) as B0.
  specialize (Hm t).
  destruct (m1 t) as [r1 t1] eqn:E1, (m2 t) as [r2 t2] eqn:E2. simpl in Hm, B0.
  assert (B1 : before t1 (snd (match r1 with
                               | Ok a => f1 a t1
                               | Raise e => (Raise e, t1)
                               end))).
  { destruct r1; [now apply grows_before|apply before_refl]. }
  assert (B2 : before t2 (snd (match r2 with
                               | Ok a => f2 a t2
                               | Raise e => (Raise e, t2)
                               end))).
  { destruct r2; [now apply grows_before|apply before_refl]. }
  destruct Hm as [[<- Ho]|(d1 & d2 & -> & -> & Hd)].
  - intros t' (Ha & Hb & Hc). apply HS. split; [assumption|split].
    + exact (before_trans _ _ _ Hb B1).
    + exact (before_trans _ _ _ Hc B2).
  - destruct r1 as [x|e1], r2 as [y|e2]; simpl in Ho; try contradiction.
    + destruct (Hf x y Ho t1) as [HL|(d1 & d2 & H1 & H2 & Hd)].
      * intros t' (Ha & Hb & Hc). apply HS. split; [|split; assumption].
        exact (before_trans _ _ _ B0 Ha).
      * now left.
      * right. destruct B0 as [d ->].
        exists (d ++ d1), (d ++ d2). rewrite H1, H2, !app_assoc.
        repeat split. now apply differ_app_l.
    + left. now split.
  - right. destruct B1 as [e1 ->], B2 as [e2 ->].
    exists (d1 ++ e1), (d2 ++ e2). rewrite !app_assoc.
    repeat split. now apply differ_app_r.
Qed.

Lemma in_step_weaken {A} (R R' : A -> A -> Prop) (m1 m2 : M A) :
  (forall x y, R x y -> R' x y) -> in_step S R m1 m2 -> in_step S R' m1 m2.
Proof.
  intros HR H t HS. destruct (H t HS) as [[Ht Ho]|Hd]; [left|now right].
  split; [assumption|].
  destruct (fst (m1 t)), (fst (m2 t)); simpl in *; auto.
Qed.

End InStep.

(** One step of two runs that do the same thing next: a call or a run that
    asks the world nothing, or a probe. *)
Ltac same_step :=
  match goal with
  | |- in_step _ _ (bind (probe ?fn ?ar _ ?show) _) (bind (probe ?fn ?ar _ ?show) _) =>
      apply (in_step_bind _ eq);
      [ grows | intros ?; grows | intros ?; grows
      | apply in_step_probe; intros ? ? Hshow; now inversion Hshow
      | intros ? ? <- ]
  | |- in_step _ _ (bind ?m _) (bind ?m _) =>
      apply (in_step_bind _ eq);
      [ grows | intros ?; grows | intros ?; grows
      | apply in_step_same; reflexivity
      | intros ? ? <- ]
  | |- in_step _ _ (if ?c then _ else _) (if ?c then _ else _) => destruct c
  | |- in_step _ _ (when ?c _) (when ?c _) => destruct c; cbn [when]
  | |- in_step _ _ (probe ?fn ?ar _ ?show) (probe ?fn ?ar _ ?show) =>
      apply in_step_probe; intros ? ? Hshow; now inversion Hshow
  | |- in_step _ _ (raise ?e) (raise ?e) => apply in_step_raise
  | |- in_step _ _ (ret _) (ret _) => apply in_step_ret; try reflexivity; try exact I
  | |- in_step _ eq ?m ?m => apply in_step_same; reflexivity
  | |- in_step _ _ (match ?x with pair _ _ => _ end) (match ?x with pair _ _ => _ end) =>
      destruct x
  | |- in_step _ _ (@bind unit _ _ _) (@bind unit _ _ _) =>
      apply (in_step_bind _ (@eq unit));
      [grows|intros ?; grows|intros ?; grows| |intros [] ? <-]
  | |- in_step _ _ (@bind bool _ _ _) (@bind bool _ _ _) =>
      apply (in_step_bind _ (@eq bool));
      [grows|intros ?; grows|intros ?; grows| |intros ? ? <-]
  | |- in_step _ _ _ _ => solve [eauto with lockstep]
  end.

(** Two runs whose next step returns library values related by [R]. *)
Ltac related_step R :=
  apply (in_step_bind _ R); [grows|intros ?; grows|intros ?; grows| |].

Create HintDb lockstep.

Ltac walk := cbv zeta; repeat same_step.

Section Lockstep.

Variable C : correspondence.
Variable S : trace -> Prop.
Variables W1 W2 : world.
Hypothesis library : respects C S W1 W2.

Lemma load_and_cache_examples_in_step a ev oe :
  in_step S (like_data C)
    (load_and_cache_examples W1 a ev oe) (load_and_cache_examples W2 a ev oe).
Proof.
  unfold load_and_cache_examples. walk.
  destruct (cached_features_file a ev) as [cached|]; [|apply in_step_raise].
  walk. related_step (like_loaded C).
  - match goal with |- in_step _ _ (if ?c then _ else _) _ => destruct c end.
    + apply in_step_call_for. intros t Ht. now apply (loaded_alike _ _ _ _ library).
    + related_step (like_examples C).
      * walk.
        -- apply in_step_call_for. intros t Ht. now apply (tfds_alike _ _ _ _ library).
        -- apply in_step_call_for. intros t Ht. now apply (dev_alike _ _ _ _ library).
        -- apply in_step_call_for. intros t Ht. now apply (train_alike _ _ _ _ library).
      * intros e1 e2 He. related_step (like_converted C).
        -- apply in_step_call_for. intros t Ht.
           now apply (converted_alike _ _ _ _ library).
        -- intros [f1 d1] [f2 d2] [Hf Hd]. simpl in Hf, Hd. walk.
           repeat split; assumption.
  - intros [[f1 d1] e1] [[f2 d2] e2] (Hf & Hd & He). simpl in Hf, Hd, He. walk.
    repeat split; assumption.
Qed.

Hint Resolve load_and_cache_examples_in_step : lockstep.

Lemma has_lang2id_in_step : in_step S eq (has_lang2id W1) (has_lang2id W2).
Proof.
  unfold has_lang2id. walk.
Qed.

Hint Resolve has_lang2id_in_step : lockstep.

Lemma squad_result_of_in_step id1 id2 o1 o2 :
  like_id C id1 id2 -> Forall2 (like_logits C) o1 o2 ->
  in_step S (like_result C) (squad_result_of id1 o1) (squad_result_of id2 o2).
Proof.
  intros Hid H. unfold squad_result_of.
  destruct H as [|a1 a2 l1 l2 Ha H]; [apply in_step_raise|].
  destruct H as [|b1 b2 l1 l2 Hb H]; [apply in_step_raise|].
  destruct H as [|c1 c2 l1 l2 Hc H].
  { walk. unfold like_result. simpl. repeat split; auto. }
  destruct H as [|d1 d2 l1 l2 Hd H]; [apply in_step_raise|].
  destruct H as [|e1 e2 l1 l2 He H].
  { simpl. apply in_step_raise. }
  walk. unfold like_result. simpl. repeat split; auto.
Qed.

Hint Resolve squad_result_of_in_step : lockstep.

Lemma py_index_alike {A} (R : A -> A -> Prop) l1 l2 i :
  Forall2 R l1 l2 -> like_option R (py_index l1 i) (py_index l2 i).
Proof.
  intros H. unfold py_index. rewrite <- (Forall2_length H).
  assert (Hn : forall n, like_option R (nth_error l1 n) (nth_error l2 n)).
  { clear i. induction H as [|x y l1 l2 Hxy H IH]; intros [|n]; simpl; auto. }
  destruct (_ && _); [apply Hn|]. destruct (_ && _); [apply Hn|exact I].
Qed.

Lemma rows_of_alike outs1 outs2 i :
  Forall2 (like_tensor C) outs1 outs2 ->
  Forall2 (like_logits C) (map (fun o => to_list_row W1 o i) outs1)
                          (map (fun o => to_list_row W2 o i) outs2).
Proof.
  induction 1 as [|o1 o2 l1 l2 Ho H IH]; simpl; constructor; [|assumption].
  now apply (rows_alike _ _ _ _ library).
Qed.

Lemma eval_items_in_step fs1 fs2 outs1 outs2 indices :
  Forall2 (like_feature C) fs1 fs2 ->
  Forall2 (like_tensor C) outs1 outs2 ->
  forall i rs1 rs2,
    Forall2 (like_result C) rs1 rs2 ->
    in_step S (Forall2 (like_result C))
      (eval_items W1 fs1 outs1 i indices rs1) (eval_items W2 fs2 outs2 i indices rs2).
Proof.
  intros Hf Ho. induction indices as [|ix rest IH]; intros i rs1 rs2 Hr; simpl.
  - now apply in_step_ret.
  - pose proof (py_index_alike _ _ _ ix Hf) as Hix.
    destruct (py_index fs1 ix) as [f1|], (py_index fs2 ix) as [f2|];
      simpl in Hix; try contradiction; [|apply in_step_raise].
    related_step (like_result C).
    + apply squad_result_of_in_step; [|now apply rows_of_alike].
      now apply (ids_alike _ _ _ _ library).
    + intros r1 r2 Hrr. apply IH. apply Forall2_app; [assumption|].
      constructor; [assumption|constructor].
Qed.

Hint Resolve eval_items_in_step : lockstep.

Lemma eval_loop_in_step a fs1 fs2 batches :
  Forall2 (like_feature C) fs1 fs2 ->
  forall rs1 rs2,
    Forall2 (like_result C) rs1 rs2 ->
    in_step S (Forall2 (like_result C))
      (eval_loop W1 a fs1 batches rs1) (eval_loop W2 a fs2 batches rs2).
Proof.
  intros Hf. induction batches as [|b rest IH]; intros rs1 rs2 Hr; simpl.
  - now apply in_step_ret.
  - walk. related_step (Forall2 (like_tensor C)).
    + apply in_step_call_for. intros t Ht. now apply (outputs_alike _ _ _ _ library).
    + intros outs1 outs2 Ho. related_step (Forall2 (like_result C)).
      * now apply eval_items_in_step.
      * intros rs1' rs2' Hr'. now apply IH.
Qed.

Hint Resolve eval_loop_in_step : lockstep.

Lemma compute_predictions_in_step a prefix e1 e2 fs1 fs2 rs1 rs2 :
  like_examples C e1 e2 -> Forall2 (like_feature C) fs1 fs2 ->
  Forall2 (like_result C) rs1 rs2 ->
  in_step S (like_predictions C)
    (compute_predictions W1 a prefix e1 fs1 rs1)
    (compute_predictions W2 a prefix e2 fs2 rs2).
Proof.
  intros He Hf Hr. unfold compute_predictions. walk.
  - related_step (@eq Z).
    + apply in_step_read. intros t Ht. now apply (start_alike _ _ _ _ library).
    + intros start ? <-. walk. related_step (@eq Z).
      * apply in_step_read. intros t Ht. now apply (end_alike _ _ _ _ library).
      * intros end_ ? <-. apply in_step_call_for. intros t Ht.
        now apply (log_probs_alike _ _ _ _ library).
  - apply in_step_call_for. intros t Ht. now apply (logits_alike _ _ _ _ library).
Qed.

Hint Resolve compute_predictions_in_step : lockstep.

Lemma collect_results_in_step a :
  in_step S (like_collected C) (collect_results W1 a) (collect_results W2 a).
Proof.
  unfold collect_results. related_step (like_data C).
  { apply load_and_cache_examples_in_step. }
  intros [[d1 e1] f1] [[d2 e2] f2] (Hd & He & Hf). simpl in Hd, He, Hf.
  walk. related_step (@eq (list (list Z))).
  { apply in_step_call_for. intros t Ht. now apply (batches_alike _ _ _ _ library). }
  intros batches ? <-.
  related_step (@eq unit).
  { walk. }
  intros [] ? <-. walk. related_step (Forall2 (like_result C)).
  { apply eval_loop_in_step; [assumption|constructor]. }
  intros rs1 rs2 Hr. walk. repeat split; assumption.
Qed.

Hint Resolve collect_results_in_step : lockstep.

Lemma evaluate_in_step a prefix :
  in_step S same_keys (evaluate W1 a prefix) (evaluate W2 a prefix).
Proof.
  unfold evaluate. related_step (like_collected C).
  { apply collect_results_in_step. }
  intros [[[d1 e1] f1] r1] [[[d2 e2] f2] r2] [(Hd & He & Hf) Hr].
  simpl in Hd, He, Hf, Hr.
  rewrite (empty_alike _ _ _ _ library _ _ Hd). walk.
  related_step (like_predictions C).
  { now apply compute_predictions_in_step. }
  intros p1 p2 Hp. apply in_step_call_for. intros t Ht.
  now apply (keys_alike _ _ _ _ library).
Qed.

Hint Resolve evaluate_in_step : lockstep.

Lemma add_eval_scalars_keys r1 r2 step :
  same_keys r1 r2 -> add_eval_scalars r1 step = add_eval_scalars r2 step.
Proof.
  unfold same_keys. revert r2.
  induction r1 as [|[k v] rest IH]; intros [|[k' v'] rest'] H; simpl in *;
    try discriminate; [reflexivity|].
  inversion H; subst. now rewrite (IH rest').
Qed.

Lemma save_checkpoint_in_step a step :
  in_step S eq (save_checkpoint W1 a step) (save_checkpoint W2 a step).
Proof. unfold save_checkpoint. walk. Qed.

Lemma log_metrics_in_step a step :
  in_step S eq (log_metrics W1 a step) (log_metrics W2 a step).
Proof.
  unfold log_metrics. walk. related_step same_keys.
  - apply evaluate_in_step.
  - intros r1 r2 Hk. rewrite (add_eval_scalars_keys _ _ _ Hk). walk.
Qed.

Hint Resolve save_checkpoint_in_step log_metrics_in_step : lockstep.

Lemma optimizer_update_in_step a c :
  in_step S eq (optimizer_update W1 a c) (optimizer_update W2 a c).
Proof.
  unfold optimizer_update. walk.
Qed.

Hint Resolve optimizer_update_in_step : lockstep.

Lemma uncertainty_block_length keys o1 o2 :
  List.length o1 = List.length o2 ->
  uncertainty_block keys o1 = uncertainty_block keys o2.
Proof. intros H. unfold uncertainty_block. now rewrite H. Qed.

Lemma train_batch_in_step a u step c :
  in_step S eq (train_batch W1 a u step c) (train_batch W2 a u step c).
Proof.
  unfold train_batch. walk. related_step (Forall2 (like_tensor C)).
  - apply in_step_call_for. intros t Ht. now apply (outputs_alike _ _ _ _ library).
  - intros o1 o2 Ho.
    rewrite (uncertainty_block_length _ _ _ (Forall2_length Ho)).
    destruct Ho as [|y1 y2 l1 l2 Hy Ho]; [apply in_step_raise|].
    walk.
Qed.

Hint Resolve train_batch_in_step : lockstep.

Lemma epoch_loop_in_step a u steps :
  forall c, in_step S eq (epoch_loop W1 a u steps c) (epoch_loop W2 a u steps c).
Proof.
  induction steps as [|step rest IH]; intros c; simpl.
  - walk.
  - destruct (_ >? 0)%Z; [apply IH|]. related_step (@eq counters).
    + apply train_batch_in_step.
    + intros c' ? <-. destruct (past_max_steps a c'); [walk|apply IH].
Qed.

Hint Resolve epoch_loop_in_step : lockstep.

Lemma epochs_loop_in_step a u n steps :
  forall c, in_step S eq (epochs_loop W1 a u n steps c) (epochs_loop W2 a u n steps c).
Proof.
  induction n as [|n IH]; intros c; simpl.
  - walk.
  - related_step (@eq counters).
    + apply epoch_loop_in_step.
    + intros c' ? <-. destruct (past_max_steps a c'); [walk|apply IH].
Qed.

Hint Resolve epochs_loop_in_step : lockstep.

Lemma resume_in_step a batches :
  in_step S eq (resume W1 a batches) (resume W2 a batches).
Proof.
  unfold resume. walk.
Qed.

Hint Resolve resume_in_step : lockstep.

Lemma train_setup_in_step a d1 d2 u :
  like_dataset C d1 d2 ->
  in_step S eq (train_setup W1 a d1 u) (train_setup W2 a d2 u).
Proof.
  intros Hd. unfold train_setup. walk. related_step (@eq nat).
  { apply in_step_call_for. intros t Ht. now apply (loader_alike _ _ _ _ library). }
  intros n ? <-. walk.
  all: related_step (@eq (counters * Z)); [apply resume_in_step|intros ? ? <-; walk].
Qed.

Hint Resolve train_setup_in_step : lockstep.

Lemma train_in_step a d1 d2 u :
  like_dataset C d1 d2 -> in_step S eq (train W1 a d1 u) (train W2 a d2 u).
Proof.
  intros Hd. unfold train.
  related_step (@eq (nat * Z * counters * Z * bool)); [now apply train_setup_in_step|].
  intros [[[[n epochs] c0] trained] unc] ? <-.
  related_step (@eq counters); [apply epochs_loop_in_step|].
  intros c ? <-. walk.
Qed.

Hint Resolve train_in_step : lockstep.

Lemma check_output_dir_in_step a :
  in_step S eq (check_output_dir W1 a) (check_output_dir W2 a).
Proof.
  unfold check_output_dir. walk.
  apply (in_step_bind _ eq); [grows|intros ?; grows|intros ?; grows| |intros ? ? <-; walk].
  apply in_step_probe. intros [x|] [y|] Hshow; now inversion Hshow.
Qed.

Lemma attach_debugger_in_step a :
  in_step S eq (attach_debugger W1 a) (attach_debugger W2 a).
Proof. unfold attach_debugger. walk. Qed.

Lemma setup_devices_in_step a :
  in_step S eq (setup_devices W1 a) (setup_devices W2 a).
Proof. unfold setup_devices. walk. Qed.

Lemma register_half_in_step a :
  in_step S eq (register_half W1 a) (register_half W2 a).
Proof. unfold register_half. walk. Qed.

Lemma save_trained_in_step a :
  in_step S eq (save_trained W1 a) (save_trained W2 a).
Proof. unfold save_trained. walk. Qed.

Lemma checkpoints_to_evaluate_in_step a :
  in_step S eq (checkpoints_to_evaluate W1 a) (checkpoints_to_evaluate W2 a).
Proof. unfold checkpoints_to_evaluate. walk. Qed.

Lemma evaluate_checkpoints_in_step a many cps :
  forall r1 r2,
    in_step S whatever (evaluate_checkpoints W1 a many cps r1)
                       (evaluate_checkpoints W2 a many cps r2).
Proof.
  induction cps as [|cp rest IH]; intros r1 r2; simpl.
  - walk.
  - walk. related_step same_keys; [apply evaluate_in_step|].
    intros e1 e2 _. apply IH.
Qed.

Hint Resolve check_output_dir_in_step attach_debugger_in_step setup_devices_in_step
  register_half_in_step save_trained_in_step checkpoints_to_evaluate_in_step
  evaluate_checkpoints_in_step : lockstep.

Lemma main_in_step a : in_step S whatever (main W1 a) (main W2 a).
Proof.
  unfold main. walk.
  related_step (@eq Z); [apply setup_devices_in_step|].
  intros gpus ? <-. walk.
  - related_step (like_data C); [apply load_and_cache_examples_in_step|].
    intros [[d1 e1] f1] [[d2 e2] f2] (Hd & _ & _). simpl in Hd.
    related_step (@eq Z); [now apply train_in_step|].
    intros g ? <-. walk.
  - related_step (@eq (list string)); [apply checkpoints_to_evaluate_in_step|].
    intros cps ? <-. apply evaluate_checkpoints_in_step.
Qed.

End Lockstep.

Lemma differ_not_alike t d1 d2 :
  differ_at_probe d1 d2 -> ~ probes_alike (t ++ d1) (t ++ d2).
Proof.
  intros (c & fn & ar & x1 & x2 & r1 & r2 & -> & -> & Hx) H. apply Hx.
  apply (H (t ++ c) fn ar x1 x2).
  - exists r1. now rewrite <- !app_assoc.
  - exists r2. now rewrite <- !app_assoc.
Qed.

(** C6 (amended). The branches of the driver are decided by the parsed
    arguments together with what the driver learns from the outside while
    it runs: the answers to its probes, and the numbers, indices and keys
    that the library returns to it.  Take the same
    arguments and two worlds whose libraries return corresponding values at
    the traces that both runs of [main] pass through, whatever the data sets
    hold otherwise.  Then the two runs make the same probes and the same
    calls, with the same arguments and in the same order, up to the first
    probe that is answered differently in the two worlds; and when no probe
    is answered differently the two traces are the same as a whole and the
    runs end alike, both returning or both raising the same exception. *)
Theorem branches_follow_flags_and_probes (C : correspondence) (W1 W2 : world)
    (a : args) (t : trace) :
  respects C (along t (snd (main W1 a t)) (snd (main W2 a t))) W1 W2 ->
  ((snd (main W1 a t) = snd (main W2 a t)
    /\ outcome (fst (main W1 a t)) = outcome (fst (main W2 a t)))
   \/ (exists d1 d2, snd (main W1 a t) = t ++ d1 /\ snd (main W2 a t) = t ++ d2
                     /\ differ_at_probe d1 d2))
  /\ (probes_alike (snd (main W1 a t)) (snd (main W2 a t)) ->
      snd (main W1 a t) = snd (main W2 a t)
      /\ outcome (fst (main W1 a t)) = outcome (fst (main W2 a t))).
Proof.
  intros library.
  assert (H : (snd (main W1 a t) = snd (main W2 a t)
               /\ outcome (fst (main W1 a t)) = outcome (fst (main W2 a t)))
              \/ (exists d1 d2, snd (main W1 a t) = t ++ d1
                                /\ snd (main W2 a t) = t ++ d2
                                /\ differ_at_probe d1 d2)).
  { destruct (main_in_step C _ W1 W2 library a t) as [[Ht Ho]|Hd].
    - auto.
    - left. split; [assumption|].
      destruct (fst (main W1 a t)), (fst (main W2 a t)); simpl in Ho;
        try contradiction; [reflexivity|now subst].
    - now right. }
  split; [exact H|].
  intros Hp. destruct H as [H|(d1 & d2 & H1 & H2 & Hd)]; [exact H|].
  rewrite H1, H2 in Hp. now apply (differ_not_alike t) in Hd.
Qed.

(** C6, on two worlds whose data differ. *)
Lemma corresponding_worlds S : respects by_shift S (world_sized 0) (world_sized 7).
Proof.
  constructor; simpl; unfold like_loaded, like_converted, shifted; simpl; intros;
    subst; try reflexivity; try (repeat split; repeat constructor; reflexivity).
  now rewrite <- (N.Div0.mod_add d1 1 7).
Qed.

Lemma branches_follow_flags_and_probes_witness :
  (snd (main (world_sized 0) both_args []) = snd (main (world_sized 7) both_args [])
   /\ outcome (fst (main (world_sized 0) both_args []))
      = outcome (fst (main (world_sized 7) both_args [])))
  \/ (exists d1 d2, snd (main (world_sized 0) both_args []) = [] ++ d1
                    /\ snd (main (world_sized 7) both_args []) = [] ++ d2
                    /\ differ_at_probe d1 d2).
Proof.
  apply (branches_follow_flags_and_probes by_shift (world_sized 0) (world_sized 7)
           both_args []).
  apply corresponding_worlds.
Defined.

Example worlds_differ_in_data :
  fst (load_and_cache_examples (world_sized 0) both_args false false [])
  <> fst (load_and_cache_examples (world_sized 7) both_args false false [])
  /\ map (fun d => len_train_dataloader (world_sized 0) [] d 8) [10; 11; 12; 17]%N
     = [3; 4; 5; 3]%nat.
Proof. split; [vm_compute; discriminate|reflexivity]. Qed.

End SquadFacts.

(* ===================================================================== *)
(** * Part V: further properties of the two programs                      *)
(* ===================================================================== *)

Module PreprocessMore.
Import Preprocess Further PreprocessFacts.

(** ** The fields of a line *)

Lemma split_from_fields field s :
  spaceless field = true ->
  Forall (fun f => f <> [] /\ spaceless f = true) (split_from field s).
Proof.
  revert field. induction s as [|c r IH]; intros field Hf; simpl.
  - destruct field; constructor; [split; [discriminate|assumption]|constructor].
  - destruct (isspace c) eqn:Ec.
    + destruct field as [|f fs]; [now apply IH|].
      constructor; [split; [discriminate|assumption]|now apply IH].
    + apply IH. unfold spaceless in *. rewrite existsb_app. simpl.
      rewrite Ec. apply negb_true_iff in Hf. now rewrite Hf.
Qed.

Lemma last_in {A} (l : list A) d : l <> [] -> In (last l d) l.
Proof.
  induction l as [|x l IH]; [congruence|]. intros _.
  destruct l as [|y l]; [now left|]. right. apply IH. discriminate.
Qed.

Lemma fields_of_line_parts (line : str) :
  blank line = false ->
  token_of line <> [] /\ spaceless (token_of line) = true
  /\ label_of line <> [] /\ spaceless (label_of line) = true.
Proof.
  intros Hb. unfold blank in Hb.
  assert (Hne : rstrip line <> []) by (destruct (rstrip line); congruence).
  pose proof (split_rstrip_nonempty line Hne) as Hs.
  pose proof (split_from_fields [] (rstrip line) eq_refl) as Hall.
  fold (split (rstrip line)) in Hall. rewrite Forall_forall in Hall.
  assert (Ht : In (token_of line) (split (rstrip line))).
  { unfold token_of, first_field. destruct (split (rstrip line)); [congruence|now left]. }
  assert (Hl : In (label_of line) (split (rstrip line))).
  { unfold label_of, last_field. now apply last_in. }
  destruct (Hall _ Ht), (Hall _ Hl). repeat split; assumption.
Qed.

(** On a line that is not blank [line[0]] and [line[-1]] do not raise
    [IndexError]: the list of fields is not empty, and the token and the
    label are not empty and hold no whitespace. *)
Theorem fields_of_line (line : str) :
  blank line = false ->
  split (rstrip line) <> []
  /\ token_of line <> [] /\ spaceless (token_of line) = true
  /\ label_of line <> [] /\ spaceless (label_of line) = true.
Proof.
  intros Hb. split; [|now apply fields_of_line_parts].
  apply split_rstrip_nonempty. unfold blank in Hb.
  destruct (rstrip line); congruence.
Qed.

Lemma fields_of_line_witness :
  token_of (of_line "rejects  NNS O") <> [] /\ label_of (of_line "rejects  NNS O") <> [].
Proof.
  destruct (fields_of_line (of_line "rejects  NNS O") eq_refl) as (_ & Ht & _ & Hl & _).
  split; assumption.
Defined.

(** ** Reading the output again *)

Lemma split_from_spaceless field w rest :
  spaceless w = true -> split_from field (w ++ rest) = split_from (field ++ w) rest.
Proof.
  revert field. induction w as [|c w IH]; intros field Hw; simpl.
  - now rewrite app_nil_r.
  - unfold spaceless in Hw. simpl in Hw. apply negb_true_iff in Hw.
    apply orb_false_iff in Hw as [Hc Hw'].
    rewrite Hc, IH, <- app_assoc; [reflexivity|].
    unfold spaceless. now rewrite Hw'.
Qed.

Lemma split_print2 token label :
  token <> [] -> spaceless token = true -> label <> [] -> spaceless label = true ->
  split (print2 token label) = [token; label].
Proof.
  intros Ht Hst Hl Hsl. unfold split, print2.
  rewrite split_from_spaceless by assumption. simpl.
  destruct token as [|c token]; [congruence|]. f_equal.
  rewrite <- (app_nil_r label) at 1.
  rewrite split_from_spaceless by assumption. simpl.
  destruct label; [congruence|reflexivity].
Qed.

Lemma rstrip_spaces w : forallb isspace w = true -> rstrip w = [].
Proof.
  induction w as [|c w IH]; [reflexivity|]. simpl. intros H.
  apply andb_true_iff in H as [Hc Hw]. now rewrite IH, Hc.
Qed.

Lemma rstrip_app_spaces s w : forallb isspace w = true -> rstrip (s ++ w) = rstrip s.
Proof.
  intros Hw. induction s as [|c s IH]; simpl.
  - now apply rstrip_spaces.
  - now rewrite IH.
Qed.

Lemma rstrip_spaceless s : spaceless s = true -> rstrip s = s.
Proof.
  induction s as [|c s IH]; [reflexivity|]. unfold spaceless. simpl. intros H.
  apply negb_true_iff, orb_false_iff in H as [Hc Hs].
  rewrite IH by (unfold spaceless; now rewrite Hs).
  destruct s; [now rewrite Hc|reflexivity].
Qed.

Lemma rstrip_app_kept a b : rstrip b <> [] -> rstrip (a ++ b) = a ++ rstrip b.
Proof.
  intros Hb. induction a as [|c a IH]; [reflexivity|]. simpl. rewrite IH.
  destruct (a ++ rstrip b) eqn:E; [|reflexivity].
  apply app_eq_nil in E as [_ E]. congruence.
Qed.

Lemma rstrip_print2 token label :
  label <> [] -> spaceless label = true ->
  rstrip (print2 token label ++ [newline]) = print2 token label.
Proof.
  intros Hl Hs. rewrite rstrip_app_spaces by reflexivity. unfold print2.
  assert (Hr : rstrip (space :: label) = space :: label).
  { simpl. rewrite rstrip_spaceless by assumption. destruct label; congruence. }
  rewrite rstrip_app_kept; rewrite Hr; [reflexivity|discriminate].
Qed.

(** The line printed for an input line that is not blank, read again as an
    input line, is not blank and has the same token and the same label: the
    output of the preprocessor keeps the two fields apart by one space and
    nothing else. *)
Theorem printed_line_reads_back (line : str) :
  blank line = false ->
  let out := printed_pair line ++ [newline] in
  split (rstrip out) = [token_of line; label_of line]
  /\ blank out = false
  /\ token_of out = token_of line
  /\ label_of out = label_of line.
Proof.
  intros Hb out.
  destruct (fields_of_line_parts line Hb) as (Ht & Hst & Hl & Hsl).
  assert (Hr : rstrip out = printed_pair line).
  { unfold out, printed_pair. now apply rstrip_print2. }
  assert (Hs : split (rstrip out) = [token_of line; label_of line]).
  { rewrite Hr. unfold printed_pair. now apply split_print2. }
  split; [assumption|]. split.
  - unfold blank. rewrite Hr. unfold printed_pair, print2.
    destruct (token_of line); reflexivity.
  - unfold token_of at 1, label_of at 1. rewrite Hs. split; reflexivity.
Qed.

Lemma printed_line_reads_back_witness :
  token_of (printed_pair (of_line "rejects  NNS O") ++ [newline])
  = token_of (of_line "rejects  NNS O").
Proof.
  apply (printed_line_reads_back (of_line "rejects  NNS O") eq_refl).
Defined.

(** ** When examples are split *)

Section Budget.

Variable tokenize : str -> list str.
Variable max_len : Z.

Lemma total_subwords_cons l r :
  total_subwords tokenize (l :: r) = subwords_of tokenize l + total_subwords tokenize r.
Proof. reflexivity. Qed.

Lemma total_subwords_nonneg lines : 0 <= total_subwords tokenize lines.
Proof.
  induction lines as [|l r IH]; [unfold total_subwords; simpl; lia|].
  rewrite total_subwords_cons.
  unfold subwords_of, current_subwords_len. destruct (blank l); lia.
Qed.

Lemma output_within_budget c lines :
  0 <= c -> c + total_subwords tokenize lines <= max_len ->
  output_from tokenize max_len c lines = flat_map (copied tokenize) lines.
Proof.
  revert c. induction lines as [|l r IH]; intros c Hc Hsum; [reflexivity|].
  rewrite total_subwords_cons in Hsum. pose proof (total_subwords_nonneg r) as Hr.
  cbn [output_from flat_map].
  unfold emitted, next_counter, copied, kept, subwords_of in *.
  destruct (blank l); simpl.
  - f_equal. apply IH; lia.
  - assert (Hn : 0 <= current_subwords_len tokenize l)
      by (unfold current_subwords_len; lia).
    destruct (current_subwords_len tokenize l =? 0) eqn:E0; simpl.
    + apply IH; lia.
    + destruct (c + current_subwords_len tokenize l >? max_len) eqn:Eg.
      * apply Z.gtb_gt in Eg. lia.
      * simpl. f_equal. apply IH; lia.
Qed.

(** When the tokens of the whole input have together at most [max_len]
    subwords, no example is split: the output is the input with its blank
    lines as empty lines, its kept lines as token and label, and no empty
    line added. *)
Theorem no_split_within_budget (lines : list str) :
  total_subwords tokenize lines <= max_len ->
  stdout (preprocess tokenize max_len lines) = flat_map (copied tokenize) lines.
Proof.
  intros H. unfold preprocess. rewrite for_lines_factor. simpl.
  apply output_within_budget; lia.
Qed.

Lemma line_without_budget l :
  max_len < 0 ->
  next_counter tokenize max_len 0 l = 0
  /\ emitted tokenize max_len 0 l = isolated tokenize l.
Proof.
  intros Hm. unfold emitted, next_counter, isolated, kept.
  assert (Hn : 0 <= current_subwords_len tokenize l)
    by (unfold current_subwords_len; lia).
  destruct (blank l); simpl; [now split|].
  destruct (current_subwords_len tokenize l =? 0) eqn:E0; simpl; [now split|].
  apply Z.eqb_neq in E0.
  destruct (current_subwords_len tokenize l >? max_len) eqn:Eg; [now split|].
  rewrite Z.gtb_ltb, Z.ltb_ge in Eg. lia.
Qed.

Lemma output_without_budget lines :
  max_len < 0 ->
  output_from tokenize max_len 0 lines = flat_map (isolated tokenize) lines
  /\ fold_left (next_counter tokenize max_len) lines 0 = 0.
Proof.
  intros Hm. induction lines as [|l r [IHo IHc]]; [split; reflexivity|].
  destruct (line_without_budget l Hm) as [Hc He].
  cbn [output_from flat_map fold_left]. rewrite Hc, He, IHo, IHc. now split.
Qed.

(** With a negative [max_len] every kept line is split off: the output
    holds an empty line before each token and label, and the counter is 0
    at the end. *)
Theorem negative_budget_isolates (lines : list str) :
  max_len < 0 ->
  preprocess tokenize max_len lines = mkState 0 (flat_map (isolated tokenize) lines).
Proof.
  intros Hm. unfold preprocess. rewrite for_lines_factor. simpl.
  destruct (output_without_budget lines Hm) as [Ho Hc]. now rewrite Ho, Hc.
Qed.

End Budget.

Lemma no_split_within_budget_witness :
  stdout (preprocess toy_tokenize 10 sample_lines)
  = flat_map (copied toy_tokenize) sample_lines.
Proof.
  apply (no_split_within_budget toy_tokenize 10 sample_lines).
  vm_compute. discriminate.
Defined.

Lemma negative_budget_isolates_witness :
  preprocess toy_tokenize (-1) sample_lines
  = mkState 0 (flat_map (isolated toy_tokenize) sample_lines).
Proof.
  apply (negative_budget_isolates toy_tokenize (-1) sample_lines). lia.
Defined.

Example budget_runs :
  total_subwords toy_tokenize sample_lines = 8
  /\ flat_map (copied toy_tokenize) sample_lines
     = map of_string ["EU B-ORG"; "rejects O"; "German B-MISC"; ""; "call O"]%string
  /\ flat_map (isolated toy_tokenize) [of_line "EU B-ORG"; control_line]
     = map of_string [""; "EU B-ORG"]%string.
Proof. repeat split. Qed.

End PreprocessMore.

Module SquadMore.
Import Squad FurtherSquad SquadFacts.
Local Open Scope string_scope.
Local Open Scope list_scope.
Local Open Scope driver_scope.

(** ** Evaluation: results and features *)

Section Alignment.

Variable W : world.

Lemma squad_result_of_id id output t r t' :
  squad_result_of id output t = (Ok r, t') -> unique_id r = id.
Proof.
  unfold squad_result_of.
  destruct output as [|a [|b [|c [|d [|e l]]]]]; intros H;
    inversion H; reflexivity.
Qed.

Lemma eval_items_aligned features outputs indices :
  forall i rs0 t rs t',
    eval_items W features outputs i indices rs0 t = (Ok rs, t') ->
    map unique_id rs = map unique_id rs0 ++ map (feature_id W features) indices
    /\ forallb (in_range features) indices = true.
Proof.
  induction indices as [|ix rest IH]; intros i rs0 t rs t' H; simpl in H.
  - inversion H; subst. simpl. now rewrite app_nil_r.
  - destruct (py_index features ix) as [f|] eqn:E; [|discriminate].
    apply bind_inv_ok in H as (r & t1 & Hr & H).
    apply squad_result_of_id in Hr.
    apply IH in H as [Hm Ha].
    assert (Hid : feature_id W features ix = unique_id r)
      by (unfold feature_id; now rewrite E, Hr).
    assert (Hin : in_range features ix = true)
      by (unfold in_range; now rewrite E).
    cbn [map forallb]. rewrite Hm, Ha, Hin, Hid, map_app, <- app_assoc.
    now split.
Qed.

Lemma squad_result_of_rows outputs id i t r t' :
  squad_result_of id (map (fun o => to_list_row W o i) outputs) t = (Ok r, t') ->
  unpacks (List.length outputs) = true
  /\ r = result_of_rows W outputs id i
  /\ t' = t ++ [result_call outputs].
Proof.
  unfold squad_result_of, unpacks, result_of_rows, result_call, row.
  destruct outputs as [|a [|b [|c [|d [|e l]]]]]; intros H; inversion H;
    repeat split.
Qed.

Lemma squad_result_of_mismatch outputs id i t :
  unpacks (List.length outputs) = false ->
  squad_result_of id (map (fun o => to_list_row W o i) outputs) t
  = (Raise (UnpackMismatch (List.length outputs)), t).
Proof.
  unfold squad_result_of, unpacks.
  destruct outputs as [|a [|b [|c [|d [|e l]]]]]; intros H;
    try discriminate H; reflexivity.
Qed.

Lemma eval_items_rows features outputs indices :
  forall i rs0 t rs t',
    eval_items W features outputs i indices rs0 t = (Ok rs, t') ->
    rs = rs0 ++ batch_results W features outputs i indices
    /\ t' = t ++ repeat (result_call outputs) (List.length indices)
    /\ (indices <> [] -> unpacks (List.length outputs) = true).
Proof.
  unfold batch_results.
  induction indices as [|ix rest IH]; intros i rs0 t rs t' H; simpl in H.
  - inversion H; subst. simpl. rewrite !app_nil_r. repeat split. congruence.
  - destruct (py_index features ix) as [f|] eqn:E; [|discriminate].
    apply bind_inv_ok in H as (r & t1 & Hr & H).
    apply squad_result_of_rows in Hr as (Hu & -> & ->).
    apply IH in H as (-> & -> & _).
    assert (Hid : feature_id W features ix = feature_unique_id W f)
      by (unfold feature_id; now rewrite E).
    cbn [List.length seq combine map fst snd repeat]. rewrite Hid, <- !app_assoc.
    repeat split. auto.
Qed.

(** Lines 355 to 384 for one batch.  When the loop over the items of a
    batch returns, the item at position [k] of the batch has got row [k] of
    the output tensors, of the tensors 0 and 1 as start and end logits when
    the model returned two tensors and of the tensors 0, 2, 1, 3 and 4 when
    it returned five or more, under the identifier of its feature;
    [SquadResult] has been called once for each item and nothing else has
    been called; and the model returned two tensors or at least five unless
    the batch is empty.  With another number of tensors the first item whose
    feature exists raises [ValueError] before any result is built. *)
Theorem batch_results_take_rows (features : list feature) (outputs : list tensor)
    (i : nat) (indices : list Z) (rs0 : list squad_result) (t : trace) :
  (forall rs t',
     eval_items W features outputs i indices rs0 t = (Ok rs, t') ->
     rs = rs0 ++ batch_results W features outputs i indices
     /\ t' = t ++ repeat (result_call outputs) (List.length indices)
     /\ (indices <> [] -> unpacks (List.length outputs) = true))
  /\ (forall ix rest,
        indices = ix :: rest -> in_range features ix = true ->
        unpacks (List.length outputs) = false ->
        eval_items W features outputs i indices rs0 t
        = (Raise (UnpackMismatch (List.length outputs)), t)
        /\ class_of (UnpackMismatch (List.length outputs)) = ValueError).
Proof.
  split.
  - intros rs t'. apply eval_items_rows.
  - intros ix rest -> Hin Hu. split; [|reflexivity].
    unfold in_range in Hin. simpl.
    destruct (py_index features ix) as [f|]; [|discriminate].
    unfold bind. now rewrite squad_result_of_mismatch.
Qed.

(** When the loop over the evaluation batches returns, [all_results] holds
    one result for each feature index of each batch, in the order of the
    batches, with the identifier of the feature at that index; and every
    index was within [features]. *)
Theorem results_follow_features (a : args) (features : list feature)
    (batches : list (list Z)) (rs0 rs : list squad_result) (t t' : trace) :
  eval_loop W a features batches rs0 t = (Ok rs, t') ->
  map unique_id rs
    = map unique_id rs0 ++ map (feature_id W features) (List.concat batches)
  /\ forallb (in_range features) (List.concat batches) = true
  /\ List.length rs = (List.length rs0 + List.length (List.concat batches))%nat.
Proof.
  revert rs0 t. induction batches as [|b rest IH]; intros rs0 t H; simpl in H.
  - inversion H; subst. simpl. rewrite app_nil_r. repeat split. lia.
  - do 4 (apply bind_inv_ok in H as (? & ? & _ & H)).
    apply bind_inv_ok in H as (rs1 & t1 & Hi & H).
    apply eval_items_aligned in Hi as [Hm Ha].
    apply IH in H as (Hm' & Ha' & Hl).
    assert (Hl1 : List.length rs1 = (List.length rs0 + List.length b)%nat).
    { apply (f_equal (@List.length Z)) in Hm.
      now rewrite length_app, !length_map in Hm. }
    simpl. rewrite Hm', Hm, map_app, forallb_app, Ha, Ha', <- app_assoc, length_app.
    repeat split. lia.
Qed.

(** ** Evaluation: an empty data set *)

(** When the evaluation data set is empty, [evaluate] raises
    [ZeroDivisionError] at line 387, after the loop and before any
    prediction is computed or written. *)
Theorem evaluate_empty_dataset (a : args) (prefix : string) (t t1 : trace)
    (ds : dataset) (ex : examples) (fs : list feature) (rs : list squad_result) :
  collect_results W a t = (Ok (ds, ex, fs, rs), t1) ->
  len_dataset W ds = 0%Z ->
  evaluate W a prefix t = (Raise (DivisionByZero 387), t1)
  /\ class_of (DivisionByZero 387) = ZeroDivisionError.
Proof.
  intros Hc Hl. split; [|reflexivity].
  unfold evaluate. rewrite (bind_ok _ _ _ _ _ Hc), Hl. reflexivity.
Qed.

End Alignment.

Example unpacking_examples :
  map unpacks [0; 1; 2; 3; 4; 5; 6]%nat = [false; false; true; false; false; true; true].
Proof. reflexivity. Qed.

Lemma batch_results_take_rows_witness :
  eval_items world_plain [1; 2; 3]%N [100; 101]%N 0 [0; 1]%Z [] []
  = (Ok [mkSquadResult 1001 1000%N 1010%N None None None;
         mkSquadResult 1002 1001%N 1011%N None None None],
     [Call "SquadResult" ["unique_id"; "start_logits"; "end_logits"];
      Call "SquadResult" ["unique_id"; "start_logits"; "end_logits"]]).
Proof.
  destruct (eval_items world_plain [1; 2; 3]%N [100; 101]%N 0 [0; 1]%Z [] [])
    as [[rs|e] t'] eqn:E; [|vm_compute in E; discriminate E].
  destruct (batch_results_take_rows world_plain [1; 2; 3]%N [100; 101]%N 0
              [0; 1]%Z [] []) as [H _].
  destruct (H rs t' E) as (-> & -> & _). reflexivity.
Defined.

Lemma results_follow_features_witness :
  map unique_id
    (match fst (eval_loop world_plain eval_args [1; 2; 3]%N [[0; 1]; [2]]%Z [] []) with
     | Ok rs => rs
     | Raise _ => []
     end)
  = map (feature_id world_plain [1; 2; 3]%N) [0; 1; 2]%Z.
Proof.
  destruct (eval_loop world_plain eval_args [1; 2; 3]%N [[0; 1]; [2]]%Z [] [])
    as [[rs|e] t'] eqn:E; [|vm_compute in E; discriminate E].
  destruct (results_follow_features world_plain eval_args _ _ _ _ _ _ E) as [H _].
  exact H.
Defined.

Lemma evaluate_empty_dataset_witness :
  fst (evaluate world_no_data eval_args "" []) = Raise (DivisionByZero 387).
Proof.
  edestruct (evaluate_empty_dataset world_no_data eval_args "" []) as [H _].
  - vm_compute. reflexivity.
  - reflexivity.
  - rewrite H. reflexivity.
Defined.

(** ** Loading the examples: a model name without a component *)

#[local] Hint Resolve raises_only_ret raises_only_call raises_only_call_for
  raises_only_probe raises_only_read : raises.

Lemma split_on_not_nil sep s : split_on sep s <> [].
Proof.
  destruct s as [|c r]; simpl; [discriminate|].
  destruct (Ascii.eqb c sep); [discriminate|].
  destruct (split_on sep r); discriminate.
Qed.

Lemma components_of_slashes s :
  filter nonempty_str (split_on "/" s) = [] <-> only_slashes s = true.
Proof.
  induction s as [|c r IH]; [split; reflexivity|].
  unfold only_slashes in *. simpl. unfold is_slash at 1.
  destruct (Ascii.eqb c "/"); simpl; [exact IH|].
  pose proof (split_on_not_nil "/" r) as Hn.
  destruct (split_on "/" r) as [|f fs]; [congruence|].
  simpl. split; discriminate.
Qed.

Lemma cached_features_file_none a ev :
  cached_features_file a ev = None <-> only_slashes (model_name_or_path a) = true.
Proof.
  unfold cached_features_file. rewrite <- components_of_slashes.
  destruct (filter nonempty_str (split_on "/" (model_name_or_path a))) as [|x l] eqn:E;
    simpl; [split; reflexivity|].
  destruct (rev l ++ [x]) eqn:E'; [now destruct (rev l)|].
  split; discriminate.
Qed.

(** [load_and_cache_examples] raises the [IndexError] of line 451 exactly
    when [model_name_or_path] is empty or made of slashes only, and then
    no file has been looked for: at most the barrier has been called. *)
Theorem empty_model_name_raises (W : world) (a : args) (ev oe : bool) (t : trace) :
  ((exists t', load_and_cache_examples W a ev oe t = (Raise EmptyPop, t'))
   <-> only_slashes (model_name_or_path a) = true)
  /\ (forall t', load_and_cache_examples W a ev oe t = (Raise EmptyPop, t') ->
       t' = t ++ (if negb (first_process a) && negb ev
                  then [Call "torch.distributed.barrier" []] else []))
  /\ class_of EmptyPop = IndexError.
Proof.
  split; [|split; [|reflexivity]].
  - rewrite <- (cached_features_file_none a ev).
    unfold load_and_cache_examples.
    destruct (cached_features_file a ev) as [cached|].
    + split; [|discriminate]. intros [t' H]. exfalso.
      match type of H with
      | ?m _ = _ => assert (Hr : raises_only not_empty_pop m) by raises
      end.
      exact (Hr _ _ _ H).
    + split; [reflexivity|]. intros _.
      unfold bind, when. destruct (negb (first_process a) && negb ev);
        eexists; reflexivity.
  - unfold load_and_cache_examples.
    destruct (cached_features_file a ev) as [cached|].
    + intros t' H. exfalso.
      match type of H with
      | ?m _ = _ => assert (Hr : raises_only not_empty_pop m) by raises
      end.
      exact (Hr _ _ _ H).
    + intros t'. unfold bind, when, call, ret, raise.
      destruct (negb (first_process a) && negb ev); intros H; inversion H;
        [reflexivity|now rewrite app_nil_r].
Qed.

Example slashes_examples :
  map only_slashes [""; "/"; "//"; "bert"; "out/"; "/a/"] = [true; true; true; false; false; false].
Proof. reflexivity. Qed.

(** ** Training: the batches skipped on resuming *)

Section Skipping.

Variable W : world.
Variable a : args.

(** With [steps_trained_in_current_epoch = m], the loop over the batches of
    an epoch passes over the first [m] batches without touching the model
    and goes on with the others as if nothing was to be skipped; when the
    epoch has fewer than [m] batches, all are passed over and the rest of
    [m] is carried into the next epoch. *)
Theorem resumed_epoch_skips (u : bool) (m : nat) (steps : list Z) (g : Z) :
  epoch_loop W a u steps (mkCounters g (Z.of_nat m))
  = epoch_loop W a u (skipn m steps)
      (mkCounters g (Z.of_nat (m - List.length steps))).
Proof.
  revert m. induction steps as [|step rest IH]; intros m.
  - rewrite skipn_nil. simpl. now rewrite Nat.sub_0_r.
  - destruct m as [|m]; [reflexivity|].
    cbn [epoch_loop skipn List.length steps_trained_in_current_epoch global_step].
    replace (Z.of_nat (S m) >? 0)%Z with true by (symmetry; apply Z.gtb_lt; lia).
    replace (Z.of_nat (S m) - 1)%Z with (Z.of_nat m) by lia.
    rewrite IH. reflexivity.
Qed.

End Skipping.

(** ** Training: fewer batches than accumulation steps *)

Lemma bind_call_for {A B} fn arguments (v : trace -> A) (f : A -> M B) t :
  bind (call_for fn arguments v) f t = f (v t) (t ++ [Call fn arguments]).
Proof. reflexivity. Qed.

Lemma bind_when_call {B} c fn arguments (f : unit -> M B) t :
  bind (when c (call fn arguments)) f t
  = f tt (t ++ if c then [Call fn arguments] else []).
Proof. destruct c; simpl; [reflexivity|]. unfold bind, ret. now rewrite app_nil_r. Qed.

Lemma bind_raise_run {A B} (m : M A) (f : A -> M B) t e t' :
  m t = (Raise e, t') -> bind m f t = (Raise e, t').
Proof. intros H. unfold bind. now rewrite H. Qed.

(** With [max_steps > 0] and fewer batches in the loader than
    [gradient_accumulation_steps], the number of updates in an epoch is 0
    and [train] raises [ZeroDivisionError] at line 88, when the loader has
    been built and before any optimizer exists. *)
Theorem train_needs_a_full_window (W : world) (a : args) (ds : dataset)
    (u : bool) (t : trace) :
  (0 < max_steps a)%Z ->
  (Z.of_nat (loader_batches W a ds t) < gradient_accumulation_steps a)%Z ->
  train W a ds u t
  = (Raise (DivisionByZero 88),
     at_loader a t ++ [Call "DataLoader" ["train_dataset"; "train_sampler";
                                          str_of_int (train_batch_size a)]])
  /\ class_of (DivisionByZero 88) = ZeroDivisionError.
Proof.
  intros Hm Hn. split; [|reflexivity].
  unfold train. apply bind_raise_run.
  unfold train_setup. rewrite bind_when_call, bind_call, bind_call_for.
  fold (at_loader a t). fold (loader_batches W a ds t). cbv zeta.
  apply bind_raise_run.
  replace (max_steps a >? 0)%Z with true by (symmetry; now apply Z.gtb_lt).
  rewrite Z.div_small by lia. rewrite orb_true_r. reflexivity.
Qed.

Lemma train_needs_a_full_window_witness :
  fst (train world_no_batches capped_args 10%N false []) = Raise (DivisionByZero 88).
Proof.
  destruct (train_needs_a_full_window world_no_batches capped_args 10%N false [])
    as [H _]; [reflexivity|reflexivity|].
  rewrite H. reflexivity.
Defined.

(** ** The driver without training *)

#[local] Hint Resolve extends_ret extends_raise extends_read
  set_seed_quiet load_and_cache_examples_quiet has_lang2id_quiet
  squad_result_of_quiet eval_items_quiet eval_loop_quiet compute_predictions_quiet
  collect_results_quiet evaluate_quiet add_eval_scalars_quiet log_metrics_quiet
  uncertainty_block_quiet resume_quiet train_setup_quiet : quiet.

Lemma evaluate_checkpoints_quiet W a many cps results :
  extends quiet (evaluate_checkpoints W a many cps results).
Proof.
  revert results. induction cps as [|cp rest IH]; intros results; simpl; quiet_run.
Qed.

#[local] Hint Resolve evaluate_checkpoints_quiet : quiet.

Lemma save_trained_idle W a : do_train a = false -> extends quiet (save_trained W a).
Proof.
  intros Hd t r t' H. unfold save_trained in H. rewrite Hd in H.
  inversion H; subst. exists []. now rewrite app_nil_r.
Qed.

(** Without [--do_train], [main] makes no optimizer update and saves no
    model, whatever else it does and however it ends. *)
Theorem main_without_training (W : world) (a : args) (t t' : trace)
    (r : result (list (string * metric))) :
  do_train a = false ->
  main W a t = (r, t') ->
  exists d, t' = t ++ d /\ forallb quiet d = true.
Proof.
  intros Hd. revert t r t'. change (extends quiet (main W a)).
  unfold main, check_output_dir, attach_debugger, setup_devices, load_pretrained,
    register_half, checkpoints_to_evaluate.
  repeat first
    [ progress (cbn [do_train set_model_type set_n_gpu]; rewrite ?Hd)
    | apply save_trained_idle; exact Hd
    | quiet_step ].
Qed.

(** [main] returns the empty dictionary unless [--do_eval] is given and the
    process is the first one. *)
Theorem main_without_evaluation (W : world) (a : args) (t t' : trace)
    (results : list (string * metric)) :
  do_eval a && first_process a = false ->
  main W a t = (Ok results, t') ->
  results = [].
Proof.
  intros Hd. revert t results t'.
  change (returns_only (fun results => results = []) (main W a)).
  unfold main.
  repeat (apply returns_bind; intros ?).
  cbv zeta. unfold first_process in *.
  cbn [do_eval local_rank set_model_type set_n_gpu]. rewrite Hd.
  now apply returns_ret.
Qed.

Lemma main_without_training_witness :
  exists d, snd (main world_plain eval_args []) = [] ++ d /\ forallb quiet d = true.
Proof.
  apply (main_without_training world_plain eval_args []
           (snd (main world_plain eval_args [])) (fst (main world_plain eval_args []))).
  - reflexivity.
  - now destruct (main world_plain eval_args []).
Defined.

Lemma main_without_evaluation_witness :
  fst (main world_plain train_args []) = Ok [].
Proof.
  destruct (main world_plain train_args []) as [[results|e] t'] eqn:E;
    [|vm_compute in E; discriminate E].
  simpl. f_equal.
  apply (main_without_evaluation world_plain train_args [] t' results eq_refl E).
Defined.

(** ** The barrier of the distributed runs *)

Ltac event_allowed :=
  match goal with
  | |- _ (Call (if ?c then _ else _) _) = true => destruct c; reflexivity
  | |- _ => reflexivity
  end.

Ltac extends_step :=
  match goal with
  | |- extends _ (bind _ _) => apply extends_bind; [|intros ?]
  | |- extends _ (when _ _) => apply extends_when
  | |- extends _ (call _ _) => apply extends_call; event_allowed
  | |- extends _ (call_for _ _ _) => apply extends_call_for; event_allowed
  | |- extends _ (probe _ _ _ _) => apply extends_probe; intros ?; reflexivity
  | |- extends _ (ret _) => apply extends_ret
  | |- extends _ (raise _) => apply extends_raise
  | |- extends _ (if ?c then _ else _) => destruct c
  | |- extends _ (match ?x with _ => _ end) => destruct x
  end.

Ltac extends_run := repeat extends_step.

Lemma calls_to_app fn d1 d2 :
  calls_to fn (d1 ++ d2) = (calls_to fn d1 + calls_to fn d2)%nat.
Proof. unfold calls_to. now rewrite filter_app, length_app. Qed.

Lemma no_barrier_calls d :
  forallb no_barrier d = true -> calls_to "torch.distributed.barrier" d = 0%nat.
Proof.
  induction d as [|e d IH]; [reflexivity|]. simpl. intros H.
  apply andb_true_iff in H as [He Hd]. unfold calls_to in *. simpl.
  destruct e as [fn l|]; simpl in *; [|now apply IH].
  apply negb_true_iff in He. rewrite He. now apply IH.
Qed.

Lemma counted_barrier_none {A} (m : M A) :
  extends no_barrier m -> counted "torch.distributed.barrier" m 0.
Proof.
  intros Hm t x t' H. destruct (Hm _ _ _ H) as (d & -> & Hd).
  exists d. split; [reflexivity|now apply no_barrier_calls].
Qed.

Lemma counted_bind fn {A B} (m : M A) (f : A -> M B) k1 k2 k :
  counted fn m k1 -> (forall x, counted fn (f x) k2) -> k = (k1 + k2)%nat ->
  counted fn (bind m f) k.
Proof.
  intros Hm Hf -> t y t' H. apply bind_inv_ok in H as (x & t1 & Hx & H).
  destruct (Hm _ _ _ Hx) as (d1 & -> & H1).
  destruct (Hf _ _ _ _ H) as (d2 & -> & H2).
  exists (d1 ++ d2). now rewrite app_assoc, calls_to_app, H1, H2.
Qed.

Lemma counted_when_call fn c arguments :
  counted fn (when c (call fn arguments)) (if c then 1 else 0).
Proof.
  intros t x t' H. destruct c; simpl in H; inversion H; subst.
  - eexists. split; [reflexivity|]. unfold calls_to. simpl.
    now rewrite String.eqb_refl.
  - exists []. now rewrite app_nil_r.
Qed.

Lemma counted_ret fn {A} (x : A) : counted fn (ret x) 0.
Proof. intros t y t' H. inversion H; subst. exists []. now rewrite app_nil_r. Qed.

Lemma barrier_sum (rank : Z) (ev : bool) :
  (if (rank =? -1)%Z || ev then 0 else 1)%nat
  = ((if negb ((rank =? -1)%Z || (rank =? 0)%Z) && negb ev then 1 else 0)
     + (0 + (0 + ((if (rank =? 0)%Z && negb ev then 1 else 0) + 0))))%nat.
Proof.
  destruct (rank =? -1)%Z eqn:E1, (rank =? 0)%Z eqn:E2, ev; try reflexivity.
  apply Z.eqb_eq in E1, E2. lia.
Qed.

(** A process of a distributed run ([local_rank] other than -1) calls
    [torch.distributed.barrier] exactly once in every [load_and_cache_examples]
    for training that returns, the first process after it has built the
    features and the others before they look for the cache, and exactly once
    in the loading of the pretrained model; a run on one process and a load
    for evaluation never call it. *)
Theorem barrier_once (W : world) (a : args) (ev oe : bool) (t : trace) :
  (forall v t', load_and_cache_examples W a ev oe t = (Ok v, t') ->
     exists d, t' = t ++ d
       /\ calls_to "torch.distributed.barrier" d
          = if (local_rank a =? -1)%Z || ev then 0%nat else 1%nat)
  /\ (exists d, load_pretrained a t = (Ok tt, t ++ d)
       /\ calls_to "torch.distributed.barrier" d
          = if (local_rank a =? -1)%Z then 0%nat else 1%nat).
Proof.
  split.
  - revert t. change (counted "torch.distributed.barrier"
                        (load_and_cache_examples W a ev oe)
                        (if (local_rank a =? -1)%Z || ev then 0%nat else 1%nat)).
    unfold load_and_cache_examples.
    destruct (cached_features_file a ev) as [cached|].
    2:{ intros t x t' H. apply bind_inv_ok in H as (? & ? & _ & H). discriminate. }
    eapply counted_bind; [apply counted_when_call|intros _|].
    { eapply counted_bind; [apply counted_barrier_none; extends_run|intros found|].
      { eapply counted_bind; [apply counted_barrier_none; extends_run|intros [[fs ds] ex]|].
        { eapply counted_bind; [apply counted_when_call|intros _; apply counted_ret|].
          reflexivity. }
        reflexivity. }
      reflexivity. }
    unfold first_process. apply barrier_sum.
  - unfold load_pretrained, first_process, bind, when, call, ret.
    destruct (local_rank a =? -1)%Z eqn:E1, (local_rank a =? 0)%Z eqn:E2,
      (uncertainty_model a); simpl;
      try (apply Z.eqb_eq in E1, E2; lia);
      eexists; (split; [rewrite <- !app_assoc; simpl; reflexivity|reflexivity]).
Qed.

(** ** The cache of features: what one run saves the next one loads *)

Lemma bind_probe {A B} fn arguments (v : trace -> A) show (f : A -> M B) t :
  bind (probe fn arguments v show) f t
  = f (v t) (t ++ [Probe fn arguments (show (v t))]).
Proof. reflexivity. Qed.

Lemma created_app t d p : created (t ++ d) p = created t p || created d p.
Proof. unfold created. apply existsb_app. Qed.

Lemma created_by_save what p : created [Call "torch.save" [what; p]] p = true.
Proof. unfold created. simpl. now rewrite String.eqb_refl. Qed.

Section Cache.

Variable W : world.
Variable a : args.
Variable ev : bool.
Variable cached : string.

Hypothesis remembered : remembers_writes W.
Hypothesis first : first_process a = true.
Hypothesis keep : overwrite_cache a = false.
Hypothesis path : cached_features_file a ev = Some cached.

Lemma miss_writes_cache oe t v t1 :
  os_path_exists W t cached = false ->
  load_and_cache_examples W a ev oe t = (Ok v, t1) ->
  created t1 cached = true.
Proof.
  intros Hmiss H. unfold load_and_cache_examples in H.
  rewrite path, first in H. cbn [negb andb] in H.
  rewrite bind_when_call, bind_probe, app_nil_r, Hmiss in H. cbn [andb] in H.
  apply bind_inv_ok in H as ([[fs ds] ex] & tb & Hin & Hout).
  apply bind_inv_ok in Hin as (ex0 & tc & _ & Hin).
  rewrite bind_call_for in Hin.
  destruct (squad_convert_examples_to_features W tc ex0 _ _ _ _ _) as [fs' ds'].
  rewrite bind_when_call in Hin. inversion Hin; subst. clear Hin.
  rewrite bind_when_call in Hout. inversion Hout; subst. clear Hout.
  rewrite !created_app, created_by_save. now rewrite !orb_true_r.
Qed.

Lemma hit_loads_cache oe t :
  created t cached = true ->
  exists v,
    load_and_cache_examples W a ev oe t
    = (Ok v,
       t ++ [Probe "os.path.exists" [cached] (ABool true);
             Call "torch.load" [cached]]
         ++ (if (local_rank a =? 0)%Z && negb ev
             then [Call "torch.distributed.barrier" []] else [])).
Proof.
  intros Hc. unfold load_and_cache_examples.
  rewrite path, first. cbn [negb andb].
  rewrite bind_when_call, bind_probe, app_nil_r, (remembered _ _ Hc), keep.
  cbn [negb andb]. rewrite bind_call_for.
  destruct (torch_load_cached W _ cached) as [[fs ds] ex].
  rewrite bind_when_call. unfold ret. eexists. f_equal.
  rewrite <- !app_assoc. reflexivity.
Qed.

(** On the first process, without [--overwrite_cache] and in a world that
    keeps what is written: when [load_and_cache_examples] has not found the
    file of cached features and has returned, every later call with the
    same arguments finds the file, loads the features from it with
    [torch.load] and calls neither the processor nor the conversion. *)
Theorem saved_features_are_loaded (oe oe' : bool) (t t1 later : trace)
    (v : dataset * examples * list feature) :
  os_path_exists W t cached = false ->
  load_and_cache_examples W a ev oe t = (Ok v, t1) ->
  exists v',
    load_and_cache_examples W a ev oe' (t1 ++ later)
    = (Ok v',
       (t1 ++ later)
         ++ [Probe "os.path.exists" [cached] (ABool true);
             Call "torch.load" [cached]]
         ++ (if (local_rank a =? 0)%Z && negb ev
             then [Call "torch.distributed.barrier" []] else [])).
Proof.
  intros Hmiss H. apply hit_loads_cache.
  rewrite created_app, (miss_writes_cache _ _ _ _ Hmiss H). reflexivity.
Qed.

End Cache.

Lemma saved_features_are_loaded_witness :
  exists v',
    load_and_cache_examples world_plain eval_args true true
      (snd (load_and_cache_examples world_plain eval_args true true []) ++ [])
    = (Ok v',
       (snd (load_and_cache_examples world_plain eval_args true true []) ++ [])
         ++ [Probe "os.path.exists" ["data/cached_dev_bert-base-uncased_384"] (ABool true);
             Call "torch.load" ["data/cached_dev_bert-base-uncased_384"]]
         ++ []).
Proof.
  destruct (load_and_cache_examples world_plain eval_args true true [])
    as [[v|e] t1] eqn:E; [|vm_compute in E; discriminate E].
  apply (saved_features_are_loaded world_plain eval_args true
           "data/cached_dev_bert-base-uncased_384"
           (fun t p H => H) eq_refl eq_refl eq_refl true true [] t1 [] v eq_refl E).
Defined.

(** ** Training: the value of [global_step] *)

Section Steps.

Variable W : world.
Variable a : args.

Lemma watch_counts d :
  forall w0 w, watch_trace a (Some w0) d = Some w ->
               step_now w = (step_now w0 + Z.of_nat (updates_made d))%Z.
Proof.
  induction d as [|e d IH]; intros w0 w H.
  - inversion H. unfold updates_made. simpl. lia.
  - unfold watch_trace in H. simpl in H. unfold updates_made. simpl.
    destruct (is_update e).
    + destruct (pending w0).
      * clear IH. exfalso. induction d; simpl in H; [discriminate|auto].
      * apply IH in H. simpl in *. unfold updates_made in H. lia.
    + destruct (pending w0) as [k|].
      * destruct (checkpoint_write _ k e); apply IH in H; simpl in *;
          unfold updates_made in H; lia.
      * apply IH in H. unfold updates_made in H. lia.
Qed.

Lemma train_run_watched ds u t t' g :
  train W a ds u t = (Ok g, t') ->
  exists g0 d,
    start_of a g0 /\ t' = t ++ d
    /\ watch_trace a (Some (mkWatch g0 None)) d = Some (mkWatch g None).
Proof.
  intros H. unfold train in H.
  apply bind_inv_ok in H as ([[[[n epochs] c0] trained] unc] & t1 & Hs & H).
  pose proof (train_setup_start W a ds u _ _ _ Hs) as Hstart. simpl in Hstart.
  destruct (train_setup_quiet W a ds u _ _ _ Hs) as (d1 & -> & Hq1).
  assert (Hw : watched a (global_step c0)
                 (c <- epochs_loop W a unc (Z.to_nat (epochs - trained)) (range n) c0 ;;
                  when (first_process a) (call "tb_writer.close" []) ;;
                  if (global_step c =? 0)%Z then raise (DivisionByZero 301)
                  else ret (global_step c))
                 (fun g => g)).
  { apply (watched_bind _ _ _ global_step); [apply epochs_loop_watched|].
    intros c.
    apply (watched_bind _ (global_step c) _ (fun _ => global_step c));
      [apply quiet_watched; quiet_run; auto with quiet|intros ?].
    destruct (global_step c =? 0)%Z; [apply watched_raise|now apply watched_ret]. }
  destruct (Hw _ _ _ H) as (d2 & -> & H2).
  exists (global_step c0), (d1 ++ d2). split; [assumption|].
  split; [now rewrite app_assoc|].
  rewrite watch_trace_app, (watch_quiet _ _ _ Hq1) by (now left). exact H2.
Qed.

(** The value [train] returns is the value [global_step] started with,
    which is 1 or the number at the end of the name of the checkpoint, plus
    the number of optimizer updates made. *)
Theorem train_counts_updates (ds : dataset) (u : bool) (t t' : trace) (g : Z) :
  train W a ds u t = (Ok g, t') ->
  exists g0 d,
    start_of a g0 /\ t' = t ++ d /\ g = (g0 + Z.of_nat (updates_made d))%Z.
Proof.
  intros H. destruct (train_run_watched _ _ _ _ _ H) as (g0 & d & Hs & Ht & Hw).
  exists g0, d. repeat split; try assumption.
  apply watch_counts in Hw. exact Hw.
Qed.

(** *** What one batch does to the counters *)

Lemma returns_raise {A} (Q : A -> Prop) e : returns_only Q (raise e).
Proof. intros t x t' H. discriminate. Qed.

Lemma returns_weaken {A} (P Q : A -> Prop) (m : M A) :
  returns_only P m -> (forall x, P x -> Q x) -> returns_only Q m.
Proof. intros Hm HPQ t x t' H. eapply HPQ, Hm, H. Qed.

Lemma returns_ret_bind {A B} (Q : B -> Prop) (x : A) (f : A -> M B) :
  returns_only Q (f x) -> returns_only Q (bind (ret x) f).
Proof. intros H t y t' E. exact (H t y t' E). Qed.

Lemma optimizer_update_returns c :
  returns_only (fun c' => global_step c' = (global_step c + 1)%Z
                          /\ steps_trained_in_current_epoch c'
                             = steps_trained_in_current_epoch c)
    (optimizer_update W a c).
Proof.
  unfold optimizer_update. repeat (apply returns_bind; intros ?).
  apply returns_ret. now split.
Qed.

Lemma train_batch_returns u step c :
  returns_only (fun c' => global_step c'
                          = (global_step c
                             + if ((step + 1) mod gradient_accumulation_steps a =? 0)%Z
                               then 1 else 0)%Z
                          /\ steps_trained_in_current_epoch c'
                             = steps_trained_in_current_epoch c)
    (train_batch W a u step c).
Proof.
  unfold train_batch. do 4 (apply returns_bind; intros ?).
  match goal with |- returns_only _ (match ?o with _ => _ end) => destruct o end;
    [apply returns_raise|].
  do 2 (apply returns_bind; intros ?).
  destruct (gradient_accumulation_steps a =? 0)%Z; [apply returns_raise|].
  destruct ((step + 1) mod gradient_accumulation_steps a =? 0)%Z.
  - apply optimizer_update_returns.
  - apply returns_ret. split; [lia|reflexivity].
Qed.

(** *** The limit of [--max_steps] *)

Lemma epoch_loop_capped u limit steps :
  (0 < max_steps a <= limit)%Z ->
  forall c, (global_step c <= limit)%Z ->
  returns_only (fun c' => (global_step c' <= limit + 1)%Z
                          /\ (past_max_steps a c' = false ->
                              (global_step c' <= limit)%Z))
    (epoch_loop W a u steps c).
Proof.
  intros Hl. induction steps as [|step rest IH]; intros c Hc; simpl.
  - apply returns_ret. split; [lia|auto].
  - destruct (steps_trained_in_current_epoch c >? 0)%Z; [now apply IH|].
    eapply returns_bind_from; [apply train_batch_returns|].
    intros c1 [Hg _]. simpl in Hg.
    destruct (past_max_steps a c1) eqn:Ep.
    + apply returns_ret. split; [|congruence].
      destruct (_ =? 0)%Z in Hg; lia.
    + apply IH. unfold past_max_steps in Ep.
      apply andb_false_iff in Ep as [Ep|Ep].
      * rewrite Z.gtb_ltb, Z.ltb_ge in Ep. lia.
      * rewrite Z.gtb_ltb, Z.ltb_ge in Ep. lia.
Qed.

Lemma epochs_loop_capped u limit steps n :
  (0 < max_steps a <= limit)%Z ->
  forall c, (global_step c <= limit)%Z ->
  returns_only (fun c' => (global_step c' <= limit + 1)%Z)
    (epochs_loop W a u n steps c).
Proof.
  intros Hl. induction n as [|n IH]; intros c Hc; simpl.
  - apply returns_ret. lia.
  - eapply returns_bind_from; [now apply (epoch_loop_capped u limit steps Hl)|].
    intros c1 [H1 H2]. simpl in *.
    destruct (past_max_steps a c1); [now apply returns_ret|]. apply IH. auto.
Qed.

(** *** Where the counting starts *)

#[local] Hint Resolve extends_ret extends_raise extends_read set_seed_grows : grows.

Lemma resumes_before {A B} (m : M A) (f : A -> M B) g :
  extends no_exists_probe m -> (forall x, resumes a (f x) g) ->
  resumes a (bind m f) g.
Proof.
  intros Hm Hf t y t' H. apply bind_inv_ok in H as (x & t1 & Hx & H).
  destruct (Hm _ _ _ Hx) as (d & -> & Hd).
  destruct (Hf x _ _ _ H) as (d1 & there & d2 & -> & H1 & Hg).
  exists (d ++ d1), there, d2. rewrite <- !app_assoc, forallb_app, Hd, H1. auto.
Qed.

Lemma resumes_after {A B} (m : M A) (f : A -> M B) g0 g :
  resumes a m g0 ->
  (forall x, extends any_event (f x)) ->
  (forall x, returns_only (fun y => g y = g0 x) (f x)) ->
  resumes a (bind m f) g.
Proof.
  intros Hm He Hf t y t' H. apply bind_inv_ok in H as (x & t1 & Hx & H).
  destruct (Hm _ _ _ Hx) as (d1 & there & d2 & -> & H1 & Hg).
  destruct (He x _ _ _ H) as (d & -> & _).
  exists d1, there, (d2 ++ d). rewrite (Hf x _ _ _ H), Hg.
  rewrite <- !app_assoc. auto.
Qed.

Lemma resume_resumes batches :
  resumes a (resume W a batches) (fun x => global_step (fst x)).
Proof.
  intros t [c0 trained] t' H.
  unfold resume, bind, probe, ret, raise in H.
  exists [], (os_path_exists W t (model_name_or_path a)), [].
  unfold resume_probe, first_step. simpl.
  destruct (os_path_exists W t (model_name_or_path a)).
  - destruct (py_int _) as [step|].
    + destruct (_ || _); [discriminate|]. inversion H; subst. auto.
    + inversion H; subst. auto.
  - inversion H; subst. auto.
Qed.

Lemma train_setup_resumes ds u :
  resumes a (train_setup W a ds u) (fun x => global_step (snd (fst (fst x)))).
Proof.
  unfold train_setup. cbv zeta.
  repeat match goal with
         | |- resumes _ (bind (resume _ _ _) _) _ => fail 1
         | |- resumes _ (bind _ _) _ => apply resumes_before; [grows|intros ?]
         | |- resumes _ (match ?x with _ => _ end) _ => destruct x
         end.
  apply (resumes_after _ _ (fun x => global_step (fst x))).
  - apply resume_resumes.
  - intros [c0 trained]. grows.
  - intros [c0 trained]. do 2 (apply returns_bind; intros ?). now apply returns_ret.
Qed.

Lemma train_run_parts ds u t t' g :
  train W a ds u t = (Ok g, t') ->
  exists n epochs c0 trained unc t1 d2,
    train_setup W a ds u t = (Ok (n, epochs, c0, trained, unc), t1)
    /\ t' = t1 ++ d2
    /\ g = (global_step c0 + Z.of_nat (updates_made d2))%Z
    /\ ((0 < max_steps a)%Z ->
        (g <= Z.max (global_step c0) (max_steps a) + 1)%Z).
Proof.
  intros H. unfold train in H.
  apply bind_inv_ok in H as ([[[[n epochs] c0] trained] unc] & t1 & Hs & H).
  exists n, epochs, c0, trained, unc, t1.
  assert (Hw : watched a (global_step c0)
                 (c <- epochs_loop W a unc (Z.to_nat (epochs - trained)) (range n) c0 ;;
                  when (first_process a) (call "tb_writer.close" []) ;;
                  if (global_step c =? 0)%Z then raise (DivisionByZero 301)
                  else ret (global_step c))
                 (fun g => g)).
  { apply (watched_bind _ _ _ global_step); [apply epochs_loop_watched|].
    intros c.
    apply (watched_bind _ (global_step c) _ (fun _ => global_step c));
      [apply quiet_watched; quiet_run; auto with quiet|intros ?].
    destruct (global_step c =? 0)%Z; [apply watched_raise|now apply watched_ret]. }
  destruct (Hw _ _ _ H) as (d2 & -> & H2). exists d2.
  split; [assumption|]. split; [reflexivity|].
  apply watch_counts in H2. simpl in H2. split; [assumption|].
  intros Hm.
  apply bind_inv_ok in H as (c & t2 & Hc & H).
  apply (epochs_loop_capped unc (Z.max (global_step c0) (max_steps a))) in Hc;
    [|lia..].
  apply bind_inv_ok in H as (? & t3 & _ & H).
  destruct (global_step c =? 0)%Z; [discriminate H|].
  inversion H; subst. exact Hc.
Qed.

Lemma quiet_no_updates d : forallb quiet d = true -> updates_made d = 0%nat.
Proof.
  unfold updates_made. induction d as [|e d IH]; simpl; [reflexivity|].
  intros H. apply andb_prop in H as [He Hd].
  rewrite (quiet_not_update _ He). auto.
Qed.

Lemma updates_made_app d1 d2 :
  updates_made (d1 ++ d2) = (updates_made d1 + updates_made d2)%nat.
Proof. unfold updates_made. now rewrite filter_app, length_app. Qed.

(** With [--max_steps] above 0, a run of [train] that returns has asked
    whether [model_name_or_path] exists, and the answer decides where
    [global_step] starts: at [first_step], which is the number that the
    name ends with when the path exists and the name ends with a number, and
    1 otherwise.  The run returns that value plus the number of optimizer
    updates it has made, and this is at most [max_steps + 1], or one more
    than the first step when that is larger.  A run that starts at 1 thus
    makes at most [max_steps] updates. *)
Theorem max_steps_limits_training (ds : dataset) (u : bool) (t t' : trace) (g : Z) :
  (0 < max_steps a)%Z ->
  train W a ds u t = (Ok g, t') ->
  exists d1 there d2,
    t' = t ++ d1 ++ resume_probe a there :: d2
    /\ forallb no_exists_probe d1 = true
    /\ g = (first_step a there
            + Z.of_nat (updates_made (d1 ++ resume_probe a there :: d2)))%Z
    /\ (g <= Z.max (first_step a there) (max_steps a) + 1)%Z
    /\ (first_step a there = 1%Z ->
        (Z.of_nat (updates_made (d1 ++ resume_probe a there :: d2))
         <= max_steps a)%Z).
Proof.
  intros Hm H.
  destruct (train_run_parts _ _ _ _ _ H)
    as (n & epochs & c0 & trained & unc & t1 & d & Hs & -> & Hg & Hle).
  destruct (train_setup_resumes _ _ _ _ _ Hs) as (d1 & there & d2 & E & H1 & Hf).
  simpl in Hf.
  destruct (train_setup_quiet W a ds u _ _ _ Hs) as (ds' & E' & Hq).
  rewrite E' in E. apply app_inv_head in E. subst ds'.
  exists d1, there, (d2 ++ d). subst t1.
  assert (Hu : updates_made (d1 ++ resume_probe a there :: d2 ++ d) = updates_made d).
  { change (d1 ++ resume_probe a there :: d2 ++ d)
      with (d1 ++ (resume_probe a there :: d2) ++ d).
    rewrite app_assoc, updates_made_app, (quiet_no_updates _ Hq). reflexivity. }
  rewrite Hu, <- Hf. specialize (Hle Hm).
  repeat split; try assumption.
  - now rewrite <- !app_assoc.
  - intros H0. lia.
Qed.

(** *** A fresh run without [--max_steps] *)

Lemma next_quotient (m g : Z) :
  (0 <= m)%Z -> (0 < g)%Z ->
  ((m + 1) / g = m / g + if ((m + 1) mod g =? 0)%Z then 1 else 0)%Z.
Proof.
  intros Hm Hg.
  pose proof (Z.div_mod m g ltac:(lia)) as E.
  pose proof (Z.mod_pos_bound m g Hg) as B.
  destruct (Z.eq_dec (m mod g + 1) g) as [Hr|Hr].
  - assert (E1 : (m + 1 = (m / g + 1) * g)%Z) by lia.
    rewrite E1, Z.div_mul, Z.mod_mul by lia. reflexivity.
  - assert (Hd : ((m + 1) / g = m / g)%Z).
    { symmetry. apply (Z.div_unique_pos _ _ _ (m mod g + 1)); lia. }
    assert (Hmod : ((m + 1) mod g = m mod g + 1)%Z).
    { symmetry. apply (Z.mod_unique_pos _ _ (m / g)); lia. }
    rewrite Hd, Hmod. destruct (Z.eqb_spec (m mod g + 1) 0); lia.
Qed.

Lemma closing_app gas l1 l2 :
  closing gas (l1 ++ l2) = (closing gas l1 + closing gas l2)%nat.
Proof. unfold closing. now rewrite filter_app, length_app. Qed.

Lemma closing_cons gas step l :
  closing gas (step :: l)
  = ((if ((step + 1) mod gas =? 0)%Z then 1 else 0) + closing gas l)%nat.
Proof. unfold closing. simpl. destruct (_ =? 0)%Z; reflexivity. Qed.

Lemma closing_range gas n :
  (0 < gas)%Z -> Z.of_nat (closing gas (range n)) = (Z.of_nat n / gas)%Z.
Proof.
  intros Hg. induction n as [|n IH].
  - reflexivity.
  - unfold range in *. rewrite seq_S, map_app, closing_app, Nat2Z.inj_add, IH.
    rewrite Nat2Z.inj_succ, <- Z.add_1_r, next_quotient by lia.
    unfold closing. simpl.
    destruct ((Z.of_nat n + 1) mod gas =? 0)%Z; reflexivity.
Qed.

Lemma never_past_max_steps c : (max_steps a <= 0)%Z -> past_max_steps a c = false.
Proof.
  intros H. unfold past_max_steps.
  destruct (Z.gtb_spec (max_steps a) 0); [lia|reflexivity].
Qed.

Lemma epoch_loop_counts u steps :
  (max_steps a <= 0)%Z ->
  forall c, steps_trained_in_current_epoch c = 0%Z ->
  returns_only (fun c' => global_step c'
                          = (global_step c
                             + Z.of_nat (closing (gradient_accumulation_steps a) steps))%Z
                          /\ steps_trained_in_current_epoch c' = 0%Z)
    (epoch_loop W a u steps c).
Proof.
  intros Hm. induction steps as [|step rest IH]; intros c Hc; simpl.
  - apply returns_ret. unfold closing. simpl. split; [lia|assumption].
  - rewrite Hc. simpl.
    eapply returns_bind_from; [apply train_batch_returns|].
    intros c1 [Hg Hs]. simpl in Hg, Hs. rewrite never_past_max_steps by assumption.
    eapply returns_weaken; [apply IH; congruence|].
    intros c2 [H2 H3]. cbv beta in *. split; [|assumption].
    rewrite H2, Hg, closing_cons, Nat2Z.inj_add.
    destruct ((step + 1) mod gradient_accumulation_steps a =? 0)%Z; simpl Z.of_nat; lia.
Qed.

Lemma epochs_loop_counts u steps n :
  (max_steps a <= 0)%Z ->
  forall c, steps_trained_in_current_epoch c = 0%Z ->
  returns_only (fun c' => global_step c'
                          = (global_step c
                             + Z.of_nat n
                               * Z.of_nat (closing (gradient_accumulation_steps a) steps))%Z)
    (epochs_loop W a u n steps c).
Proof.
  intros Hm. induction n as [|n IH]; intros c Hc.
  - apply returns_ret. lia.
  - cbn [epochs_loop].
    eapply returns_bind_from; [now apply epoch_loop_counts|].
    intros c1 [Hg Hs]. simpl in Hg, Hs. rewrite never_past_max_steps by assumption.
    eapply returns_weaken; [apply IH; assumption|].
    intros c2 H2. simpl in H2. rewrite H2, Hg. lia.
Qed.

Lemma resume_fresh batches :
  py_int (hd "" (split_on "/" (last (split_on "-" (model_name_or_path a)) ""))) = None ->
  returns_only (fun x => x = (mkCounters 1 0, 0%Z)) (resume W a batches).
Proof.
  intros Hp t x t'. unfold resume, bind, probe, ret.
  destruct (os_path_exists W t (model_name_or_path a)).
  - rewrite Hp. intros H. now inversion H.
  - intros H. now inversion H.
Qed.

Lemma train_setup_fresh ds u t n epochs c0 trained unc t1 :
  (max_steps a <= 0)%Z ->
  py_int (hd "" (split_on "/" (last (split_on "-" (model_name_or_path a)) ""))) = None ->
  train_setup W a ds u t = (Ok (n, epochs, c0, trained, unc), t1) ->
  n = loader_batches W a ds t /\ epochs = num_train_epochs a
  /\ c0 = mkCounters 1 0 /\ trained = 0%Z.
Proof.
  intros Hm Hp H. unfold train_setup in H.
  rewrite bind_when_call, bind_call, bind_call_for in H.
  fold (at_loader a t) in H. fold (loader_batches W a ds t) in H.
  destruct (Z.gtb_spec (max_steps a) 0) as [|_]; [lia|].
  match type of H with
  | ?m _ = _ =>
      assert (Hr : returns_only
                     (fun x => fst (fst (fst (fst x))) = loader_batches W a ds t
                               /\ snd (fst (fst (fst x))) = num_train_epochs a
                               /\ snd (fst (fst x)) = mkCounters 1 0
                               /\ snd (fst x) = 0%Z) m)
  end.
  { destruct (gradient_accumulation_steps a =? 0)%Z.
    { intros ? ? ? H0. discriminate H0. }
    apply returns_ret_bind.
    repeat match goal with
           | |- returns_only _ (bind (resume _ _ _) _) => fail 1
           | |- returns_only _ (bind _ _) => apply returns_bind; intros ?
           | |- returns_only _ (match ?x with _ => _ end) => destruct x
           end.
    eapply returns_bind_from; [now apply resume_fresh|].
    intros [c tr] E. inversion E; subst.
    do 2 (apply returns_bind; intros ?). apply returns_ret. simpl.
    repeat split; reflexivity. }
  apply Hr in H. simpl in H. exact H.
Qed.

(** A run of [train] that neither resumes from a checkpoint nor has
    [--max_steps], and that returns, returns 1 plus the number of epochs
    times the number of full accumulation windows of an epoch: the batches
    left over at the end of an epoch update nothing, and their gradients are
    carried into the next epoch. *)
Theorem fresh_run_counts_windows (ds : dataset) (u : bool) (t t' : trace) (g : Z) :
  (max_steps a <= 0)%Z ->
  (0 < gradient_accumulation_steps a)%Z ->
  py_int (hd "" (split_on "/" (last (split_on "-" (model_name_or_path a)) ""))) = None ->
  train W a ds u t = (Ok g, t') ->
  g = (1 + Z.max 0 (num_train_epochs a)
           * (Z.of_nat (loader_batches W a ds t) / gradient_accumulation_steps a))%Z.
Proof.
  intros Hm Hg Hp H. unfold train in H.
  apply bind_inv_ok in H as ([[[[n epochs] c0] trained] unc] & t1 & Hs & H).
  destruct (train_setup_fresh _ _ _ _ _ _ _ _ _ Hm Hp Hs) as (-> & -> & -> & ->).
  apply bind_inv_ok in H as (c & t2 & Hc & H).
  apply epochs_loop_counts in Hc; [|assumption|reflexivity]. simpl in Hc.
  apply bind_inv_ok in H as (? & t3 & _ & H).
  destruct (global_step c =? 0)%Z; [discriminate H|].
  inversion H; subst g.
  rewrite Hc, closing_range by assumption.
  replace (Z.of_nat (Z.to_nat (num_train_epochs a - 0)))
    with (Z.max 0 (num_train_epochs a)) by lia.
  reflexivity.
Qed.

End Steps.

Lemma train_counts_updates_witness :
  exists g0 d,
    start_of train_args g0
    /\ snd (train world_plain train_args 10%N false []) = [] ++ d
    /\ 3%Z = (g0 + Z.of_nat (updates_made d))%Z.
Proof.
  apply (train_counts_updates world_plain train_args 10%N false []).
  vm_compute. reflexivity.
Defined.

Lemma max_steps_limits_training_witness :
  exists d1 there d2,
    snd (train world_plain capped_args 10%N false [])
    = [] ++ d1 ++ resume_probe capped_args there :: d2
    /\ forallb no_exists_probe d1 = true
    /\ 2%Z = (first_step capped_args there
              + Z.of_nat (updates_made (d1 ++ resume_probe capped_args there :: d2)))%Z
    /\ (2 <= Z.max (first_step capped_args there) (max_steps capped_args) + 1)%Z
    /\ (first_step capped_args there = 1%Z ->
        (Z.of_nat (updates_made (d1 ++ resume_probe capped_args there :: d2))
         <= max_steps capped_args)%Z).
Proof.
  apply (max_steps_limits_training world_plain capped_args 10%N false []).
  - reflexivity.
  - vm_compute. reflexivity.
Defined.

Lemma fresh_run_counts_windows_witness :
  3%Z = (1 + Z.max 0 (num_train_epochs train_args)
             * (Z.of_nat (loader_batches world_plain train_args 10%N [])
                / gradient_accumulation_steps train_args))%Z.
Proof.
  apply (fresh_run_counts_windows world_plain train_args 10%N false []
           (snd (train world_plain train_args 10%N false []))).
  - vm_compute. discriminate.
  - reflexivity.
  - reflexivity.
  - vm_compute. reflexivity.
Defined.

(** ** The name of a checkpoint directory and the step it was written at *)

Lemma numeral_digits d : forallb is_digit (numeral d) = true.
Proof.
  unfold numeral.
  induction d; [reflexivity|..];
    cbn [NilEmpty.string_of_uint list_ascii_of_string forallb]; rewrite IHd; reflexivity.
Qed.

Lemma digit_not_space c : is_digit c = true -> isspace_ascii c = false.
Proof.
  destruct c as [[] [] [] [] [] [] [] []]; intros H; try discriminate H; reflexivity.
Qed.

Lemma digit_is_not sep c : is_digit sep = false -> is_digit c = true -> is_not sep c = true.
Proof.
  intros Hs Hc. unfold is_not. destruct (Ascii.eqb_spec c sep); [congruence|reflexivity].
Qed.

Lemma forallb_weaken {A} (P Q : A -> bool) l :
  (forall x, P x = true -> Q x = true) -> forallb P l = true -> forallb Q l = true.
Proof.
  intros HPQ. rewrite !forallb_forall. auto.
Qed.

Lemma lstrip_keeps l :
  forallb is_digit l = true -> lstrip_ascii l = l.
Proof.
  destruct l as [|c r]; [reflexivity|]. simpl. intros H.
  apply andb_prop in H as [Hc _]. now rewrite (digit_not_space _ Hc).
Qed.

Lemma strip_keeps l : forallb is_digit l = true -> strip_ascii l = l.
Proof.
  intros H. unfold strip_ascii. rewrite (lstrip_keeps _ H), lstrip_keeps.
  - apply rev_involutive.
  - rewrite forallb_forall in *. intros c Hc. apply H. now apply in_rev.
Qed.

Lemma digits_value_acc d :
  forall acc, digits_value (Z.pos acc) true (numeral d)
              = Some (Z.pos (Pos.of_uint_acc d acc)).
Proof.
  unfold numeral.
  induction d; intros acc; [reflexivity|..];
    cbn [NilEmpty.string_of_uint list_ascii_of_string digits_value Pos.of_uint_acc];
    match goal with
    | |- context [digit_of ?c] =>
        let v := eval vm_compute in (digit_of c) in change (digit_of c) with v
    end;
    cbv iota beta; rewrite <- IHd; f_equal; lia.
Qed.

Lemma digits_value_uint d :
  forall b, d <> Decimal.Nil \/ b = true ->
            digits_value 0 b (numeral d) = Some (Z.of_N (Pos.of_uint d)).
Proof.
  induction d; intros b Hb.
  1: { destruct Hb as [Hb| ->]; [contradiction|reflexivity]. }
  1: { change (digits_value 0 true (numeral d) = Some (Z.of_N (Pos.of_uint d))).
       apply IHd. now right. }
  all: exact (digits_value_acc d _).
Qed.

Lemma py_int_numeral d :
  d <> Decimal.Nil ->
  py_int (NilEmpty.string_of_uint d) = Some (Z.of_N (Pos.of_uint d)).
Proof.
  intros Hd. rewrite <- (digits_value_uint d false) by now left.
  unfold py_int. fold (numeral d). rewrite strip_keeps by apply numeral_digits.
  destruct d; [contradiction|reflexivity..].
Qed.

Lemma py_int_str_of_int g : 0 <= g -> py_int (str_of_int g) = Some g.
Proof.
  intros Hg. unfold str_of_int. destruct g as [|p|p]; [reflexivity| |lia].
  cbn [Z.to_int NilEmpty.string_of_int].
  rewrite py_int_numeral by apply Unsigned.to_uint_nonnil.
  now rewrite Unsigned.of_to.
Qed.

Lemma split_on_whole sep s :
  forallb (is_not sep) (list_ascii_of_string s) = true -> split_on sep s = [s].
Proof.
  induction s as [|c r IH]; [reflexivity|]. simpl. intros H.
  apply andb_prop in H as [Hc Hr]. unfold is_not in Hc.
  apply negb_true_iff in Hc. now rewrite Hc, (IH Hr).
Qed.

Lemma split_on_ends sep s :
  forallb (is_not sep) (list_ascii_of_string s) = true ->
  forall pre, exists x init,
    split_on sep (pre ++ String sep s)%string = x :: init ++ [s].
Proof.
  intros Hs. induction pre as [|c r IH].
  - exists EmptyString, []. simpl. now rewrite Ascii.eqb_refl, split_on_whole.
  - destruct IH as (x & init & IH). simpl. rewrite IH.
    destruct (Ascii.eqb c sep).
    + now exists EmptyString, (x :: init).
    + now exists (String c x), init.
Qed.

Lemma str_app_assoc (x y z : string) : ((x ++ y) ++ z = x ++ (y ++ z))%string.
Proof. induction x as [|c r IH]; [reflexivity|]. simpl. now rewrite IH. Qed.

Lemma checkpoint_dir_ends a g :
  exists pre, checkpoint_dir a g = (pre ++ String "-" (str_of_int g))%string.
Proof.
  unfold checkpoint_dir, path_join.
  change (starts_with_slash ("checkpoint-" ++ str_of_int g)) with false. cbv iota.
  destruct (negb (nonempty_str (output_dir a)) || ends_with_slash (output_dir a)).
  - exists (output_dir a ++ "checkpoint")%string. now rewrite str_app_assoc.
  - exists (output_dir a ++ "/checkpoint")%string. now rewrite str_app_assoc.
Qed.

Lemma str_of_int_digits g :
  0 <= g -> forallb is_digit (list_ascii_of_string (str_of_int g)) = true.
Proof.
  intros Hg. unfold str_of_int. destruct g as [|p|p]; [reflexivity| |lia].
  apply numeral_digits.
Qed.

Lemma checkpoint_suffix_reads_back a g :
  0 <= g ->
  py_int (hd "" (split_on "/" (last (split_on "-" (checkpoint_dir a g)) ""))) = Some g.
Proof.
  intros Hg. pose proof (str_of_int_digits g Hg) as Hd.
  destruct (checkpoint_dir_ends a g) as (pre & ->).
  destruct (split_on_ends "-" (str_of_int g)) with (pre := pre) as (x & init & ->).
  { revert Hd. apply forallb_weaken. intros c. now apply digit_is_not. }
  rewrite app_comm_cons, last_last, split_on_whole.
  - now apply py_int_str_of_int.
  - revert Hd. apply forallb_weaken. intros c. now apply digit_is_not.
Qed.

(** A run whose [--model_name_or_path] is the directory that [train] names
    for the checkpoint of step [g], and that finds it, starts with
    [global_step = g]: the number is read back from the end of the name,
    whatever the output directory is called.  The epochs and the batches to
    skip are the quotient and the remainder of [g] by the number of updates
    of an epoch. *)
Theorem resume_reads_checkpoint_step (W : world) (a a' : args) (g batches : Z)
    (t t' : trace) (c0 : counters) (epochs_trained : Z) :
  0 <= g ->
  model_name_or_path a' = checkpoint_dir a g ->
  os_path_exists W t (checkpoint_dir a g) = true ->
  resume W a' batches t = (Ok (c0, epochs_trained), t') ->
  global_step c0 = g
  /\ epochs_trained = g / (batches / gradient_accumulation_steps a')
  /\ steps_trained_in_current_epoch c0
     = g mod (batches / gradient_accumulation_steps a').
Proof.
  intros Hg Hm He. unfold resume, bind, probe, ret, raise.
  rewrite Hm, He, (checkpoint_suffix_reads_back a g Hg).
  destruct (_ || _); intros H; inversion H. auto.
Qed.

Lemma resume_reads_checkpoint_step_witness :
  global_step (mkCounters 2 0) = 2
  /\ 1 = 2 / (2 / gradient_accumulation_steps resumed_args)
  /\ steps_trained_in_current_epoch (mkCounters 2 0)
     = 2 mod (2 / gradient_accumulation_steps resumed_args).
Proof.
  apply (resume_reads_checkpoint_step world_plain train_args resumed_args 2 2
           (snd (train world_plain train_args 10%N false []))
           (snd (resume world_plain resumed_args 2
                   (snd (train world_plain train_args 10%N false []))))
           (mkCounters 2 0) 1).
  - lia.
  - reflexivity.
  - vm_compute. reflexivity.
  - vm_compute. reflexivity.
Defined.

End SquadMore.
